(** * Shadow-Depth Analytics: the segmenter, the stability tracker and the
      geometric estimator, embedded in Rocq.

    Sources embedded here:
    - the image-processing module ([computeOtsuThreshold], [getSaturation],
      [generateShadowMask]), and its first, fixed-threshold version
      ([utils/imageProcessing.ts]);
    - the frame loop of [components/CameraAnalysis.tsx] (the part of
      [processFrame] that maintains [frameHistory] and [isStable], and the
      derived [shadowDensity]);
    - the projection model of [constants.ts] ([getLabel], [calculateScale],
      [calculateShadowArea], [estimateH]);
    - the state and the handlers of [App.tsx];
    - the steps and the buttons of [CalibrationWizard.tsx].

    Numbers.  A JavaScript number is a binary64 float.
    - Integer-valued quantities (byte channels, counters, coordinates, bin
      weights and the weighted sums of Otsu's method) are [Z]: their
      arithmetic is exact in binary64 below 2^53.
    - Every floating-point computation that decides an integer result of the
      segmenter (the luminance, the saturation test, the comparison of
      between-class variances) is evaluated in binary64 itself, with Rocq's
      primitive floats.
    - The average intensity is kept as the exact fraction
      intensitySum / shadowPixelCount, in [Q]; its binary64 value is the
      nearest double.
    - The verdict of the stability tracker is evaluated in binary64 as
      well ([CameraAnalysisBinary64]): a window whose exact statistics lie
      on a bound is decided by rounding.  [CameraAnalysis] is the same
      tracker in exact arithmetic over the reals [R]; it carries the
      properties that rounding does not touch.
    - The estimator of [constants.ts] uses [sqrt]; it is embedded over [R]
      (exact arithmetic, no rounding), for bounds and monotonicity. *)

From Stdlib Require Import Uint63.
From Stdlib Require Import Floats.
From Stdlib Require Import ZArith QArith Qround Qreals Reals Lra Lia List Bool.
From stdpp Require Import base list.

Set Warnings "-inexact-float".

#[local] Open Scope Z_scope.

(** ** JavaScript primitives *)

Module JS.

(** The double nearest to an integer (exact when |z| < 2^53). *)
Definition Number_of_int (z : Z) : float :=
  SF2Prim (binary_normalize prec emax z 0 false).

(** Reading a typed array: a byte, or [undefined] out of range; in
    arithmetic [undefined] is NaN. *)
Definition Number_of (v : option Z) : float :=
  match v with
  | Some z => Number_of_int z
  | None => nan
  end.

(** [Math.round]: the nearest integer, ties towards +infinity. *)
Definition Math_round (x : float) : float :=
  match Prim2SF x with
  | S754_finite s m e =>
      if 0 <=? e then x
      else
        let v := if s then Z.neg m else Z.pos m in
        let k := Z.shiftr (2 * v + 2 ^ (- e)) (- e + 1) in
        if (k =? 0) && s then neg_zero else Number_of_int k
  | _ => x
  end.

(** Storing a number into a [Uint8ClampedArray]: NaN becomes 0, the value
    is clamped to 0..255 and rounded to the nearest integer, ties to even. *)
Definition ToUint8Clamp (x : float) : Z :=
  match Prim2SF x with
  | S754_finite false m e =>
      if 0 <=? e then Z.min 255 (Z.pos m * 2 ^ e)
      else
        let d := 2 ^ (- e) in
        let q := Z.pos m / d in
        let r := Z.pos m mod d in
        Z.min 255 (if 2 * r <? d then q
                   else if d <? 2 * r then q + 1
                   else if Z.even q then q else q + 1)
  | S754_infinity false => 255
  | _ => 0
  end.

(** The array index a number denotes when used as a property key: [Some k]
    when the number is the non-negative integer [k]. *)
Definition array_index (x : float) : option Z :=
  match Prim2SF x with
  | S754_zero _ => Some 0
  | S754_finite false m e =>
      if 0 <=? e then Some (Z.pos m * 2 ^ e)
      else if Z.pos m mod 2 ^ (- e) =? 0 then Some (Z.pos m / 2 ^ (- e))
      else None
  | _ => None
  end.

(** [Math.max] and [Math.min]: NaN if an argument is NaN; +0 is larger
    than -0. *)
Definition max2 (a b : float) : float :=
  if is_nan a || is_nan b then nan
  else if (a <? b)%float then b
  else if (b <? a)%float then a
  else if get_sign a then b else a.

Definition min2 (a b : float) : float :=
  if is_nan a || is_nan b then nan
  else if (a <? b)%float then a
  else if (b <? a)%float then b
  else if get_sign a then a else b.

Definition Math_max (a b c : float) : float := max2 (max2 a b) c.
Definition Math_min (a b c : float) : float := min2 (min2 a b) c.

(** [undefined < n] is false. *)
Definition lt_number (v : option Z) (n : Z) : bool :=
  match v with
  | Some z => z <? n
  | None => false
  end.

End JS.

(** ** The segmenter *)

Record ShadowData := mkShadowData {
  count : Z;
  minX : Z;
  minY : Z;
  maxX : Z;
  maxY : Z;
  avgIntensity : Q  (* average brightness of the detected shadow pixels *)
}.

(** *** computeOtsuThreshold *)

(** [histogram[i]]; the only caller passes the 256-bin array. *)
Definition bin (histogram : list Z) (i : nat) : Z := default 0 (histogram !! i).

Record OtsuState := mkOtsuState {
  sumB : Z;
  wB : Z;
  varMax : float;
  threshold : Z
}.

(** The between-class variance computed at a candidate, from the weights
    and the weighted sums the loop holds there. *)
Definition varBetween (sum sumB wB wF : Z) : float :=
  let mB := (JS.Number_of_int sumB / JS.Number_of_int wB)%float in
  let mF := (JS.Number_of_int (sum - sumB) / JS.Number_of_int wF)%float in
  (JS.Number_of_int wB * JS.Number_of_int wF * (mB - mF) * (mB - mF))%float.

(** The loop [for (t = 0; t < 256; t++)], over the candidates still to
    visit; [continue] goes on with the next one, [break] returns. *)
Fixpoint otsuLoop (histogram : list Z) (totalPixels sum : Z)
    (ts : list nat) (st : OtsuState) : Z :=
  match ts with
  | [] => threshold st
  | t :: ts' =>
      let wB' := wB st + bin histogram t in
      if wB' =? 0 then
        otsuLoop histogram totalPixels sum ts'
          (mkOtsuState (sumB st) wB' (varMax st) (threshold st))
      else
        let wF := totalPixels - wB' in
        if wF =? 0 then threshold st
        else
          let sumB' := sumB st + Z.of_nat t * bin histogram t in
          let v := varBetween sum sumB' wB' wF in
          if (varMax st <? v)%float then
            otsuLoop histogram totalPixels sum ts'
              (mkOtsuState sumB' wB' v (Z.of_nat t))
          else
            otsuLoop histogram totalPixels sum ts'
              (mkOtsuState sumB' wB' (varMax st) (threshold st))
  end.

Definition weightedSum (histogram : list Z) : Z :=
  fold_left (fun sum i => sum + Z.of_nat i * bin histogram i) (seq 0 256) 0.

Definition computeOtsuThreshold (histogram : list Z) (totalPixels : Z) : Z :=
  let sum := weightedSum histogram in
  otsuLoop histogram totalPixels sum (seq 0 256) (mkOtsuState 0 0 0%float 0).

(** *** getSaturation *)

Definition getSaturation (r g b : float) : float :=
  let max := JS.Math_max r g b in
  let min := JS.Math_min r g b in
  if (max =? 0)%float then 0%float
  else ((max - min) / max * 255)%float.

(** *** generateShadowMask *)

(** The 2D context belongs to the browser.  It is modelled by what
    [getImageData(0, 0, width, height)] yields for the dimensions of the
    call: the RGBA bytes of the rectangle, or nothing when the call raises.
    [putImageData] replaces those bytes.  The segmenter is embedded for
    whatever the call yields, of any length (a test double may yield any
    array); what the context of a browser yields is stated apart, as
    [html_getImageData]. *)
Record CanvasRenderingContext2D := mkContext {
  surface : option (list Z)
}.

Definition getImageData (ctx : CanvasRenderingContext2D) (width height : nat)
  : option (list Z) := surface ctx.

Definition putImageData (ctx : CanvasRenderingContext2D) (data : list Z)
  : CanvasRenderingContext2D := mkContext (Some data).

(** [width] and [height] are the dimensions of the canvas, natural numbers;
    [numPixels = width * height] is the length of [grayscale]. *)

(** Step 1: grayscale conversion and histogram building. *)

Definition perceptualGray (r g b : float) : float :=
  JS.Math_round (r * 0.299 + g * 0.587 + b * 0.114)%float.

Record Pass1 := mkPass1 {
  grayscale : list Z;
  histogram : list Z
}.

(** [histogram[gray]++]: a key outside 0..255 leaves the 256 bins alone. *)
Definition bump (histogram : list Z) (gray : float) : list Z :=
  match JS.array_index gray with
  | Some k => if k <? 256 then alter Z.succ (Z.to_nat k) histogram else histogram
  | None => histogram
  end.

Definition grayStep (data : list Z) (s : Pass1) (i : nat) : Pass1 :=
  let r := JS.Number_of (data !! i) in
  let g := JS.Number_of (data !! (i + 1)%nat) in
  let b := JS.Number_of (data !! (i + 2)%nat) in
  let gray := perceptualGray r g b in
  mkPass1 (<[(i / 4)%nat := JS.ToUint8Clamp gray]> (grayscale s))
          (bump (histogram s) gray).

(** The values of [i] in [for (i = 0; i < n; i += 4)]. *)
Definition by4 (n : nat) : list nat :=
  map (fun k => (4 * k)%nat) (seq 0 ((n + 3) / 4)).

Definition grayPass (data : list Z) (numPixels : nat) : Pass1 :=
  fold_left (grayStep data) (by4 (length data))
    (mkPass1 (replicate numPixels 0) (replicate 256 0)).

(** Step 2: threshold. *)

Definition refineThreshold (otsuThreshold : Z) : Z :=
  Z.min (Z.max otsuThreshold 30) 80.

(** Step 3: mask generation with saturation filter. *)

Record Pass2 := mkPass2 {
  shadowPixelCount : Z;
  intensitySum : Z;
  curMinX : Z;
  curMinY : Z;
  curMaxX : Z;
  curMaxY : Z;
  pixels : list Z
}.

(** [isShadow]: dark and (low saturation or very dark).  [gray] is
    [grayscale[idx]], undefined when [idx] is out of range. *)
Definition isShadowPixel (finalThreshold : Z) (gray : option Z) (r g b : float)
  : bool :=
  let sat := getSaturation r g b in
  JS.lt_number gray finalThreshold
  && ((sat <? 60)%float || JS.lt_number gray 30).

(** The visual feedback: the three colour bytes of pixel [idx] set to [v]
    and its alpha to 255; a store out of range is ignored. *)
Definition paint (data : list Z) (idx : nat) (v : Z) : list Z :=
  <[(idx * 4 + 3)%nat := 255]>
    (<[(idx * 4 + 2)%nat := v]>
      (<[(idx * 4 + 1)%nat := v]>
        (<[(idx * 4)%nat := v]> data))).

(** The body of the inner loop.  When the test passes [gray] is defined
    (an undefined [gray] fails [gray < finalThreshold]). *)
Definition maskStep (grayscale : list Z) (finalThreshold : Z) (width : nat)
    (y : nat) (s : Pass2) (x : nat) : Pass2 :=
  let idx := (y * width + x)%nat in
  let gray := grayscale !! idx in
  let data := pixels s in
  let r := JS.Number_of (data !! (idx * 4)%nat) in
  let g := JS.Number_of (data !! (idx * 4 + 1)%nat) in
  let b := JS.Number_of (data !! (idx * 4 + 2)%nat) in
  if isShadowPixel finalThreshold gray r g b then
    mkPass2 (shadowPixelCount s + 1)
            (intensitySum s + default 0 gray)
            (if Z.of_nat x <? curMinX s then Z.of_nat x else curMinX s)
            (if Z.of_nat y <? curMinY s then Z.of_nat y else curMinY s)
            (if curMaxX s <? Z.of_nat x then Z.of_nat x else curMaxX s)
            (if curMaxY s <? Z.of_nat y then Z.of_nat y else curMaxY s)
            (paint data idx 0)
  else
    mkPass2 (shadowPixelCount s) (intensitySum s)
            (curMinX s) (curMinY s) (curMaxX s) (curMaxY s)
            (paint data idx 255).

Definition maskRow (grayscale : list Z) (finalThreshold : Z) (width : nat)
    (s : Pass2) (y : nat) : Pass2 :=
  fold_left (maskStep grayscale finalThreshold width y) (seq 0 width) s.

Definition maskPass (grayscale : list Z) (finalThreshold : Z)
    (width height : nat) (data : list Z) : Pass2 :=
  fold_left (maskRow grayscale finalThreshold width) (seq 0 height)
    (mkPass2 0 0 (Z.of_nat width) (Z.of_nat height) 0 0 data).

(** [finalThreshold], as [generateShadowMask] computes it from the frame. *)
Definition finalThresholdOf (data : list Z) (width height : nat) : Z :=
  let numPixels := (width * height)%nat in
  let p1 := grayPass data numPixels in
  refineThreshold (computeOtsuThreshold (histogram p1) (Z.of_nat numPixels)).

(** The returned object; [Qred] keeps the average as a reduced fraction, so
    that equal averages are equal terms. *)
Definition summary (s : Pass2) : ShadowData :=
  let n := shadowPixelCount s in
  mkShadowData n
    (if 0 <? n then curMinX s else 0)
    (if 0 <? n then curMinY s else 0)
    (if 0 <? n then curMaxX s else 0)
    (if 0 <? n then curMaxY s else 0)
    (if 0 <? n then Qred (inject_Z (intensitySum s) / inject_Z n) else 0%Q).

(** The call returns the summary and leaves the context holding the mask;
    [None] when [getImageData] raises. *)
Definition generateShadowMask (ctx : CanvasRenderingContext2D)
    (width height : nat) : option (ShadowData * CanvasRenderingContext2D) :=
  match getImageData ctx width height with
  | None => None
  | Some data =>
      let numPixels := (width * height)%nat in
      let p1 := grayPass data numPixels in
      let otsuThreshold :=
        computeOtsuThreshold (histogram p1) (Z.of_nat numPixels) in
      let finalThreshold := refineThreshold otsuThreshold in
      let p2 := maskPass (grayscale p1) finalThreshold width height data in
      Some (summary p2, putImageData ctx (pixels p2))
  end.

(** *** Class weights of a histogram *)

(** The weight and the weighted sum of the bins below [t]. *)
Definition weightBelow (hist : list Z) (t : nat) : Z :=
  fold_left (fun a i => a + bin hist i) (seq 0 t) 0.

Definition sumBelow (hist : list Z) (t : nat) : Z :=
  fold_left (fun a i => a + Z.of_nat i * bin hist i) (seq 0 t) 0.

(** *** The threshold as the specification words it

    Two-class Otsu over the partition into pixels [< t] and pixels [>= t],
    in exact arithmetic: [wB = sum of hist[i] for i < t],
    [wF = total - wB], degenerate candidates skipped, the variance
    [wB * wF * (meanB - meanF)^2] maximal. *)

Definition spec_valid (hist : list Z) (total : Z) (t : nat) : bool :=
  negb (weightBelow hist t =? 0) && negb (total - weightBelow hist t =? 0).

Definition spec_variance (hist : list Z) (total : Z) (t : nat) : Q :=
  let wB := weightBelow hist t in
  let wF := total - wB in
  let meanB := (inject_Z (sumBelow hist t) / inject_Z wB)%Q in
  let meanF :=
    (inject_Z (sumBelow hist 256 - sumBelow hist t) / inject_Z wF)%Q in
  (inject_Z wB * inject_Z wF * (meanB - meanF) * (meanB - meanF))%Q.

Definition spec_otsu (hist : list Z) (total : Z) (t : nat) : Prop :=
  (t <= 256)%nat /\ spec_valid hist total t = true /\
  forall t', (t' <= 256)%nat -> spec_valid hist total t' = true ->
    (spec_variance hist total t' <= spec_variance hist total t)%Q.

(** *** The threshold as the loop computes it

    At candidate [t] the loop has added bin [t] to the background: the
    classes are the pixels [<= t] and the pixels [> t]. *)

Definition loop_variance (hist : list Z) (total : Z) (t : nat) : float :=
  varBetween (weightedSum hist) (sumBelow hist (S t)) (weightBelow hist (S t))
    (total - weightBelow hist (S t)).

(** A candidate the loop can select: both classes are non-empty and the
    variance computed there is positive. *)
Definition loop_candidate (hist : list Z) (total : Z) (t : nat) : Prop :=
  (t < 256)%nat /\ weightBelow hist (S t) <> 0 /\
  total - weightBelow hist (S t) <> 0 /\
  (0 <? loop_variance hist total t)%float = true.

(** [t] is the first candidate whose computed variance no candidate
    exceeds; 0 when there is no candidate. *)
Definition loop_otsu (hist : list Z) (total : Z) (t : Z) : Prop :=
  ((forall j, ~ loop_candidate hist total j) /\ t = 0) \/
  (exists k, t = Z.of_nat k /\ loop_candidate hist total k /\
     (forall j, loop_candidate hist total j ->
        (loop_variance hist total j <=? loop_variance hist total k)%float = true) /\
     (forall j, loop_candidate hist total j -> (j < k)%nat ->
        (loop_variance hist total j <? loop_variance hist total k)%float = true)).

(** *** The pixel test as the specification words it

    [sat = 255 * (max - min) / max], 0 when [max = 0], in exact arithmetic;
    a pixel is shadow iff
    [gray < clampedThreshold AND (sat < 60 OR gray < 30)], [gray] being the
    level that the first loop stores for the pixel. *)

Definition Qltb (x y : Q) : bool := negb (Qle_bool y x).

Definition spec_sat_of (mx mn : Z) : Q :=
  if mx =? 0 then 0%Q else (255 * inject_Z (mx - mn) / inject_Z mx)%Q.

Definition spec_sat (r g b : Z) : Q :=
  spec_sat_of (Z.max (Z.max r g) b) (Z.min (Z.min r g) b).

(** The gray level of a pixel of bytes as the first loop computes and stores
    it: the binary64 value of [Math.round(r * 0.299 + g * 0.587 + b * 0.114)]
    in a [Uint8ClampedArray]. *)
Definition spec_gray (r g b : Z) : Z :=
  JS.ToUint8Clamp
    (perceptualGray (JS.Number_of_int r) (JS.Number_of_int g)
       (JS.Number_of_int b)).

Definition spec_isShadow (clampedThreshold r g b : Z) : bool :=
  (spec_gray r g b <? clampedThreshold)
  && (Qltb (spec_sat r g b) 60 || (spec_gray r g b <? 30)).

(** *** The luminance in exact arithmetic

    [0.299 R + 0.587 G + 0.114 B] in thousandths, and that value rounded to
    the nearest integer, a tie upwards, as [Math.round] rounds. *)

Definition exact_luminance (r g b : Z) : Z := 299 * r + 587 * g + 114 * b.

Definition rounded_luminance (r g b : Z) : Z :=
  (exact_luminance r g b + 500) / 1000.

(** The pixel test on the rounded exact luminance. *)
Definition exact_isShadow (clampedThreshold r g b : Z) : bool :=
  (rounded_luminance r g b <? clampedThreshold)
  && (Qltb (spec_sat r g b) 60 || (rounded_luminance r g b <? 30)).

(** ** Frames *)

Definition is_byte (v : Z) : Prop := 0 <= v <= 255.

(** A frame of [width * height] RGBA pixels. *)
Definition well_formed (data : list Z) (width height : nat) : Prop :=
  length data = (4 * (width * height))%nat /\ Forall is_byte data.

Definition channel (data : list Z) (idx c : nat) : Z :=
  default 0 (data !! (idx * 4 + c)%nat).



(** ** The stability tracker of the frame loop ([CameraAnalysis.tsx]) *)

(** The tracker in exact arithmetic: the numbers are reals and nothing is
    rounded.  The component computes in binary64, which is the embedding
    [CameraAnalysisBinary64] below. *)
Module CameraAnalysis.

#[local] Open Scope R_scope.

Record FrameStats := mkFrameStats {
  area : R;
  width : R;
  height : R;
  cx : R;
  cy : R;
  intensity : R
}.

(** [frameHistory] and [isStable] of the component. *)
Record State := mkState {
  frameHistory : list FrameStats;
  isStable : bool
}.

(** The effect that runs while the camera is not ready or not active:
    [setIsStable(false); frameHistory.current = []]. *)
Definition idle : State := mkState [] false.

Definition Rltb (x y : R) : bool := if Rlt_dec x y then true else false.

Record Stats := mkStats { mean : R; stdDev : R }.

Definition getStats (values : list R) : Stats :=
  let mean := fold_left (fun a b => a + b) values 0 / INR (length values) in
  let stdDev :=
    sqrt (fold_left (fun a b => a + (b - mean) ^ 2) values 0
          / INR (length values)) in
  mkStats mean stdDev.

Definition noFrame : FrameStats := mkFrameStats 0 0 0 0 0 0.

(** [for (i = 1; i < history.length; i++) total += Math.abs(history[i].f -
    history[i-1].f)]; both indices are in range in every iteration. *)
Definition totalDelta (f : FrameStats -> R) (history : list FrameStats) : R :=
  fold_left
    (fun total i =>
       total + Rabs (f (nth i history noFrame) - f (nth (i - 1) history noFrame)))
    (seq 1 (length history - 1)) 0.

(** The body of [if (frameHistory.current.length > 25)], after the shift. *)
Definition verdict (history : list FrameStats) : bool :=
  let areaStats := getStats (map area history) in
  let widthStats := getStats (map width history) in
  let heightStats := getStats (map height history) in
  let xStats := getStats (map cx history) in
  let yStats := getStats (map cy history) in
  let intensityStats := getStats (map intensity history) in
  let avgWDelta := totalDelta width history / (INR (length history) - 1) in
  let avgHDelta := totalDelta height history / (INR (length history) - 1) in
  let areaPresent := Rltb 150 (mean areaStats) in
  let areaStable := Rltb (stdDev areaStats) (mean areaStats * 0.05) in
  let dimensionsStable :=
    Rltb (stdDev widthStats) 3.0 && Rltb (stdDev heightStats) 3.0 in
  let positionStable := Rltb (stdDev xStats) 2.0 && Rltb (stdDev yStats) 2.0 in
  let jitterLow := Rltb avgWDelta 1.5 && Rltb avgHDelta 1.5 in
  let shadowQuality := Rltb (mean intensityStats) 65 in
  areaPresent && areaStable && dimensionsStable && positionStable
  && jitterLow && shadowQuality.

Definition currentFrame (data : ShadowData) : FrameStats :=
  let w := IZR (maxX data) - IZR (minX data) in
  let h := IZR (maxY data) - IZR (minY data) in
  mkFrameStats (IZR (count data)) w h
    (IZR (minX data) + w / 2) (IZR (minY data) + h / 2)
    (Q2R (avgIntensity data)).

(** What [processFrame] does to the tracker with the summary of a frame. *)
Definition observe (st : State) (data : ShadowData) : State :=
  let history := frameHistory st ++ [currentFrame data] in
  if (25 <? length history)%nat then
    let history := tail history in
    mkState history (verdict history)
  else mkState history (isStable st).

(** Feeding the same summary [n] times to a tracker with an empty history. *)
Definition feed (n : nat) (obs : ShadowData) : State :=
  fold_left observe (replicate n obs) idle.

(** The jitter loop from index [s], for [n] iterations. *)
Definition deltaLoop (f : FrameStats -> R) (history : list FrameStats)
    (s n : nat) (acc : R) : R :=
  fold_left
    (fun total i =>
       total + Rabs (f (nth i history noFrame) - f (nth (i - 1) history noFrame)))
    (seq s n) acc.

(** *** The stability predicate as the specification words it *)

Definition total (xs : list R) : R := fold_right Rplus 0 xs.

Definition spec_mean (xs : list R) : R := total xs / 25.

Definition spec_stdDev (xs : list R) : R :=
  sqrt (total (map (fun x => (x - spec_mean xs) ^ 2) xs) / 25).

Fixpoint deltas (xs : list R) : list R :=
  match xs with
  | a :: (b :: _) as rest => Rabs (b - a) :: deltas rest
  | _ => []
  end.

Definition spec_jitter (xs : list R) : R := total (deltas xs) / 24.

Definition spec_stable (window : list FrameStats) : Prop :=
  spec_mean (map area window) > 150 /\
  spec_stdDev (map area window) < 0.05 * spec_mean (map area window) /\
  (spec_stdDev (map width window) < 3.0 /\
   spec_stdDev (map height window) < 3.0) /\
  (spec_stdDev (map cx window) < 2.0 /\ spec_stdDev (map cy window) < 2.0) /\
  (spec_jitter (map width window) < 1.5 /\
   spec_jitter (map height window) < 1.5) /\
  spec_mean (map intensity window) < 65.

(** *** The rest of the frame loop *)

(** A run of the loop: one [processFrame] per summary, from the state the
    component has while the camera is off. *)
Definition processFrames (frames : list ShadowData) : State :=
  fold_left observe frames idle.

(** The derived metric [shadowDensity] (the inverse of the brightness), from
    [lastData]; the overlay computes the same expression as [dens]. *)
Definition shadowDensity (lastData : option ShadowData) : R :=
  match lastData with
  | Some d => Rmax 0 (Rmin 100 ((1 - Q2R (avgIntensity d) / 255) * 100))
  | None => 0
  end.

(** The warning shown over the video: only for more than 50 shadow pixels,
    critical below a density of 70, a caution below 80. *)
Inductive Warning := Critical | Caution | NoWarning.

Definition warning (lastData : option ShadowData) : Warning :=
  match lastData with
  | Some d =>
      if (50 <? count d)%Z then
        if Rltb (shadowDensity lastData) 70 then Critical
        else if Rltb (shadowDensity lastData) 80 then Caution
        else NoWarning
      else NoWarning
  | None => NoWarning
  end.

End CameraAnalysis.

(** ** The stability tracker as the component computes it, in binary64 *)

(** The same part of [processFrame], every number being the double the
    component holds and every operation the binary64 one: the sums of
    [reduce] and of the jitter loop run from the oldest observation to the
    newest and are rounded at each addition, [Math.sqrt] is the correctly
    rounded square root, and the comparisons are those of doubles (false on
    NaN). *)
Module CameraAnalysisBinary64.

#[local] Open Scope float_scope.

Record FrameStats := mkFrameStats {
  area : float;
  width : float;
  height : float;
  cx : float;
  cy : float;
  intensity : float
}.

(** [frameHistory] and [isStable] of the component. *)
Record State := mkState {
  frameHistory : list FrameStats;
  isStable : bool
}.

(** The effect that runs while the camera is not ready or not active:
    [setIsStable(false); frameHistory.current = []]. *)
Definition idle : State := mkState [] false.

Record Stats := mkStats { mean : float; stdDev : float }.

(** [Math.pow(x, 2)]: the square of [x], which the engines compute as the
    product [x * x]. *)
Definition Math_pow2 (x : float) : float := x * x.

Definition getStats (values : list float) : Stats :=
  let n := JS.Number_of_int (Z.of_nat (length values)) in
  let mean := fold_left (fun a b => a + b) values 0 / n in
  let stdDev :=
    PrimFloat.sqrt
      (fold_left (fun a b => a + Math_pow2 (b - mean)) values 0 / n) in
  mkStats mean stdDev.

Definition noFrame : FrameStats := mkFrameStats 0 0 0 0 0 0.

(** The jitter loop from index [s], for [n] iterations, [total] starting at
    [acc]: [total += Math.abs(history[i].f - history[i-1].f)]. *)
Definition deltaLoop (f : FrameStats -> float) (history : list FrameStats)
    (s n : nat) (acc : float) : float :=
  fold_left
    (fun total i =>
       total
       + PrimFloat.abs (f (nth i history noFrame)
                        - f (nth (i - 1) history noFrame)))
    (seq s n) acc.

(** [for (i = 1; i < history.length; i++)], from [total = 0]; both indices
    are in range in every iteration. *)
Definition totalDelta (f : FrameStats -> float) (history : list FrameStats)
  : float := deltaLoop f history 1 (length history - 1) 0.

(** The body of [if (frameHistory.current.length > 25)], after the shift. *)
Definition verdict (history : list FrameStats) : bool :=
  let areaStats := getStats (map area history) in
  let widthStats := getStats (map width history) in
  let heightStats := getStats (map height history) in
  let xStats := getStats (map cx history) in
  let yStats := getStats (map cy history) in
  let intensityStats := getStats (map intensity history) in
  let steps := JS.Number_of_int (Z.of_nat (length history) - 1) in
  let avgWDelta := totalDelta width history / steps in
  let avgHDelta := totalDelta height history / steps in
  let areaPresent := 150 <? mean areaStats in
  let areaStable := stdDev areaStats <? mean areaStats * 0.05 in
  let dimensionsStable :=
    (stdDev widthStats <? 3.0) && (stdDev heightStats <? 3.0) in
  let positionStable := (stdDev xStats <? 2.0) && (stdDev yStats <? 2.0) in
  let jitterLow := (avgWDelta <? 1.5) && (avgHDelta <? 1.5) in
  let shadowQuality := mean intensityStats <? 65 in
  areaPresent && areaStable && dimensionsStable && positionStable
  && jitterLow && shadowQuality.

(** The double of the average intensity of a summary: the quotient of two
    integers, rounded once, which is what
    [intensitySum / shadowPixelCount] is (and 0 for the fraction 0). *)
Definition Number_of_Q (q : Q) : float :=
  JS.Number_of_int (Qnum q) / JS.Number_of_int (Z.pos (Qden q)).

Definition currentFrame (data : ShadowData) : FrameStats :=
  let w := JS.Number_of_int (maxX data) - JS.Number_of_int (minX data) in
  let h := JS.Number_of_int (maxY data) - JS.Number_of_int (minY data) in
  mkFrameStats (JS.Number_of_int (count data)) w h
    (JS.Number_of_int (minX data) + w / 2)
    (JS.Number_of_int (minY data) + h / 2)
    (Number_of_Q (avgIntensity data)).

(** What [processFrame] does to the tracker with the summary of a frame. *)
Definition observe (st : State) (data : ShadowData) : State :=
  let history := frameHistory st ++ [currentFrame data] in
  if (25 <? length history)%nat then
    let history := tail history in
    mkState history (verdict history)
  else mkState history (isStable st).

(** A run of the loop: one [processFrame] per summary, from the state the
    component has while the camera is off. *)
Definition processFrames (frames : list ShadowData) : State :=
  fold_left observe frames idle.

(** *** The stability predicate as the specification words it

    The six conditions on a window of 25 observations.  The mean is the sum
    over 25, the standard deviation the square root of the mean squared
    deviation from that mean, the jitter the mean of the 24 absolute
    differences of consecutive values; each is the double that binary64
    gives, the sums taken from the oldest observation to the newest. *)

Definition total (xs : list float) : float := fold_left PrimFloat.add xs 0.

Definition spec_mean (xs : list float) : float := total xs / 25.

Definition spec_stdDev (xs : list float) : float :=
  PrimFloat.sqrt
    (total (map (fun x => (x - spec_mean xs) * (x - spec_mean xs)) xs) / 25).

Fixpoint deltas (xs : list float) : list float :=
  match xs with
  | a :: (b :: _) as rest => PrimFloat.abs (b - a) :: deltas rest
  | _ => []
  end.

Definition spec_jitter (xs : list float) : float := total (deltas xs) / 24.

Definition spec_stable (window : list FrameStats) : Prop :=
  (150 <? spec_mean (map area window)) = true /\
  (spec_stdDev (map area window) <? spec_mean (map area window) * 0.05)
  = true /\
  ((spec_stdDev (map width window) <? 3.0) = true /\
   (spec_stdDev (map height window) <? 3.0) = true) /\
  ((spec_stdDev (map cx window) <? 2.0) = true /\
   (spec_stdDev (map cy window) <? 2.0) = true) /\
  ((spec_jitter (map width window) <? 1.5) = true /\
   (spec_jitter (map height window) <? 1.5) = true) /\
  (spec_mean (map intensity window) <? 65) = true.

(** *** A window that rounding decides

    25 areas of mean 152 whose standard deviation is, in exact arithmetic,
    7.6: exactly 5% of the mean. *)
Definition borderlineAreas : list Z :=
  ([178; 126; 158; 146; 155; 149; 153; 151] ++ replicate 17 152)%Z.

Definition borderlineFrame (a : Z) : ShadowData :=
  mkShadowData a 5 5 25 45 30%Q.

(** *** A window that its position decides

    25 boxes of width 20 whose left edge is at [base] plus 9, -4, 1, -1, 1,
    -1 and then 19 times 0: in exact arithmetic the standard deviation of
    the centroid is 2, wherever [base] is. *)
Definition restlessOffsets : list Z :=
  ([9; -4; 1; -1; 1; -1] ++ replicate 19 0)%Z.

Definition boxAt (base off : Z) : ShadowData :=
  mkShadowData 600 (base + off) 5 (base + off + 20) 45 30%Q.

End CameraAnalysisBinary64.

(** ** The geometric estimator ([constants.ts]) *)

Module Constants.

#[local] Open Scope R_scope.

Definition Rleb (x y : R) : bool := if Rle_dec x y then true else false.
Definition Rgtb (x y : R) : bool := if Rgt_dec x y then true else false.

(** A computation together with the denominators of the divisions it
    performed. *)
Definition Traced (A : Type) : Type := A * list R.

Definition ret {A} (a : A) : Traced A := (a, []).

Definition bind {A B} (m : Traced A) (k : A -> Traced B) : Traced B :=
  let '(a, ds) := m in
  let '(b, ds') := k a in
  (b, ds ++ ds').

Definition divide (x y : R) : Traced R := (x / y, [y]).

Definition estimateH_traced (L A_hand A_shadow : R) : Traced R :=
  if Rleb A_shadow 0 || Rleb A_hand 0 then ret L
  else
    bind (divide A_hand A_shadow) (fun ratio =>
      if Rgtb ratio 1 then ret 0
      else
        let h := L - L * sqrt ratio in
        ret (Rmax 0 h)).

Definition estimateH (L A_hand A_shadow : R) : R :=
  fst (estimateH_traced L A_hand A_shadow).

Definition denominators (L A_hand A_shadow : R) : list R :=
  snd (estimateH_traced L A_hand A_shadow).


(** *** The projection model *)

Definition DEFAULT_L : R := 50.
Definition DEFAULT_H : R := 5.
Definition DEFAULT_A_HAND : R := 2000.

(** [ProximityLabel] of [types.ts]. *)
Inductive ProximityLabel := TOUCHING | NEAR | AWAY.

Definition getLabel (h : R) : ProximityLabel :=
  if CameraAnalysis.Rltb h 2 then TOUCHING
  else if CameraAnalysis.Rltb h 10 then NEAR
  else AWAY.

Definition calculateScale (L h : R) : R :=
  let d_hand := Rmax 0.1 (L - h) in
  L / d_hand.

Definition calculateShadowArea (A_hand L h : R) : R :=
  let s := calculateScale L h in
  A_hand * s ^ 2.

End Constants.

(** ** The application state ([App.tsx]) *)

Module App.

Import Constants.
#[local] Open Scope R_scope.

(** [GeometryState] of [types.ts]. *)
Record GeometryState := mkGeometryState {
  L : R;       (* distance from light to face *)
  h : R;       (* distance from hand to face *)
  A_hand : R   (* area of the hand *)
}.

(** The state of the component that the handlers below touch (the text
    of the analysis and its loading flag are left out). *)
Record State := mkState {
  state : GeometryState;
  isCalibrating : bool;
  detectedArea : R;
  isVisionStable : bool
}.

Definition initial : State :=
  mkState (mkGeometryState DEFAULT_L DEFAULT_H DEFAULT_A_HAND) false 0 false.

(** The handlers of the component, with the value each one receives:
    the [onChange] of the two sliders (the parsed value of the input), the
    callbacks given to the camera, the button that launches or cancels the
    wizard, the wizard's [onCancel], and [finalizeCalibration], which both
    the wizard and the camera call with an area. *)
Inductive Event :=
| LightDistanceChanged (value : R)    (* L: parseInt(e.target.value) *)
| ObjectPositionChanged (value : R)   (* h: parseFloat(e.target.value) *)
| handleAreaDetected (area : R)
| handleStabilityChange (stable : bool)
| WizardButton                        (* setIsCalibrating(!isCalibrating) *)
| onCancel                            (* setIsCalibrating(false) *)
| finalizeCalibration (area : R).

Definition handle (s : State) (e : Event) : State :=
  match e with
  | LightDistanceChanged value =>
      mkState (mkGeometryState value (h (state s)) (A_hand (state s)))
        (isCalibrating s) (detectedArea s) (isVisionStable s)
  | ObjectPositionChanged value =>
      mkState (mkGeometryState (L (state s)) value (A_hand (state s)))
        (isCalibrating s) (detectedArea s) (isVisionStable s)
  | handleAreaDetected area =>
      mkState (state s) (isCalibrating s) area (isVisionStable s)
  | handleStabilityChange stable =>
      mkState (state s) (isCalibrating s) (detectedArea s) stable
  | WizardButton =>
      mkState (state s) (negb (isCalibrating s)) (detectedArea s)
        (isVisionStable s)
  | onCancel =>
      mkState (state s) false (detectedArea s) (isVisionStable s)
  | finalizeCalibration area =>
      if Rgtb area 0 then
        mkState (mkGeometryState (L (state s)) (h (state s)) area)
          false (detectedArea s) (isVisionStable s)
      else s
  end.

(** The state after a sequence of events, from the initial one. *)
Definition run (events : list Event) : State :=
  fold_left handle events initial.

End App.

(** ** The calibration wizard ([CalibrationWizard.tsx]) *)

Module CalibrationWizard.

#[local] Open Scope Z_scope.

(** The enum [Step]; [step] is a number, moved by [prev + 1] and
    [prev - 1]. *)
Definition INTRO : Z := 0.
Definition CLEAR_SURFACE : Z := 1.
Definition PLACE_HAND : Z := 2.
Definition CONFIRM : Z := 3.

Record Props := mkProps {
  currentDetectedArea : Z;
  isStable : bool
}.

Record State := mkState {
  step : Z;
  capturedArea : Z
}.

Definition initial : State := mkState INTRO 0.

Inductive Callback :=
| onComplete (area : Z)
| onCancel.

(** The buttons of the four panels and the closing cross. *)
Inductive Button :=
| BeginCalibration
| Back
| ConfirmClear
| CaptureArea
| Retake
| SaveAndExit
| Close.

Definition nextStep (s : State) : State := mkState (step s + 1) (capturedArea s).
Definition prevStep (s : State) : State := mkState (step s - 1) (capturedArea s).

(** A click: [None] when the panel of the button is not rendered in the
    current step or the button is disabled; otherwise the next state and
    the callback invoked, if any. *)
Definition click (p : Props) (s : State) (b : Button)
  : option (State * option Callback) :=
  match b with
  | BeginCalibration =>
      if step s =? INTRO then Some (nextStep s, None) else None
  | Back =>
      if (step s =? CLEAR_SURFACE) || (step s =? PLACE_HAND)
      then Some (prevStep s, None) else None
  | ConfirmClear =>
      if (step s =? CLEAR_SURFACE) && negb (100 <? currentDetectedArea p)
      then Some (nextStep s, None) else None
  | CaptureArea =>
      if (step s =? PLACE_HAND)
         && negb (negb (isStable p) || (currentDetectedArea p <? 200))
      then Some (nextStep (mkState (step s) (currentDetectedArea p)), None)
      else None
  | Retake =>
      if step s =? CONFIRM then Some (mkState PLACE_HAND (capturedArea s), None)
      else None
  | SaveAndExit =>
      if step s =? CONFIRM then Some (s, Some (onComplete (capturedArea s)))
      else None
  | Close => Some (s, Some onCancel)
  end.

(** A session: the clicks in order, each with the props of the render it
    happens in; a click that does nothing leaves the state as it is.  The
    result is the final state and the callbacks invoked, in order. *)
Definition session (clicks : list (Props * Button)) (s : State)
  : State * list Callback :=
  fold_left
    (fun acc pb =>
       match click (fst pb) (fst acc) (snd pb) with
       | Some (s', Some c) => (s', snd acc ++ [c])
       | Some (s', None) => (s', snd acc)
       | None => acc
       end)
    clicks (s, []).

End CalibrationWizard.

(** ** The first mask generator ([utils/imageProcessing.ts])

    The fixed-threshold version of the module: no histogram, the threshold
    is the constant 60, and the mask loop visits the interior of the frame
    only.  It shares the canvas model and [paint] with the segmenter. *)

Module FixedThreshold.

Definition luminance (r g b : float) : float :=
  (r * 0.299 + g * 0.587 + b * 0.114)%float.

(** [grayscale[i / 4] = ...]: the store into the [Uint8ClampedArray] rounds
    and clamps; out of range it is ignored. *)
Definition grayStep (data : list Z) (grayscale : list Z) (i : nat) : list Z :=
  let r := JS.Number_of (data !! i) in
  let g := JS.Number_of (data !! (i + 1)%nat) in
  let b := JS.Number_of (data !! (i + 2)%nat) in
  <[(i / 4)%nat := JS.ToUint8Clamp (luminance r g b)]> grayscale.

Definition grayPass (data : list Z) (numPixels : nat) : list Z :=
  fold_left (grayStep data) (by4 (length data)) (replicate numPixels 0).

Definition threshold : Z := 60.

Record Pass := mkPass {
  shadowPixelCount : Z;
  pixels : list Z
}.

Definition maskStep (grayscale : list Z) (width y : nat) (s : Pass) (x : nat)
  : Pass :=
  let idx := (y * width + x)%nat in
  if JS.lt_number (grayscale !! idx) threshold then
    mkPass (shadowPixelCount s + 1) (paint (pixels s) idx 0)
  else
    mkPass (shadowPixelCount s) (paint (pixels s) idx 255).

(** [for (x = 1; x < width - 1; x++)] and [for (y = 1; y < height - 1; y++)]:
    empty when the dimension is below 3. *)
Definition maskRow (grayscale : list Z) (width : nat) (s : Pass) (y : nat)
  : Pass :=
  fold_left (maskStep grayscale width y) (seq 1 (width - 2)) s.

Definition maskPass (grayscale : list Z) (width height : nat) (data : list Z)
  : Pass :=
  fold_left (maskRow grayscale width) (seq 1 (height - 2)) (mkPass 0 data).

(** The call returns the count and leaves the context holding the mask;
    [None] when [getImageData] raises. *)
Definition generateShadowMask (ctx : CanvasRenderingContext2D)
    (width height : nat) : option (Z * CanvasRenderingContext2D) :=
  match getImageData ctx width height with
  | None => None
  | Some data =>
      let grayscale := grayPass data (width * height) in
      let p := maskPass grayscale width height data in
      Some (shadowPixelCount p, putImageData ctx (pixels p))
  end.

End FixedThreshold.

(** ** Notions used by the proofs *)

(** *** Order of binary64 numbers

    A number that is not NaN, as a point of Z^3 ordered lexicographically. *)

Definition SFrank (x : spec_float) : option (Z * Z * Z) :=
  match x with
  | S754_nan => None
  | S754_infinity true => Some (-2, 0, 0)
  | S754_infinity false => Some (2, 0, 0)
  | S754_zero _ => Some (0, 0, 0)
  | S754_finite true m e => Some (-1, - e, Z.neg m)
  | S754_finite false m e => Some (1, e, Z.pos m)
  end.

Definition lex_lt (p q : Z * Z * Z) : Prop :=
  let '(a, b, c) := p in
  let '(a', b', c') := q in
  a < a' \/ (a = a' /\ (b < b' \/ (b = b' /\ c < c'))).

Definition rank (x : float) : option (Z * Z * Z) := SFrank (Prim2SF x).

(** *** The loops, iteration by iteration *)

(** The grayscale pass after its first [k] pixels. *)
Definition grayUpTo (data : list Z) (numPixels k : nat) : Pass1 :=
  fold_left (fun s j => grayStep data s (4 * j)%nat) (seq 0 k)
    (mkPass1 (replicate numPixels 0) (replicate 256 0)).

(** The sum of the bins. *)
Definition binTotal (hist : list Z) : Z := fold_right Z.add 0 hist.

(** What the Otsu loop holds when it reaches candidate [t]. *)
Definition best_so_far (hist : list Z) (total : Z) (t : nat) (st : OtsuState)
  : Prop :=
  ((forall j, (j < t)%nat -> ~ loop_candidate hist total j) /\
     varMax st = 0%float /\ threshold st = 0) \/
  (exists k, (k < t)%nat /\ threshold st = Z.of_nat k /\
     loop_candidate hist total k /\
     varMax st = loop_variance hist total k /\
     (forall j, (j < t)%nat -> loop_candidate hist total j ->
        (loop_variance hist total j <=? loop_variance hist total k)%float
        = true) /\
     (forall j, (j < k)%nat -> loop_candidate hist total j ->
        (loop_variance hist total j <? loop_variance hist total k)%float
        = true)).

Definition loop_state (hist : list Z) (total : Z) (t : nat) (st : OtsuState)
  : Prop :=
  wB st = weightBelow hist t /\ sumB st = sumBelow hist t /\
  best_so_far hist total t st.

(** The test of pixel [idx] in the mask loop, on the bytes the frame had on
    entry. *)
Definition shadowAt (data gs : list Z) (thr : Z) (idx : nat) : bool :=
  isShadowPixel thr (gs !! idx)
    (JS.Number_of (data !! (idx * 4)%nat))
    (JS.Number_of (data !! (idx * 4 + 1)%nat))
    (JS.Number_of (data !! (idx * 4 + 2)%nat)).

Definition grayAt (gs : list Z) (idx : nat) : Z := default 0 (gs !! idx).

(** The state of the mask loop after its first [k] pixels, in row-major
    order. *)
Fixpoint maskUpTo (data gs : list Z) (thr : Z) (w h k : nat) : Pass2 :=
  match k with
  | O => mkPass2 0 0 (Z.of_nat w) (Z.of_nat h) 0 0 data
  | S k' =>
      let s := maskUpTo data gs thr w h k' in
      let x := (k' mod w)%nat in
      let y := (k' / w)%nat in
      if shadowAt data gs thr k' then
        mkPass2 (shadowPixelCount s + 1)
                (intensitySum s + grayAt gs k')
                (if Z.of_nat x <? curMinX s then Z.of_nat x else curMinX s)
                (if Z.of_nat y <? curMinY s then Z.of_nat y else curMinY s)
                (if curMaxX s <? Z.of_nat x then Z.of_nat x else curMaxX s)
                (if curMaxY s <? Z.of_nat y then Z.of_nat y else curMaxY s)
                (paint (pixels s) k' 0)
      else
        mkPass2 (shadowPixelCount s) (intensitySum s)
                (curMinX s) (curMinY s) (curMaxX s) (curMaxY s)
                (paint (pixels s) k' 255)
  end.

(** The state of the mask loop when [generateShadowMask] leaves it. *)
Definition maskOf (data : list Z) (width height : nat) : Pass2 :=
  maskUpTo data (grayscale (grayPass data (width * height)))
    (finalThresholdOf data width height) width height (height * width).

(** Counter and running box of a state. *)
Definition boxOf (s : Pass2) : Z * Z * Z * Z * Z :=
  (shadowPixelCount s, curMinX s, curMinY s, curMaxX s, curMaxY s).

(** The bytes the loop writes for a pixel: black for shadow, white
    otherwise, full opacity. *)
Definition maskColour (shadow : bool) (c : nat) : Z :=
  if (c =? 3)%nat then 255 else if shadow then 0 else 255.

(** *** The saturation test on bytes, by enumeration *)

(** Every byte with its double. *)
Definition byteTable : list (Z * float) :=
  Eval vm_compute in
    map (fun n => (Z.of_nat n, JS.Number_of_int (Z.of_nat n))) (seq 0 256).

Definition max2_ok (p q : Z * float) : bool :=
  PrimFloat.Leibniz.eqb (JS.max2 (snd p) (snd q))
    (if fst p <? fst q then snd q else snd p).

Definition min2_ok (p q : Z * float) : bool :=
  PrimFloat.Leibniz.eqb (JS.min2 (snd p) (snd q))
    (if fst p <? fst q then snd p else snd q).

(** The comparison [getSaturation(r, g, b) < 60], from the largest and the
    smallest channel. *)
Definition satBelow60 (max min : float) : bool :=
  ((if (max =? 0)%float then 0 else (max - min) / max * 255) <? 60)%float.

Definition sat_ok (p q : Z * float) : bool :=
  if fst q <=? fst p then
    Bool.eqb (satBelow60 (snd p) (snd q)) (Qltb (spec_sat_of (fst p) (fst q)) 60)
  else true.

Definition all_pairs (ok : Z * float -> Z * float -> bool) : bool :=
  forallb (fun p => forallb (ok p) byteTable) byteTable.

(** *** Sums and counts over the pixels that pass a test *)

(** The sum of [g] over the indices below [k] that pass [P]. *)
Definition sumOver (P : nat -> bool) (g : nat -> Z) (k : nat) : Z :=
  fold_right Z.add 0 (map g (filter (fun j => P j = true) (seq 0 k))).

(** The number of indices below [k] that pass [P]. *)
Definition countBelow (P : nat -> bool) (k : nat) : Z :=
  Z.of_nat (length (filter (fun j => P j = true) (seq 0 k))).

(** The box of a state is the bounding box of the pixels below [k] that
    pass [shadow]: it contains them all, and each of its sides is the
    coordinate of one of them. *)
Definition tight_box (shadow : nat -> bool) (w k : nat) (s : Pass2) : Prop :=
  (forall j, (j < k)%nat -> shadow j = true ->
     curMinX s <= Z.of_nat (j mod w) <= curMaxX s /\
     curMinY s <= Z.of_nat (j / w) <= curMaxY s) /\
  (exists j, (j < k)%nat /\ shadow j = true /\ Z.of_nat (j mod w) = curMinX s) /\
  (exists j, (j < k)%nat /\ shadow j = true /\ Z.of_nat (j mod w) = curMaxX s) /\
  (exists j, (j < k)%nat /\ shadow j = true /\ Z.of_nat (j / w) = curMinY s) /\
  (exists j, (j < k)%nat /\ shadow j = true /\ Z.of_nat (j / w) = curMaxY s).

(** *** The saturation of a pixel of bytes, by enumeration *)

(** [getSaturation] from the largest and the smallest channel. *)
Definition saturationOf (max min : float) : float :=
  if (max =? 0)%float then 0%float else ((max - min) / max * 255)%float.

(** The saturation lies in [0, 255]; it is 0 exactly when the two channels
    are equal and 255 exactly when the smallest is 0 and the largest is
    not. *)
Definition sat_range_ok (p q : Z * float) : bool :=
  if fst q <=? fst p then
    let s := saturationOf (snd p) (snd q) in
    (0 <=? s)%float && (s <=? 255)%float
    && Bool.eqb (s =? 0)%float (fst p =? fst q)
    && Bool.eqb (s =? 255)%float ((fst q =? 0) && (0 <? fst p))
  else true.

(** *** The luminance of a pixel of bytes, by enumeration *)

(** The products of every byte with a weight of the luminance. *)
Definition weighted (c : float) : list float :=
  map (fun p => (snd p * c)%float) byteTable.

Definition redTable : list float := Eval vm_compute in weighted 0.299.
Definition greenTable : list float := Eval vm_compute in weighted 0.587.
Definition blueTable : list float := Eval vm_compute in weighted 0.114.

(** A test on every triple of a red, a green and a blue product. *)
Definition all_triples (ok : float -> float -> float -> bool) : bool :=
  forallb (fun x =>
    forallb (fun y => forallb (ok x y) blueTable) greenTable) redTable.

(** The sum of the three products lies in [0, 255.5). *)
Definition luminance_ok (x y z : float) : bool :=
  let s := (x + y + z)%float in
  (0 <=? s)%float && (s <? 255.5)%float.

(** The double of a byte is that byte, as an array index and when stored
    into a [Uint8ClampedArray]. *)
Definition level_ok (p : Z * float) : bool :=
  match JS.array_index (snd p) with
  | Some k => (k =? fst p) && (JS.ToUint8Clamp (snd p) =? fst p)
  | None => false
  end.

(** *** The binary64 luminance against the exact one, by enumeration *)

(** The bytes as machine integers. *)
Definition bytes63 : list int :=
  Eval vm_compute in map (fun n => Uint63.of_Z (Z.of_nat n)) (seq 0 256).

(** [j + 0.5] *)
Definition halfAbove (j : int) : float := (of_uint63 j + 0.5)%float.

(** [j - 0.5 <= s < j + 0.5] *)
Definition within (s : float) (j : int) : bool :=
  (if (j =? 0)%uint63 then true else (halfAbove (j - 1) <=? s)%float)
  && (s <? halfAbove j)%float.

(** The binary64 luminance lies within a half of the level the exact
    luminance rounds to, or, when the exact luminance is a tie, of the level
    below. *)
Definition gray_ok (ir ig ib : int) : bool :=
  let s := (of_uint63 ir * 0.299 + of_uint63 ig * 0.587
            + of_uint63 ib * 0.114)%float in
  let N := (299 * ir + 587 * ig + 114 * ib)%uint63 in
  let k := ((N + 500) / 1000)%uint63 in
  within s k || (((N mod 1000) =? 500)%uint63 && within s (k - 1)%uint63).

(** A test on every triple of bytes. *)
Definition all_bytes63 (ok : int -> int -> int -> bool) : bool :=
  forallb (fun ir =>
    forallb (fun ig => forallb (ok ir ig) bytes63) bytes63) bytes63.

(** [j + 0.5] is a positive number of value [(2 j + 1) / 2]; the value is
    counted in units of 2^-1074. *)
Definition half_ok (j : int) : bool :=
  match Prim2SF (halfAbove j) with
  | S754_finite false m e =>
      Z.pos m * 2 ^ (e + 1074) =? (2 * Uint63.to_Z j + 1) * 2 ^ 1073
  | _ => false
  end.

(** *** The loops of the first mask generator *)

(** The pixels its loops visit, in order. *)
Definition interior (width height : nat) : list nat :=
  flat_map (fun y => map (fun x => (y * width + x)%nat) (seq 1 (width - 2)))
    (seq 1 (height - 2)).

(** Its test on pixel [idx]. *)
Definition darkAt (grayscale : list Z) (idx : nat) : bool :=
  JS.lt_number (grayscale !! idx) FixedThreshold.threshold.

(** The body of its inner loop, on the pixel index. *)
Definition visit (grayscale : list Z) (s : FixedThreshold.Pass) (idx : nat)
  : FixedThreshold.Pass :=
  if darkAt grayscale idx then
    FixedThreshold.mkPass (FixedThreshold.shadowPixelCount s + 1)
      (paint (FixedThreshold.pixels s) idx 0)
  else
    FixedThreshold.mkPass (FixedThreshold.shadowPixelCount s)
      (paint (FixedThreshold.pixels s) idx 255).

(** The luminance it stores for pixel [idx]. *)
Definition storedGray (data : list Z) (idx : nat) : Z :=
  JS.ToUint8Clamp
    (FixedThreshold.luminance (JS.Number_of (data !! (idx * 4)%nat))
       (JS.Number_of (data !! (idx * 4 + 1)%nat))
       (JS.Number_of (data !! (idx * 4 + 2)%nat))).

(** *** Sessions of the calibration wizard *)

(** An area the wizard may hand over: one that was detected, at least 200,
    while the signal was stable, at a click on Capture Area. *)
Definition captured (clicks : list (CalibrationWizard.Props * CalibrationWizard.Button))
    (a : Z) : Prop :=
  200 <= a /\
  exists p, In (p, CalibrationWizard.CaptureArea) clicks /\
            CalibrationWizard.isStable p = true /\
            CalibrationWizard.currentDetectedArea p = a.

Definition wizard_invariant
    (clicks : list (CalibrationWizard.Props * CalibrationWizard.Button))
    (r : CalibrationWizard.State * list CalibrationWizard.Callback) : Prop :=
  CalibrationWizard.INTRO <= CalibrationWizard.step (fst r)
    <= CalibrationWizard.CONFIRM /\
  (CalibrationWizard.step (fst r) = CalibrationWizard.CONFIRM ->
   captured clicks (CalibrationWizard.capturedArea (fst r))) /\
  (forall a, In (CalibrationWizard.onComplete a) (snd r) -> captured clicks a).

(** * Proofs *)

(** ** Order of binary64 numbers, from the specification of the comparison *)

Lemma SFcompare_rank x y :
  match SFcompare x y with
  | None => SFrank x = None \/ SFrank y = None
  | Some c =>
      exists p q, SFrank x = Some p /\ SFrank y = Some q /\
        match c with
        | Lt => lex_lt p q
        | Eq => p = q
        | Gt => lex_lt q p
        end
  end.
Proof.
  destruct x as [[|]|[|]| |[|] m e], y as [[|]|[|]| |[|] m' e']; cbn;
    try (left; reflexivity); try (right; reflexivity);
    try (eexists _, _; split; [reflexivity|split; [reflexivity|]];
         cbn; try reflexivity; lia).
  - destruct (Z.compare_spec e e') as [->|H|H].
    + rewrite Pos.compare_cont_spec. cbn.
      destruct (Pos.compare_spec m m') as [->|H|H]; cbn;
        eexists _, _; (split; [reflexivity|split; [reflexivity|]]); cbn;
        try reflexivity; lia.
    + eexists _, _; (split; [reflexivity|split; [reflexivity|]]); cbn; lia.
    + eexists _, _; (split; [reflexivity|split; [reflexivity|]]); cbn; lia.
  - destruct (Z.compare_spec e e') as [->|H|H].
    + rewrite Pos.compare_cont_spec. cbn.
      destruct (Pos.compare_spec m m') as [->|H|H]; cbn;
        eexists _, _; (split; [reflexivity|split; [reflexivity|]]); cbn;
        try reflexivity; lia.
    + eexists _, _; (split; [reflexivity|split; [reflexivity|]]); cbn; lia.
    + eexists _, _; (split; [reflexivity|split; [reflexivity|]]); cbn; lia.
Qed.

Lemma lex_lt_irrefl p : ~ lex_lt p p.
Proof. destruct p as [[a b] c]. cbn. lia. Qed.

Lemma lex_lt_asym p q : lex_lt p q -> ~ lex_lt q p.
Proof. destruct p as [[a b] c], q as [[a' b'] c']. cbn. lia. Qed.

Lemma ltb_rank x y :
  (x <? y)%float = true <->
  exists p q, rank x = Some p /\ rank y = Some q /\ lex_lt p q.
Proof.
  rewrite ltb_spec. unfold SFltb, rank.
  pose proof (SFcompare_rank (Prim2SF x) (Prim2SF y)) as H.
  destruct (SFcompare (Prim2SF x) (Prim2SF y)) as [[| |]|].
  - destruct H as (p & q & Hp & Hq & Heq). split; [discriminate|].
    intros (p' & q' & Hp' & Hq' & Hlt).
    assert (p' = q') by congruence. subst p'.
    exfalso. eapply lex_lt_irrefl, Hlt.
  - destruct H as (p & q & Hp & Hq & Hlt). split; [|reflexivity]. intros _. eauto.
  - destruct H as (p & q & Hp & Hq & Hgt). split; [discriminate|].
    intros (p' & q' & Hp' & Hq' & Hlt).
    assert (p' = p) by congruence. assert (q' = q) by congruence. subst p' q'.
    exfalso. eapply lex_lt_asym; eassumption.
  - split; [discriminate|]. intros (p' & q' & Hp' & Hq' & _).
    destruct H as [H|H]; congruence.
Qed.

Lemma leb_rank x y :
  (x <=? y)%float = true <->
  exists p q, rank x = Some p /\ rank y = Some q /\ (lex_lt p q \/ p = q).
Proof.
  rewrite leb_spec. unfold SFleb, rank.
  pose proof (SFcompare_rank (Prim2SF x) (Prim2SF y)) as H.
  destruct (SFcompare (Prim2SF x) (Prim2SF y)) as [[| |]|].
  - destruct H as (p & q & Hp & Hq & Heq). split; [|reflexivity]. intros _. eauto 6.
  - destruct H as (p & q & Hp & Hq & Hlt). split; [|reflexivity]. intros _. eauto 6.
  - destruct H as (p & q & Hp & Hq & Hgt). split; [discriminate|].
    intros (p' & q' & Hp' & Hq' & Hle).
    assert (p' = p) by congruence. assert (q' = q) by congruence. subst p' q'.
    exfalso. destruct Hle as [Hlt|Heq].
    + eapply lex_lt_asym; eassumption.
    + subst q. eapply lex_lt_irrefl, Hgt.
  - split; [discriminate|]. intros (p' & q' & Hp' & Hq' & _).
    destruct H as [H|H]; congruence.
Qed.

Lemma lex_lt_trans p q r : lex_lt p q -> lex_lt q r -> lex_lt p r.
Proof. destruct p as [[? ?] ?], q as [[? ?] ?], r as [[? ?] ?]. cbn. lia. Qed.

Lemma lex_total p q : lex_lt p q \/ p = q \/ lex_lt q p.
Proof.
  destruct p as [[a b] c], q as [[a' b'] c']. cbn.
  destruct (Z.lt_total a a') as [?|[->|?]]; [lia| |lia].
  destruct (Z.lt_total b b') as [?|[->|?]]; [lia| |lia].
  destruct (Z.lt_total c c') as [?|[->|?]]; [lia| |lia].
  right; left; reflexivity.
Qed.

Lemma ltb_trans x y z :
  (x <? y)%float = true -> (y <? z)%float = true -> (x <? z)%float = true.
Proof.
  rewrite !ltb_rank. intros (p & q & Hp & Hq & H1) (q' & r & Hq' & Hr & H2).
  assert (q' = q) by congruence. subst q'. eauto 6 using lex_lt_trans.
Qed.

Lemma leb_ltb_trans x y z :
  (x <=? y)%float = true -> (y <? z)%float = true -> (x <? z)%float = true.
Proof.
  rewrite leb_rank, !ltb_rank.
  intros (p & q & Hp & Hq & H1) (q' & r & Hq' & Hr & H2).
  assert (q' = q) by congruence. subst q'.
  destruct H1 as [H1|H1]; [|subst q]; eauto 6 using lex_lt_trans.
Qed.

Lemma ltb_leb x y : (x <? y)%float = true -> (x <=? y)%float = true.
Proof. rewrite ltb_rank, leb_rank. intros (p & q & ? & ? & ?). eauto 6. Qed.

(** A number that compares with something is not NaN. *)
Lemma ltb_ranked_r x y : (x <? y)%float = true -> exists q, rank y = Some q.
Proof. rewrite ltb_rank. intros (p & q & ? & ? & ?). eauto. Qed.

Lemma leb_refl x p : rank x = Some p -> (x <=? x)%float = true.
Proof. intros H. apply leb_rank. eauto 6. Qed.

Lemma not_ltb_leb x y p q :
  rank x = Some p -> rank y = Some q ->
  (x <? y)%float = false -> (y <=? x)%float = true.
Proof.
  intros Hp Hq Hn. apply leb_rank. exists q, p. split; [assumption|split; [assumption|]].
  destruct (lex_total p q) as [H|[H|H]]; auto.
  exfalso. assert ((x <? y)%float = true) by (apply ltb_rank; eauto). congruence.
Qed.

(** ** Loops

    A loop [for (i = 0; i < n; i++)] keeps an invariant indexed by [i]. *)
Lemma for_loop_invariant {S : Type} (P : nat -> S -> Prop) (f : S -> nat -> S)
    (n : nat) (s0 : S) :
  P 0%nat s0 ->
  (forall i s, (i < n)%nat -> P i s -> P (Datatypes.S i) (f s i)) ->
  P n (fold_left f (seq 0 n) s0).
Proof.
  intros H0 Hstep. induction n as [|n IH].
  - exact H0.
  - rewrite seq_S, fold_left_app. cbn. apply Hstep; [lia|].
    apply IH. intros i s Hi. apply Hstep. lia.
Qed.

(** ** The mask loop, pixel by pixel *)

Section MaskLoop.
Variables (data gs : list Z) (thr : Z) (w h : nat).

Abbreviation upTo := (maskUpTo data gs thr w h).
Abbreviation shadow := (shadowAt data gs thr).

Lemma paint_length l idx v : length (paint l idx v) = length l.
Proof. unfold paint. rewrite !length_insert. reflexivity. Qed.

Lemma paint_lookup_ge l idx v i :
  (idx * 4 + 4 <= i)%nat -> paint l idx v !! i = l !! i.
Proof.
  intros Hi. unfold paint. rewrite !list_lookup_insert_ne by lia. reflexivity.
Qed.

Lemma paint_lookup_lt l idx v i :
  (i < idx * 4)%nat -> paint l idx v !! i = l !! i.
Proof.
  intros Hi. unfold paint. rewrite !list_lookup_insert_ne by lia. reflexivity.
Qed.

Lemma pixels_maskUpTo_length k : length (pixels (upTo k)) = length data.
Proof.
  induction k as [|k IH]; [reflexivity|].
  cbn [maskUpTo]. destruct (shadow k); cbn [pixels];
    rewrite paint_length; exact IH.
Qed.

(** Pixels not yet visited still hold the bytes of the frame. *)
Lemma pixels_maskUpTo_ahead k i :
  (k * 4 <= i)%nat -> pixels (upTo k) !! i = data !! i.
Proof.
  revert i. induction k as [|k IH]; intros i Hi; [reflexivity|].
  cbn [maskUpTo]. destruct (shadow k); cbn [pixels];
    rewrite paint_lookup_ge by lia; apply IH; lia.
Qed.

Lemma maskStep_maskUpTo y x :
  (x < w)%nat ->
  maskStep gs thr w y (upTo (y * w + x)) x = upTo (S (y * w + x)).
Proof.
  intros Hx. unfold maskStep. cbn [maskUpTo].
  rewrite !pixels_maskUpTo_ahead by lia.
  fold (shadowAt data gs thr (y * w + x)).
  replace ((y * w + x) mod w)%nat with x
    by (rewrite Nat.add_comm, Nat.Div0.mod_add, Nat.mod_small; lia).
  replace ((y * w + x) / w)%nat with y
    by (rewrite Nat.add_comm, Nat.div_add, Nat.div_small; lia).
  reflexivity.
Qed.

Lemma maskRow_maskUpTo y :
  maskRow gs thr w (upTo (y * w)) y = upTo (S y * w).
Proof.
  unfold maskRow. replace (S y * w)%nat with (y * w + w)%nat by lia.
  apply (for_loop_invariant
           (fun x s => s = upTo (y * w + x))
           (maskStep gs thr w y)).
  - f_equal. lia.
  - intros x s Hx ->. rewrite maskStep_maskUpTo by assumption.
    f_equal. lia.
Qed.

Lemma maskPass_maskUpTo : maskPass gs thr w h data = upTo (h * w).
Proof.
  unfold maskPass.
  apply (for_loop_invariant (fun y s => s = upTo (y * w))
           (maskRow gs thr w)).
  - reflexivity.
  - intros y s Hy ->. apply maskRow_maskUpTo.
Qed.

End MaskLoop.

(** ** The grayscale pass *)

Lemma fold_left_map {A B C} (f : A -> B -> A) (g : C -> B) l a :
  fold_left f (map g l) a = fold_left (fun a c => f a (g c)) l a.
Proof. revert a. induction l as [|c l IH]; intros a; cbn; [reflexivity|apply IH]. Qed.

Lemma fold_sum_acc {A} (g : A -> Z) l a :
  fold_left (fun a i => a + g i) l a = a + fold_left (fun a i => a + g i) l 0.
Proof.
  revert a. induction l as [|i l IH]; intros a; cbn; [lia|].
  rewrite (IH (a + g i)), (IH (0 + g i)). lia.
Qed.

Lemma weightBelow_shift x hist t :
  weightBelow (x :: hist) (S t) = x + weightBelow hist t.
Proof.
  unfold weightBelow. cbn [seq fold_left]. rewrite <- seq_shift, fold_left_map.
  rewrite fold_sum_acc. reflexivity.
Qed.

Lemma weightBelow_all hist t :
  (length hist <= t)%nat -> weightBelow hist t = binTotal hist.
Proof.
  revert t. induction hist as [|x hist IH]; intros t Ht.
  - clear Ht. induction t as [|t IHt]; [reflexivity|].
    unfold weightBelow in *. rewrite seq_S, fold_left_app, IHt. reflexivity.
  - destruct t as [|t]; [cbn in Ht; lia|].
    rewrite weightBelow_shift, IH by (cbn in Ht; lia). reflexivity.
Qed.

Lemma binTotal_alter hist j :
  binTotal (alter Z.succ j hist)
  = binTotal hist + (if (j <? length hist)%nat then 1 else 0).
Proof.
  revert j. induction hist as [|x hist IH]; intros j; [destruct j; reflexivity|].
  destruct j as [|j]; cbn [alter list_alter binTotal fold_right length].
  - cbn. unfold binTotal. lia.
  - fold (alter Z.succ j hist). fold (binTotal (alter Z.succ j hist)).
    fold (binTotal hist). rewrite IH.
    change (S j <? S (length hist))%nat with (j <? length hist)%nat. lia.
Qed.

Lemma bin_alter_nonneg hist j :
  (forall i, 0 <= bin hist i) -> forall i, 0 <= bin (alter Z.succ j hist) i.
Proof.
  intros H i. unfold bin in *. destruct (Nat.eq_dec j i) as [->|Hne].
  - rewrite list_lookup_alter_eq. specialize (H i).
    destruct (hist !! i); cbn in *; lia.
  - rewrite list_lookup_alter_ne by assumption. apply H.
Qed.

Lemma bump_length hist gray : length (bump hist gray) = length hist.
Proof.
  unfold bump. destruct (JS.array_index gray) as [k|]; [|reflexivity].
  destruct (k <? 256); [apply length_alter|reflexivity].
Qed.

Lemma bump_nonneg hist gray :
  (forall i, 0 <= bin hist i) -> forall i, 0 <= bin (bump hist gray) i.
Proof.
  intros H. unfold bump. destruct (JS.array_index gray) as [k|]; [|assumption].
  destruct (k <? 256); [apply bin_alter_nonneg|]; assumption.
Qed.

Lemma bump_total hist gray :
  binTotal hist <= binTotal (bump hist gray) <= binTotal hist + 1.
Proof.
  unfold bump. destruct (JS.array_index gray) as [k|]; [|lia].
  destruct (k <? 256); [|lia]. rewrite binTotal_alter.
  destruct (_ <? _)%nat; lia.
Qed.

Section GrayPass.
Variables (data : list Z) (numPixels : nat).

Abbreviation grayTo := (grayUpTo data numPixels).

Lemma grayPass_grayUpTo :
  grayPass data numPixels = grayTo ((length data + 3) / 4).
Proof. unfold grayPass, by4. apply fold_left_map. Qed.

Lemma bin_replicate_0 n i : bin (replicate n 0) i = 0.
Proof.
  unfold bin. destruct (replicate n 0 !! i) as [v|] eqn:E; [|reflexivity].
  apply lookup_replicate in E. cbn. tauto.
Qed.

Lemma binTotal_replicate_0 n : binTotal (replicate n 0) = 0.
Proof. induction n as [|n IH]; [reflexivity|]. cbn. exact IH. Qed.

(** The histogram always has its 256 bins, none negative, and counts at
    most one pixel per iteration. *)
Lemma histogram_grayUpTo k :
  length (histogram (grayTo k)) = 256%nat /\
  (forall i, 0 <= bin (histogram (grayTo k)) i) /\
  binTotal (histogram (grayTo k)) <= Z.of_nat k.
Proof.
  unfold grayUpTo.
  apply (for_loop_invariant
    (fun k s => length (histogram s) = 256%nat /\
                (forall i, 0 <= bin (histogram s) i) /\
                binTotal (histogram s) <= Z.of_nat k)).
  - cbn [histogram]. rewrite length_replicate, binTotal_replicate_0.
    split; [reflexivity|]. split; [|lia]. intros i. rewrite bin_replicate_0. lia.
  - intros i s Hi (Hl & Hn & Ht). cbn [grayStep histogram].
    rewrite bump_length. split; [assumption|]. split; [apply bump_nonneg, Hn|].
    pose proof (bump_total (histogram s)
      (perceptualGray (JS.Number_of (data !! (4 * i)%nat))
         (JS.Number_of (data !! (4 * i + 1)%nat))
         (JS.Number_of (data !! (4 * i + 2)%nat)))). lia.
Qed.

Lemma grayscale_grayUpTo_length k :
  length (grayscale (grayTo k)) = numPixels.
Proof.
  unfold grayUpTo.
  apply (for_loop_invariant (fun k s => length (grayscale s) = numPixels)).
  - cbn. apply length_replicate.
  - intros i s _ Hl. cbn [grayStep grayscale]. rewrite length_insert. exact Hl.
Qed.

(** Entry [j] of [grayscale] is the stored luminance of pixel [j] once the
    loop has passed it. *)
Lemma grayscale_grayUpTo k j :
  (j < k)%nat -> (j < numPixels)%nat ->
  grayscale (grayTo k) !! j
  = Some (JS.ToUint8Clamp
            (perceptualGray (JS.Number_of (data !! (j * 4)%nat))
               (JS.Number_of (data !! (j * 4 + 1)%nat))
               (JS.Number_of (data !! (j * 4 + 2)%nat)))).
Proof.
  intros Hjk Hjn. revert Hjk. unfold grayUpTo.
  apply (for_loop_invariant
    (fun k s => length (grayscale s) = numPixels /\
       ((j < k)%nat -> grayscale s !! j = Some _))).
  - split; [apply length_replicate|lia].
  - intros i s Hi (Hl & Hs). cbn [grayStep grayscale].
    rewrite length_insert. split; [assumption|]. intros Hji.
    replace (4 * i / 4)%nat with i by (rewrite Nat.mul_comm, Nat.div_mul; lia).
    destruct (Nat.eq_dec i j) as [->|Hne].
    + rewrite list_lookup_insert_eq by lia.
      replace (4 * j)%nat with (j * 4)%nat by lia. reflexivity.
    + rewrite list_lookup_insert_ne by assumption. apply Hs. lia.
Qed.

End GrayPass.

(** ** The Otsu loop *)

Section Otsu.
Variables (hist : list Z) (total : Z).
Hypothesis hist_nonneg : forall i, 0 <= bin hist i.
Hypothesis hist_total : weightBelow hist 256 <= total.

Lemma weightBelow_S t :
  weightBelow hist (S t) = weightBelow hist t + bin hist t.
Proof. unfold weightBelow. rewrite seq_S, fold_left_app. reflexivity. Qed.

Lemma sumBelow_S t :
  sumBelow hist (S t) = sumBelow hist t + Z.of_nat t * bin hist t.
Proof. unfold sumBelow. rewrite seq_S, fold_left_app. reflexivity. Qed.

Lemma weightBelow_nonneg t : 0 <= weightBelow hist t.
Proof.
  induction t as [|t IH]; [reflexivity|].
  rewrite weightBelow_S. pose proof (hist_nonneg t). lia.
Qed.

Lemma weightBelow_mono a b :
  (a <= b)%nat -> weightBelow hist a <= weightBelow hist b.
Proof.
  induction 1 as [|b Hab IH]; [lia|].
  rewrite weightBelow_S. pose proof (hist_nonneg b). lia.
Qed.

Abbreviation V := (loop_variance hist total).
Abbreviation cand := (loop_candidate hist total).

Lemma best_so_far_end t st :
  (forall j, (t <= j)%nat -> ~ cand j) ->
  best_so_far hist total t st -> loop_otsu hist total (threshold st).
Proof.
  intros Hrest [(Hnone & _ & Hth)|(k & Hk & Hth & Hc & _ & Hmax & Hfirst)].
  - left. split; [|assumption]. intros j.
    destruct (Nat.lt_ge_cases j t); auto.
  - right. exists k. repeat split; try assumption.
    + apply Hc.
    + apply Hc.
    + apply Hc.
    + apply Hc.
    + intros j Hj. destruct (Nat.lt_ge_cases j t); [auto|].
      exfalso. eapply Hrest; eassumption.
    + intros j Hj Hjk. auto.
Qed.

Lemma cand_ranked j : cand j -> exists p, rank (V j) = Some p.
Proof. intros (_ & _ & _ & H). eapply ltb_ranked_r, H. Qed.

Lemma otsuLoop_correct n : forall t st,
  (t + n = 256)%nat -> loop_state hist total t st ->
  loop_otsu hist total
    (otsuLoop hist total (weightedSum hist) (seq t n) st).
Proof.
  induction n as [|n IH]; intros t st Htn (HwB & HsB & Hbest).
  - cbn. apply (best_so_far_end t); [|assumption].
    intros j Hj (Hlt & _). lia.
  - cbn [seq otsuLoop].
    pose proof (weightBelow_S t) as HW. pose proof (sumBelow_S t) as HS.
    rewrite HwB, HsB, <- HW, <- HS.
    destruct (weightBelow hist (S t) =? 0) eqn:E0.
    { (* continue *)
      apply Z.eqb_eq in E0. apply IH; [lia|].
      pose proof (weightBelow_nonneg t). pose proof (hist_nonneg t).
      unfold loop_state; cbn [sumB wB varMax threshold]. split; [reflexivity|].
      split; [rewrite HS; replace (bin hist t) with 0 by lia; lia|].
      destruct Hbest as [(Hnone & Hv & Hth)|(k & Hk & Hth & Hc & Hv & Hmax & Hfirst)].
      - left. repeat split; try assumption. intros j Hj Hcj.
        destruct (Nat.eq_dec j t) as [->|].
        + destruct Hcj as (_ & Hnz & _). contradiction.
        + apply (Hnone j); [lia|assumption].
      - right. exists k. repeat split; try assumption; try lia; try apply Hc.
        intros j Hj Hcj. destruct (Nat.eq_dec j t) as [->|].
        + destruct Hcj as (_ & Hnz & _). contradiction.
        + apply Hmax; [lia|assumption]. }
    apply Z.eqb_neq in E0.
    destruct (total - weightBelow hist (S t) =? 0) eqn:EF.
    { (* break *)
      apply Z.eqb_eq in EF. apply (best_so_far_end t); [|assumption].
      intros j Hj (Hlt & _ & HwF & _).
      pose proof (weightBelow_mono (S t) (S j) ltac:(lia)).
      pose proof (weightBelow_mono (S j) 256 ltac:(lia)). lia. }
    apply Z.eqb_neq in EF.
    fold (V t).
    assert (forall vm th, best_so_far hist total t (mkOtsuState (sumB st) (wB st) vm th) ->
            (vm <? V t)%float = false ->
            best_so_far hist total (S t)
              (mkOtsuState (sumBelow hist (S t)) (weightBelow hist (S t)) vm th))
      as Hkeep.
    { intros vm th [(Hnone & Hv & Hth)|(k & Hk & Hth & Hc & Hv & Hmax & Hfirst)] Hlt;
        cbn [sumB wB varMax threshold] in *.
      - left. repeat split; try assumption. intros j Hj Hcj.
        destruct (Nat.eq_dec j t) as [->|]; [|apply (Hnone j); [lia|assumption]].
        destruct Hcj as (_ & _ & _ & Hpos). subst vm. congruence.
      - right. exists k. repeat split; try assumption; try lia; try apply Hc.
        intros j Hj Hcj. destruct (Nat.eq_dec j t) as [->|]; [|apply Hmax; [lia|assumption]].
        destruct (cand_ranked t Hcj) as [p Hp].
        destruct (cand_ranked k Hc) as [q Hq].
        subst vm. eapply not_ltb_leb; eassumption. }
    destruct (varMax st <? V t)%float eqn:Elt.
    + apply IH; [lia|]. split; [reflexivity|]. split; [reflexivity|].
      right. exists t. cbn [sumB wB varMax threshold].
      assert (cand t) as Hct.
      { repeat split; try assumption; [lia|].
        destruct Hbest as [(_ & Hv & _)|(k & _ & _ & Hc & Hv & _)].
        - rewrite <- Hv. assumption.
        - destruct Hc as (_ & _ & _ & Hpos). rewrite Hv in Elt.
          eapply ltb_trans; eassumption. }
      assert (forall j, (j < t)%nat -> cand j -> (V j <? V t)%float = true) as Hlt.
      { intros j Hj Hcj.
        destruct Hbest as [(Hnone & _ & _)|(k & _ & _ & Hc & Hv & Hmax & _)].
        - exfalso. eapply Hnone; eassumption.
        - rewrite Hv in Elt. eapply leb_ltb_trans; [|eassumption]. auto. }
      repeat split; try assumption; try lia; try apply Hct.
      intros j Hj Hcj. destruct (Nat.eq_dec j t) as [->|].
      * destruct (cand_ranked t Hcj) as [p Hp]. eapply leb_refl; eassumption.
      * apply ltb_leb, Hlt; [lia|assumption].
    + apply IH; [lia|]. split; [reflexivity|]. split; [reflexivity|].
      apply Hkeep; [|assumption]. destruct st; exact Hbest.
Qed.

(** The threshold of [computeOtsuThreshold] is the first maximizer of the
    computed variance over the candidates of the loop. *)
Lemma computeOtsuThreshold_correct :
  loop_otsu hist total (computeOtsuThreshold hist total).
Proof.
  unfold computeOtsuThreshold. apply otsuLoop_correct; [reflexivity|].
  split; [reflexivity|]. split; [reflexivity|].
  left. repeat split. intros j Hj. lia.
Qed.

End Otsu.

(** ** The summary *)

Lemma refineThreshold_range t : 30 <= refineThreshold t <= 80.
Proof. unfold refineThreshold. lia. Qed.

Lemma finalThresholdOf_range data width height :
  30 <= finalThresholdOf data width height <= 80.
Proof. unfold finalThresholdOf. cbv zeta. apply refineThreshold_range. Qed.

Section MaskSummary.
Variables (data gs : list Z) (thr : Z) (w h : nat).

Abbreviation upTo := (maskUpTo data gs thr w h).

Lemma shadowAt_dark idx :
  shadowAt data gs thr idx = true ->
  exists g, gs !! idx = Some g /\ g < thr.
Proof.
  unfold shadowAt, isShadowPixel. intros H. apply andb_true_iff in H as [H _].
  destruct (gs !! idx) as [g|]; [|discriminate].
  exists g. split; [reflexivity|]. apply Z.ltb_lt. exact H.
Qed.

Lemma position_in_frame k :
  (k < h * w)%nat -> (k mod w < w)%nat /\ (k / w < h)%nat.
Proof.
  intros Hk. assert (w <> 0)%nat by lia. split.
  - apply Nat.mod_upper_bound. assumption.
  - apply Nat.Div0.div_lt_upper_bound. lia.
Qed.

(** The counters and the running box after [k] pixels. *)
Lemma box_invariant k :
  (k <= h * w)%nat ->
  0 <= shadowPixelCount (upTo k) <= Z.of_nat k /\
  intensitySum (upTo k) <= shadowPixelCount (upTo k) * (thr - 1) /\
  ((shadowPixelCount (upTo k) = 0 /\
    curMinX (upTo k) = Z.of_nat w /\ curMinY (upTo k) = Z.of_nat h /\
    curMaxX (upTo k) = 0 /\ curMaxY (upTo k) = 0) \/
   (0 < shadowPixelCount (upTo k) /\
    0 <= curMinX (upTo k) <= curMaxX (upTo k) /\
    curMaxX (upTo k) < Z.of_nat w /\
    0 <= curMinY (upTo k) <= curMaxY (upTo k) /\
    curMaxY (upTo k) < Z.of_nat h)).
Proof.
  induction k as [|k IH]; intros Hk.
  - cbn. lia.
  - destruct IH as (Hc & Hs & Hb); [lia|].
    destruct (position_in_frame k) as [Hx Hy]; [lia|].
    cbn [maskUpTo]. generalize dependent (k mod w)%nat. intros x Hx.
    generalize dependent (k / w)%nat. intros y Hy.
    destruct (shadowAt data gs thr k) eqn:E;
      cbn [shadowPixelCount intensitySum curMinX curMinY curMaxX curMaxY].
    + destruct (shadowAt_dark k E) as (g & Hg & Hlt).
      unfold grayAt. rewrite Hg. change (default 0 (Some g)) with g.
      split; [lia|]. split; [lia|]. right.
      repeat match goal with |- context [if ?b then _ else _] =>
        let Eb := fresh in destruct b eqn:Eb;
        [apply Z.ltb_lt in Eb|apply Z.ltb_ge in Eb] end; lia.
    + split; [lia|]. split; [lia|]. exact Hb.
Qed.

End MaskSummary.

Lemma generateShadowMask_unfold data width height :
  generateShadowMask (mkContext (Some data)) width height
  = Some (summary (maskOf data width height),
          mkContext (Some (pixels (maskOf data width height)))).
Proof.
  unfold maskOf, generateShadowMask, finalThresholdOf, putImageData.
  cbn [getImageData surface]. cbv zeta. rewrite maskPass_maskUpTo. reflexivity.
Qed.

Lemma maskOf_box data width height :
  let p2 := maskOf data width height in
  let thr := finalThresholdOf data width height in
  0 <= shadowPixelCount p2 <= Z.of_nat (height * width) /\
  intensitySum p2 <= shadowPixelCount p2 * (thr - 1) /\
  ((shadowPixelCount p2 = 0 /\
    curMinX p2 = Z.of_nat width /\ curMinY p2 = Z.of_nat height /\
    curMaxX p2 = 0 /\ curMaxY p2 = 0) \/
   (0 < shadowPixelCount p2 /\
    0 <= curMinX p2 <= curMaxX p2 /\ curMaxX p2 < Z.of_nat width /\
    0 <= curMinY p2 <= curMaxY p2 /\ curMaxY p2 < Z.of_nat height)).
Proof.
  intros p2 thr. subst p2 thr. unfold maskOf.
  exact (box_invariant data (grayscale (grayPass data (width * height)))
           (finalThresholdOf data width height) width height
           (height * width) (le_n _)).
Qed.

(** C5.  For every frame of width * height >= 1 the summary satisfies
    0 <= pixelCount <= width * height; whenever pixelCount > 0 the bounding
    box lies within [0, width) x [0, height) with minX <= maxX and
    minY <= maxY; and whenever pixelCount = 0 the bounding box is all zeros
    and averageIntensity = 0.  (The frame buffer may be any byte list.) *)
Theorem summary_within_frame (data : list Z) (width height : nat) :
  (1 <= width * height)%nat ->
  exists d ctx',
    generateShadowMask (mkContext (Some data)) width height = Some (d, ctx') /\
    0 <= count d <= Z.of_nat (width * height) /\
    (0 < count d ->
       0 <= minX d <= maxX d /\ maxX d < Z.of_nat width /\
       0 <= minY d <= maxY d /\ maxY d < Z.of_nat height) /\
    (count d = 0 ->
       minX d = 0 /\ minY d = 0 /\ maxX d = 0 /\ maxY d = 0 /\
       avgIntensity d = 0%Q).
Proof.
  intros _. eexists _, _. split; [apply generateShadowMask_unfold|].
  pose proof (maskOf_box data width height) as (Hc & _ & Hb).
  unfold summary. cbn [count minX minY maxX maxY avgIntensity].
  split; [lia|]. split.
  - intros Hpos. apply Z.ltb_lt in Hpos as Hpos'. rewrite Hpos'.
    destruct Hb as [(H0 & _)|Hb]; lia.
  - intros H0. rewrite H0. change (0 <? 0) with false. cbv iota.
    repeat split; reflexivity.
Qed.

Lemma summary_within_frame_witness :
  (1 <= 1 * 1)%nat /\
  exists d ctx',
    generateShadowMask (mkContext (Some [10; 10; 10; 255])) 1 1 = Some (d, ctx') /\
    0 <= count d <= Z.of_nat (1 * 1) /\
    (0 < count d ->
       0 <= minX d <= maxX d /\ maxX d < Z.of_nat 1 /\
       0 <= minY d <= maxY d /\ maxY d < Z.of_nat 1) /\
    (count d = 0 ->
       minX d = 0 /\ minY d = 0 /\ maxX d = 0 /\ maxY d = 0 /\
       avgIntensity d = 0%Q).
Proof.
  split; [lia|]. apply (summary_within_frame [10; 10; 10; 255] 1 1). lia.
Defined.

(** C9.  Whenever the returned pixelCount is positive, averageIntensity is
    strictly below the clamped threshold, hence strictly below 80. *)
Theorem average_below_threshold (data : list Z) (width height : nat) :
  exists d ctx',
    generateShadowMask (mkContext (Some data)) width height = Some (d, ctx') /\
    (0 < count d ->
       (avgIntensity d < inject_Z (finalThresholdOf data width height))%Q /\
       finalThresholdOf data width height <= 80 /\
       (avgIntensity d < 80)%Q).
Proof.
  do 2 eexists. split; [apply generateShadowMask_unfold|].
  pose proof (maskOf_box data width height) as (Hc & Hs & _).
  pose proof (finalThresholdOf_range data width height) as Hr.
  generalize dependent (finalThresholdOf data width height). intros thr Hs Hr.
  generalize dependent (maskOf data width height). intros p2 Hc Hs.
  unfold summary. cbn [count avgIntensity].
  intros Hpos. apply Z.ltb_lt in Hpos as Hpos'. rewrite Hpos'.
  assert ((Qred (inject_Z (intensitySum p2) / inject_Z (shadowPixelCount p2))
           < inject_Z thr)%Q) as avgLt.
  { rewrite Qred_correct. apply Qlt_shift_div_r.
    - change 0%Q with (inject_Z 0). rewrite <- Zlt_Qlt. assumption.
    - rewrite <- inject_Z_mult, <- Zlt_Qlt. nia. }
  split; [assumption|]. split; [lia|].
  eapply Qlt_le_trans; [eassumption|].
  change 80%Q with (inject_Z 80). rewrite <- Zle_Qle. lia.
Qed.

(** ** What the mask loop leaves in the frame *)

Lemma paint_lookup_at l idx v c :
  (idx * 4 + 3 < length l)%nat -> (c < 4)%nat ->
  paint l idx v !! (idx * 4 + c)%nat
  = Some (if (c =? 3)%nat then 255 else v).
Proof.
  intros Hl Hc. unfold paint.
  destruct c as [|[|[|[|c]]]]; [| | |replace (idx * 4 + 3)%nat with (idx * 4 + 3)%nat by lia|lia];
    cbn [Nat.eqb];
    repeat first
      [ rewrite Nat.add_0_r
      | rewrite list_lookup_insert_eq by (rewrite ?length_insert; lia)
      | rewrite list_lookup_insert_ne by lia ];
    reflexivity.
Qed.

Section MaskResult.
Variables (data gs : list Z) (thr : Z) (w h : nat).

Abbreviation upTo := (maskUpTo data gs thr w h).
Abbreviation shadow := (shadowAt data gs thr).

(** A visited pixel that lies in the buffer is black when it passed the
    test and white when it did not, with full opacity. *)
Lemma pixels_maskUpTo_behind k j c :
  (j < k)%nat -> (c < 4)%nat -> (j * 4 + 3 < length data)%nat ->
  pixels (upTo k) !! (j * 4 + c)%nat = Some (maskColour (shadow j) c).
Proof.
  intros Hjk Hc Hl. induction k as [|k IH]; [lia|].
  cbn [maskUpTo]. destruct (Nat.eq_dec j k) as [->|Hne].
  - unfold maskColour.
    destruct (shadow k); cbn [pixels];
      rewrite paint_lookup_at by (rewrite ?pixels_maskUpTo_length; lia);
      reflexivity.
  - destruct (shadowAt data gs thr k); cbn [pixels];
      rewrite paint_lookup_lt by lia; apply IH; lia.
Qed.

(** The counter counts the pixels that passed the test. *)
Lemma count_maskUpTo k :
  shadowPixelCount (upTo k)
  = Z.of_nat (length (filter (fun j => shadow j = true) (seq 0 k))).
Proof.
  induction k as [|k IH]; [reflexivity|].
  rewrite seq_S, filter_app, length_app. change (0 + k)%nat with k.
  rewrite filter_cons, filter_nil. cbn [maskUpTo].
  destruct (shadowAt data gs thr k) eqn:E; cbn [shadowPixelCount];
    rewrite IH; destruct (decide _) as [Hd|Hd]; cbn [length];
    try congruence; lia.
Qed.

End MaskResult.

(** Counter and box depend on the frame only through the test. *)
Lemma boxOf_maskUpTo_ext data gs thr data' gs' thr' w h k :
  (forall j, (j < k)%nat ->
     shadowAt data gs thr j = shadowAt data' gs' thr' j) ->
  boxOf (maskUpTo data gs thr w h k) = boxOf (maskUpTo data' gs' thr' w h k).
Proof.
  induction k as [|k IH]; intros Hs; [reflexivity|].
  assert (boxOf (maskUpTo data gs thr w h k)
          = boxOf (maskUpTo data' gs' thr' w h k)) as E by (apply IH; auto).
  unfold boxOf in *. cbn [maskUpTo]. rewrite <- (Hs k) by lia.
  injection E as E1 E2 E3 E4 E5.
  destruct (shadowAt data gs thr k);
    cbn [shadowPixelCount curMinX curMinY curMaxX curMaxY];
    rewrite E1, E2, E3, E4, E5; reflexivity.
Qed.

Lemma intensitySum_maskUpTo_zero data gs thr w h k :
  (forall j, (j < k)%nat -> shadowAt data gs thr j = true -> grayAt gs j = 0) ->
  intensitySum (maskUpTo data gs thr w h k) = 0.
Proof.
  induction k as [|k IH]; intros Hz; [reflexivity|].
  cbn [maskUpTo]. destruct (shadowAt data gs thr k) eqn:E; cbn [intensitySum].
  - rewrite IH by auto. rewrite (Hz k) by (auto; lia). reflexivity.
  - apply IH. auto.
Qed.

(** When every pixel passes the test the box grows with the scan. *)
Lemma boxOf_maskUpTo_all data gs thr w h k :
  (0 < k)%nat -> (k <= h * w)%nat ->
  (forall j, (j < k)%nat -> shadowAt data gs thr j = true) ->
  boxOf (maskUpTo data gs thr w h k)
  = (Z.of_nat k, 0, 0, Z.of_nat (Nat.min k w) - 1, Z.of_nat ((k - 1) / w)).
Proof.
  induction k as [|k IH]; intros Hpos Hk Hs; [lia|].
  destruct (position_in_frame w h k) as [Hx Hy]; [lia|].
  assert (w <> 0)%nat as Hw by lia.
  unfold boxOf in *. cbn [maskUpTo]. rewrite Hs by lia.
  cbn [shadowPixelCount curMinX curMinY curMaxX curMaxY].
  replace (S k - 1)%nat with k by lia.
  destruct (Nat.eq_dec k 0%nat) as [->|Hk0].
  - cbn [maskUpTo shadowPixelCount curMinX curMinY curMaxX curMaxY].
    rewrite Nat.Div0.mod_0_l, Nat.Div0.div_0_l.
    replace (Nat.min 1 w) with 1%nat by lia.
    replace (Z.of_nat 0 <? Z.of_nat w) with true by (symmetry; apply Z.ltb_lt; lia).
    replace (Z.of_nat 0 <? Z.of_nat h) with true by (symmetry; apply Z.ltb_lt; lia).
    reflexivity.
  - injection (IH ltac:(lia) ltac:(lia) ltac:(intros; apply Hs; lia))
      as E1 E2 E3 E4 E5.
    rewrite E1, E2, E3, E4, E5.
    assert ((k - 1) / w <= k / w)%nat as Hdiv
      by (apply Nat.Div0.div_le_mono; lia).
    assert (k < w -> k mod w = k)%nat as Hsmall
      by (intros; apply Nat.mod_small; assumption).
    clear IH Hs E1 E2 E3 E4 E5.
    generalize dependent (k mod w)%nat. intros x Hx Hsmall.
    generalize dependent ((k - 1) / w)%nat. intros y' Hdiv.
    generalize dependent (k / w)%nat. intros y Hy Hdiv.
    repeat match goal with |- context [if ?b then _ else _] =>
      let Eb := fresh in destruct b eqn:Eb;
      [apply Z.ltb_lt in Eb|apply Z.ltb_ge in Eb] end;
      repeat (match goal with |- (_, _) = (_, _) => apply f_equal2 end);
      lia.
Qed.

(** ** The saturation test on bytes, by enumeration *)

Lemma byteTable_spec :
  byteTable
  = map (fun n => (Z.of_nat n, JS.Number_of_int (Z.of_nat n))) (seq 0 256).
Proof. vm_compute. reflexivity. Qed.

Lemma byte_in_table z : is_byte z -> In (z, JS.Number_of_int z) byteTable.
Proof.
  intros Hz. rewrite byteTable_spec. apply in_map_iff.
  exists (Z.to_nat z). unfold is_byte in Hz.
  rewrite Z2Nat.id by lia. split; [reflexivity|]. apply in_seq. lia.
Qed.

Lemma all_pairs_bytes ok a b :
  all_pairs ok = true -> is_byte a -> is_byte b ->
  ok (a, JS.Number_of_int a) (b, JS.Number_of_int b) = true.
Proof.
  unfold all_pairs. intros H Ha Hb.
  rewrite forallb_forall in H. specialize (H _ (byte_in_table a Ha)).
  rewrite forallb_forall in H. exact (H _ (byte_in_table b Hb)).
Qed.

Lemma max2_table : all_pairs max2_ok = true.
Proof. vm_compute. reflexivity. Qed.

Lemma min2_table : all_pairs min2_ok = true.
Proof. vm_compute. reflexivity. Qed.

Lemma sat_table : all_pairs sat_ok = true.
Proof. vm_compute. reflexivity. Qed.

Lemma max2_bytes a b :
  is_byte a -> is_byte b ->
  JS.max2 (JS.Number_of_int a) (JS.Number_of_int b)
  = JS.Number_of_int (Z.max a b).
Proof.
  intros Ha Hb. pose proof (all_pairs_bytes _ a b max2_table Ha Hb) as H.
  unfold max2_ok in H. cbn [fst snd] in H.
  apply FloatAxioms.Leibniz.eqb_spec in H. rewrite H.
  destruct (Z.ltb_spec a b); f_equal; lia.
Qed.

Lemma min2_bytes a b :
  is_byte a -> is_byte b ->
  JS.min2 (JS.Number_of_int a) (JS.Number_of_int b)
  = JS.Number_of_int (Z.min a b).
Proof.
  intros Ha Hb. pose proof (all_pairs_bytes _ a b min2_table Ha Hb) as H.
  unfold min2_ok in H. cbn [fst snd] in H.
  apply FloatAxioms.Leibniz.eqb_spec in H. rewrite H.
  destruct (Z.ltb_spec a b); f_equal; lia.
Qed.

(** On bytes the binary64 comparison of the saturation with 60 agrees with
    the exact one. *)
Lemma saturation_test_exact r g b :
  is_byte r -> is_byte g -> is_byte b ->
  (getSaturation (JS.Number_of_int r) (JS.Number_of_int g)
     (JS.Number_of_int b) <? 60)%float
  = Qltb (spec_sat r g b) 60.
Proof.
  intros Hr Hg Hb. unfold getSaturation, JS.Math_max, JS.Math_min.
  assert (is_byte (Z.max r g)) as Hmx by (unfold is_byte in *; lia).
  assert (is_byte (Z.min r g)) as Hmn by (unfold is_byte in *; lia).
  rewrite (max2_bytes r g), (max2_bytes (Z.max r g) b) by assumption.
  rewrite (min2_bytes r g), (min2_bytes (Z.min r g) b) by assumption.
  assert (is_byte (Z.max (Z.max r g) b)) as Hmx' by (unfold is_byte in *; lia).
  assert (is_byte (Z.min (Z.min r g) b)) as Hmn' by (unfold is_byte in *; lia).
  pose proof (all_pairs_bytes _ _ _ sat_table Hmx' Hmn') as H.
  unfold sat_ok in H. cbn [fst snd] in H.
  replace (Z.min (Z.min r g) b <=? Z.max (Z.max r g) b) with true in H
    by (symmetry; apply Z.leb_le; lia).
  apply eqb_prop in H. exact H.
Qed.

(** ** Well-formed frames *)

Section Frame.
Variables (data : list Z) (width height : nat).
Hypothesis frame : well_formed data width height.

Lemma frame_steps : ((length data + 3) / 4 = width * height)%nat.
Proof.
  destruct frame as [-> _].
  replace (4 * (width * height) + 3)%nat
    with (3 + (width * height) * 4)%nat by lia.
  rewrite Nat.div_add by lia. reflexivity.
Qed.

Lemma frame_lookup idx c :
  (idx < width * height)%nat -> (c < 4)%nat ->
  data !! (idx * 4 + c)%nat = Some (channel data idx c) /\
  is_byte (channel data idx c).
Proof.
  intros Hi Hc. destruct frame as [Hl Hb]. unfold channel.
  destruct (lookup_lt_is_Some_2 data (idx * 4 + c)%nat) as [v Hv]; [lia|].
  rewrite Hv. split; [reflexivity|].
  rewrite Forall_lookup in Hb. exact (Hb _ _ Hv).
Qed.

Lemma frame_gray idx :
  (idx < width * height)%nat ->
  grayscale (grayPass data (width * height)) !! idx
  = Some (spec_gray (channel data idx 0) (channel data idx 1)
            (channel data idx 2)).
Proof.
  intros Hi. rewrite grayPass_grayUpTo, frame_steps.
  rewrite grayscale_grayUpTo by assumption.
  destruct (frame_lookup idx 0) as [E0 _]; [assumption|lia|].
  destruct (frame_lookup idx 1) as [E1 _]; [assumption|lia|].
  destruct (frame_lookup idx 2) as [E2 _]; [assumption|lia|].
  rewrite Nat.add_0_r in E0. rewrite E0, E1, E2. reflexivity.
Qed.

(** On a well-formed frame the test the loop applies to a pixel is the
    test of the specification on the bytes of that pixel. *)
Lemma frame_shadowAt thr idx :
  (idx < width * height)%nat ->
  shadowAt data (grayscale (grayPass data (width * height))) thr idx
  = spec_isShadow thr (channel data idx 0) (channel data idx 1)
      (channel data idx 2).
Proof.
  intros Hi. unfold shadowAt, isShadowPixel, spec_isShadow.
  rewrite frame_gray by assumption.
  destruct (frame_lookup idx 0) as [E0 B0]; [assumption|lia|].
  destruct (frame_lookup idx 1) as [E1 B1]; [assumption|lia|].
  destruct (frame_lookup idx 2) as [E2 B2]; [assumption|lia|].
  rewrite Nat.add_0_r in E0. rewrite E0, E1, E2. cbn [JS.Number_of JS.lt_number].
  rewrite saturation_test_exact by assumption. reflexivity.
Qed.

Lemma frame_histogram :
  let hist := histogram (grayPass data (width * height)) in
  (forall i, 0 <= bin hist i) /\
  weightBelow hist 256 <= Z.of_nat (width * height).
Proof.
  intros hist. subst hist. rewrite grayPass_grayUpTo, frame_steps.
  destruct (histogram_grayUpTo data (width * height) (width * height))
    as (Hl & Hn & Ht).
  split; [assumption|]. rewrite weightBelow_all by lia. assumption.
Qed.

End Frame.

Lemma count_filter_ext (P Q : nat -> bool) k :
  (forall j, (j < k)%nat -> P j = Q j) ->
  length (filter (fun j => P j = true) (seq 0 k))
  = length (filter (fun j => Q j = true) (seq 0 k)).
Proof.
  induction k as [|k IH]; intros H; [reflexivity|].
  rewrite seq_S, !filter_app, !length_app, IH by (intros; apply H; lia).
  change (0 + k)%nat with k. rewrite !filter_cons, !filter_nil, (H k) by lia.
  reflexivity.
Qed.

Lemma Qred_zero_div x : Qred (inject_Z 0 / x) = 0%Q.
Proof.
  change 0%Q with (Qred 0). apply Qred_complete.
  unfold Qdiv. apply Qmult_0_l.
Qed.

Lemma summary_boxOf s c x0 y0 x1 y1 :
  boxOf s = (c, x0, y0, x1, y1) -> 0 < c ->
  summary s
  = mkShadowData c x0 y0 x1 y1 (Qred (inject_Z (intensitySum s) / inject_Z c)).
Proof.
  unfold boxOf, summary. intros E Hc. injection E as -> -> -> -> ->.
  apply Z.ltb_lt in Hc. rewrite Hc. reflexivity.
Qed.

Lemma spec_gray_black : spec_gray 0 0 0 = 0.
Proof. vm_compute. reflexivity. Qed.

Lemma spec_gray_white : spec_gray 255 255 255 = 255.
Proof. vm_compute. reflexivity. Qed.

Lemma spec_isShadow_black thr : 0 < thr -> spec_isShadow thr 0 0 0 = true.
Proof.
  intros H. unfold spec_isShadow. rewrite spec_gray_black.
  apply Z.ltb_lt in H. rewrite H. reflexivity.
Qed.

Lemma spec_isShadow_white thr : thr <= 255 -> spec_isShadow thr 255 255 255 = false.
Proof.
  intros H. unfold spec_isShadow. rewrite spec_gray_white.
  apply Z.ltb_ge in H. rewrite H. reflexivity.
Qed.

(** C6.  For every all-black frame with width * height >= 1 the summary
    has pixelCount = width * height, the bounding box
    (0, 0, width - 1, height - 1) and averageIntensity = 0. *)
Theorem all_black_frame (data : list Z) (width height : nat) :
  (1 <= width * height)%nat ->
  well_formed data width height ->
  (forall idx, (idx < width * height)%nat ->
     channel data idx 0 = 0 /\ channel data idx 1 = 0 /\
     channel data idx 2 = 0) ->
  exists ctx',
    generateShadowMask (mkContext (Some data)) width height
    = Some (mkShadowData (Z.of_nat (width * height)) 0 0
              (Z.of_nat width - 1) (Z.of_nat height - 1) 0,
            ctx').
Proof.
  intros Hn Hwf Hblack. eexists. rewrite generateShadowMask_unfold.
  do 2 f_equal. unfold maskOf.
  pose proof (finalThresholdOf_range data width height) as Hthr.
  set (thr := finalThresholdOf data width height) in *.
  set (gs := grayscale (grayPass data (width * height))).
  assert (forall j, (j < height * width)%nat -> shadowAt data gs thr j = true)
    as Hall.
  { intros j Hj. unfold gs. rewrite frame_shadowAt by (assumption || lia).
    destruct (Hblack j) as (-> & -> & ->); [lia|].
    apply spec_isShadow_black. lia. }
  assert (forall j, (j < height * width)%nat -> grayAt gs j = 0) as Hgray.
  { intros j Hj. unfold grayAt, gs. rewrite (frame_gray data width height) by (assumption || lia).
    destruct (Hblack j) as (-> & -> & ->); [lia|].
    rewrite spec_gray_black. reflexivity. }
  pose proof (boxOf_maskUpTo_all data gs thr width height (height * width)
                ltac:(lia) ltac:(lia) Hall) as Hbox.
  rewrite (summary_boxOf _ _ _ _ _ _ Hbox) by lia.
  rewrite intensitySum_maskUpTo_zero by auto.
  rewrite Qred_zero_div.
  assert (height <> 0 /\ width <> 0)%nat as [Hh Hw] by lia.
  replace (Nat.min (height * width) width) with width by nia.
  replace ((height * width - 1) / width)%nat with (height - 1)%nat.
  - f_equal; lia.
  - apply (Nat.div_unique _ _ _ (width - 1)); nia.
Qed.

Lemma all_black_frame_witness :
  let data := [0; 0; 0; 255; 0; 0; 0; 255] in
  well_formed data 2 1 /\
  exists ctx',
    generateShadowMask (mkContext (Some data)) 2 1
    = Some (mkShadowData (Z.of_nat (2 * 1)) 0 0
              (Z.of_nat 2 - 1) (Z.of_nat 1 - 1) 0,
            ctx').
Proof.
  intros data.
  assert (well_formed data 2 1) as Hwf.
  { split; [reflexivity|]. repeat constructor; unfold is_byte; lia. }
  split; [exact Hwf|].
  apply (all_black_frame data 2 1); [lia|exact Hwf|].
  intros [|[|idx]] Hidx; [repeat split..|lia].
Defined.

(** ** The gray level of a pixel *)

Lemma luminance_table : all_triples luminance_ok = true.
Proof. vm_compute. reflexivity. Qed.

Lemma level_table : forallb level_ok byteTable = true.
Proof. vm_compute. reflexivity. Qed.

Lemma weighted_tables :
  redTable = weighted 0.299 /\ greenTable = weighted 0.587 /\
  blueTable = weighted 0.114.
Proof. repeat split; vm_compute; reflexivity. Qed.

Lemma in_weighted c z :
  is_byte z -> In (JS.Number_of_int z * c)%float (weighted c).
Proof.
  intros Hz. unfold weighted. apply in_map_iff.
  exists (z, JS.Number_of_int z). split; [reflexivity|].
  apply byte_in_table. assumption.
Qed.

Lemma all_triples_bytes ok r g b :
  all_triples ok = true -> is_byte r -> is_byte g -> is_byte b ->
  ok (JS.Number_of_int r * 0.299)%float (JS.Number_of_int g * 0.587)%float
     (JS.Number_of_int b * 0.114)%float = true.
Proof.
  unfold all_triples. intros H Hr Hg Hb.
  destruct weighted_tables as (Er & Eg & Eb).
  rewrite forallb_forall in H.
  assert (In (JS.Number_of_int r * 0.299)%float redTable) as Ir
    by (rewrite Er; apply in_weighted; assumption).
  specialize (H _ Ir). rewrite forallb_forall in H.
  assert (In (JS.Number_of_int g * 0.587)%float greenTable) as Ig
    by (rewrite Eg; apply in_weighted; assumption).
  specialize (H _ Ig). rewrite forallb_forall in H.
  apply H. rewrite Eb. apply in_weighted. assumption.
Qed.

(** The binary64 luminance of a pixel of bytes lies in [0, 255.5). *)
Lemma luminance_range r g b :
  is_byte r -> is_byte g -> is_byte b ->
  let s := (JS.Number_of_int r * 0.299 + JS.Number_of_int g * 0.587
            + JS.Number_of_int b * 0.114)%float in
  (0 <=? s)%float = true /\ (s <? 255.5)%float = true.
Proof.
  intros Hr Hg Hb. cbv zeta.
  pose proof (all_triples_bytes _ r g b luminance_table Hr Hg Hb) as H.
  unfold luminance_ok in H. cbv zeta in H.
  apply andb_true_iff in H. exact H.
Qed.

Lemma Number_of_int_level k :
  is_byte k ->
  JS.array_index (JS.Number_of_int k) = Some k /\
  JS.ToUint8Clamp (JS.Number_of_int k) = k.
Proof.
  intros Hk. pose proof level_table as H. rewrite forallb_forall in H.
  specialize (H _ (byte_in_table k Hk)). unfold level_ok in H.
  cbn [fst snd] in H.
  destruct (JS.array_index (JS.Number_of_int k)) as [k'|]; [|discriminate].
  apply andb_true_iff in H as [H1 H2].
  apply Z.eqb_eq in H1, H2. subst k'. split; [reflexivity|assumption].
Qed.

(** *** [Math.round] below 255.5 *)

Lemma digits2_pos_bound m : Z.pos m < 2 ^ Z.pos (digits2_pos m).
Proof.
  induction m as [m IH|m IH|]; cbn [digits2_pos].
  - rewrite Pos2Z.inj_succ, Z.pow_succ_r by lia. lia.
  - rewrite Pos2Z.inj_succ, Z.pow_succ_r by lia. lia.
  - cbn. lia.
Qed.

(** The mantissa of a binary64 number has at most 53 bits. *)
Lemma finite_mantissa x s m e :
  Prim2SF x = S754_finite s m e -> Z.pos m < 2 ^ 53.
Proof.
  intros E. pose proof (Prim2SF_valid x) as H. rewrite E in H.
  unfold valid_binary, bounded, canonical_mantissa in H.
  apply andb_true_iff in H as [H _]. apply Z.eqb_eq in H.
  unfold fexp, emin, prec, emax in H.
  pose proof (digits2_pos_bound m) as Hd.
  assert (Z.pos (digits2_pos m) <= 53) as Hle by lia.
  eapply Z.lt_le_trans; [exact Hd|]. apply Z.pow_le_mono_r; lia.
Qed.

Lemma rank_zero : rank 0%float = Some (0, 0, 0).
Proof. reflexivity. Qed.

Lemma rank_255_5 : rank 255.5%float = Some (1, -45, 8989607068696576).
Proof. vm_compute. reflexivity. Qed.

(** A number of [0, 255.5) rounds to a byte, which is what the number
    denotes as an index and what a [Uint8ClampedArray] stores for it. *)
Lemma Math_round_level x :
  (0 <=? x)%float = true -> (x <? 255.5)%float = true ->
  exists k, is_byte k /\
    JS.array_index (JS.Math_round x) = Some k /\
    JS.ToUint8Clamp (JS.Math_round x) = k.
Proof.
  intros H0 H1.
  apply leb_rank in H0 as (p0 & q & Hp0 & Hq & Hle).
  apply ltb_rank in H1 as (q' & p1 & Hq' & Hp1 & Hlt).
  rewrite rank_zero in Hp0. rewrite rank_255_5 in Hp1.
  injection Hp0 as <-. injection Hp1 as <-.
  assert (q' = q) by congruence. subst q'. clear Hq'.
  unfold rank in Hq. unfold JS.Math_round.
  destruct (Prim2SF x) as [s| [] | |[] m e] eqn:E; cbn in Hq;
    try discriminate; injection Hq as <-;
    try (exfalso; cbn in Hle, Hlt;
         destruct Hle as [Hle|Hle]; [lia|discriminate]);
    try (exfalso; cbn in Hlt; lia).
  - (* a zero *)
    exists 0. split; [unfold is_byte; lia|].
    unfold JS.array_index, JS.ToUint8Clamp. rewrite E. split; reflexivity.
  - (* a positive number below 255.5 *)
    pose proof (finite_mantissa x _ _ _ E) as Hm.
    cbn in Hlt.
    assert (e <= -45) as He by lia.
    replace (0 <=? e) with false by (symmetry; apply Z.leb_gt; lia).
    cbn [andb]. rewrite andb_false_r.
    set (k := Z.shiftr (2 * Z.pos m + 2 ^ (- e)) (- e + 1)).
    assert (is_byte k) as Hk.
    { unfold k, is_byte. rewrite Z.shiftr_div_pow2 by lia.
      assert (0 < 2 ^ (- e)) as HD by (apply Z.pow_pos_nonneg; lia).
      replace (2 ^ (- e + 1)) with (2 * 2 ^ (- e))
        by (rewrite Z.pow_add_r by lia; lia).
      assert (2 * Z.pos m < 511 * 2 ^ (- e)) as Hv.
      { destruct (Z.eq_dec e (-45)) as [->|Hne].
        - change (2 ^ (- -45)) with 35184372088832. lia.
        - assert (2 ^ 46 <= 2 ^ (- e)) by (apply Z.pow_le_mono_r; lia).
          change (2 ^ 53) with 9007199254740992 in Hm.
          change (2 ^ 46) with 70368744177664 in *. lia. }
      split.
      - apply Z.div_pos; lia.
      - apply Z.lt_succ_r. apply Z.div_lt_upper_bound; lia. }
    exists k. split; [assumption|]. apply Number_of_int_level. assumption.
Qed.

(** The gray level of a pixel of bytes is a byte, the same in [grayscale]
    and as index of the histogram. *)
Lemma gray_level r g b :
  is_byte r -> is_byte g -> is_byte b ->
  is_byte (spec_gray r g b) /\
  JS.array_index
    (perceptualGray (JS.Number_of_int r) (JS.Number_of_int g)
       (JS.Number_of_int b))
  = Some (spec_gray r g b).
Proof.
  intros Hr Hg Hb.
  destruct (luminance_range r g b Hr Hg Hb) as [H0 H1].
  destruct (Math_round_level _ H0 H1) as (k & Hk & Ei & Ec).
  unfold spec_gray, perceptualGray. rewrite Ec, Ei.
  split; [assumption|reflexivity].
Qed.

(** *** The gray level against the exact luminance *)

Lemma gray_table : all_bytes63 gray_ok = true.
Proof. vm_compute. reflexivity. Qed.

Lemma half_table : forallb half_ok bytes63 = true.
Proof. vm_compute. reflexivity. Qed.

Lemma bytes63_spec :
  bytes63 = map (fun n => Uint63.of_Z (Z.of_nat n)) (seq 0 256).
Proof. vm_compute. reflexivity. Qed.

Lemma byte_in_bytes63 z : is_byte z -> In (Uint63.of_Z z) bytes63.
Proof.
  intros Hz. rewrite bytes63_spec. apply in_map_iff.
  exists (Z.to_nat z). unfold is_byte in Hz.
  rewrite Z2Nat.id by lia. split; [reflexivity|]. apply in_seq. lia.
Qed.

Lemma wB_value : Uint63.wB = 9223372036854775808.
Proof. reflexivity. Qed.

Lemma all_bytes63_bytes ok r g b :
  all_bytes63 ok = true -> is_byte r -> is_byte g -> is_byte b ->
  ok (Uint63.of_Z r) (Uint63.of_Z g) (Uint63.of_Z b) = true.
Proof.
  unfold all_bytes63. intros H Hr Hg Hb.
  rewrite forallb_forall in H.
  specialize (H _ (byte_in_bytes63 r Hr)). rewrite forallb_forall in H.
  specialize (H _ (byte_in_bytes63 g Hg)). rewrite forallb_forall in H.
  apply H. apply byte_in_bytes63. assumption.
Qed.

Lemma to_Z_of_byte z : is_byte z -> Uint63.to_Z (Uint63.of_Z z) = z.
Proof.
  intros Hz. rewrite Uint63.of_Z_spec. apply Z.mod_small.
  unfold is_byte in Hz. rewrite wB_value. lia.
Qed.

Lemma of_uint63_Number j : of_uint63 j = JS.Number_of_int (Uint63.to_Z j).
Proof.
  unfold JS.Number_of_int. rewrite <- FloatAxioms.of_uint63_spec.
  symmetry. apply SF2Prim_Prim2SF.
Qed.

Lemma digits2_pos_lower m : 2 ^ (Z.pos (digits2_pos m) - 1) <= Z.pos m.
Proof.
  induction m as [m IH|m IH|]; cbn [digits2_pos].
  - rewrite Pos2Z.inj_succ.
    replace (Z.succ (Z.pos (digits2_pos m)) - 1)
      with (Z.succ (Z.pos (digits2_pos m) - 1)) by lia.
    rewrite Z.pow_succ_r by lia. lia.
  - rewrite Pos2Z.inj_succ.
    replace (Z.succ (Z.pos (digits2_pos m)) - 1)
      with (Z.succ (Z.pos (digits2_pos m) - 1)) by lia.
    rewrite Z.pow_succ_r by lia. lia.
  - cbn. lia.
Qed.

(** A binary64 number is in canonical form: the exponent is at least -1074,
    the mantissa has at most 53 bits, and exactly 53 above the least
    exponent. *)
Lemma finite_canonical x s m e :
  Prim2SF x = S754_finite s m e ->
  -1074 <= e /\ Z.pos m < 2 ^ 53 /\ (-1074 < e -> 2 ^ 52 <= Z.pos m).
Proof.
  intros E. pose proof (Prim2SF_valid x) as H. rewrite E in H.
  unfold valid_binary, bounded, canonical_mantissa in H.
  apply andb_true_iff in H as [H _]. apply Z.eqb_eq in H.
  unfold fexp, emin, prec, emax in H.
  pose proof (digits2_pos_bound m) as Hu.
  pose proof (digits2_pos_lower m) as Hl.
  split; [lia|]. split.
  - eapply Z.lt_le_trans; [exact Hu|]. apply Z.pow_le_mono_r; lia.
  - intros He. replace (Z.pos (digits2_pos m)) with 53 in Hl by lia.
    exact Hl.
Qed.

(** The order of the ranks of two positive numbers is the order of their
    values. *)
Lemma units_lt m e m' e' :
  -1074 <= e -> Z.pos m < 2 ^ 53 -> (-1074 < e' -> 2 ^ 52 <= Z.pos m') ->
  lex_lt (1, e, Z.pos m) (1, e', Z.pos m') ->
  Z.pos m * 2 ^ (e + 1074) < Z.pos m' * 2 ^ (e' + 1074).
Proof.
  intros He Hm Hm' [Hlt|[_ [Hlt|[-> Hlt]]]]; [lia| |].
  - assert (0 < 2 ^ (e + 1074)) as HP by (apply Z.pow_pos_nonneg; lia).
    assert (2 * 2 ^ (e + 1074) <= 2 ^ (e' + 1074)) as HQ.
    { rewrite <- Z.pow_succ_r by lia. apply Z.pow_le_mono_r; lia. }
    specialize (Hm' ltac:(lia)).
    change (2 ^ 53) with (2 * 2 ^ 52) in Hm.
    assert (0 < 2 ^ 52) by reflexivity.
    nia.
  - assert (0 < 2 ^ (e' + 1074)) as HP by (apply Z.pow_pos_nonneg; lia).
    nia.
Qed.

Lemma half_units j :
  is_byte (Uint63.to_Z j) ->
  exists m e, Prim2SF (halfAbove j) = S754_finite false m e /\
    Z.pos m * 2 ^ (e + 1074) = (2 * Uint63.to_Z j + 1) * 2 ^ 1073.
Proof.
  intros Hj. pose proof half_table as H. rewrite forallb_forall in H.
  assert (In j bytes63) as Hin.
  { rewrite <- (Uint63.of_to_Z j). apply byte_in_bytes63. exact Hj. }
  specialize (H _ Hin). unfold half_ok in H.
  destruct (Prim2SF (halfAbove j)) as [| | |[] m e]; try discriminate.
  exists m, e. split; [reflexivity|]. apply Z.eqb_eq. exact H.
Qed.

(** [Math.round] of a number within a half of a level is that level. *)
Lemma Math_round_within x j :
  (0 <=? x)%float = true -> (x <? 255.5)%float = true ->
  is_byte (Uint63.to_Z j) -> within x j = true ->
  JS.ToUint8Clamp (JS.Math_round x) = Uint63.to_Z j.
Proof.
  intros H0 H1 Hj Hw.
  unfold within in Hw. apply andb_true_iff in Hw as [Hlo Hhi].
  apply leb_rank in H0 as (p0 & q & Hp0 & Hq & Hle).
  apply ltb_rank in H1 as (q' & p1 & Hq' & Hp1 & Hlt).
  rewrite rank_zero in Hp0. rewrite rank_255_5 in Hp1.
  injection Hp0 as <-. injection Hp1 as <-.
  assert (q' = q) by congruence. subst q'. clear Hq'.
  (* the upper bound, in units *)
  apply ltb_rank in Hhi as (q' & ph & Hq' & Hph & Hhi).
  assert (q' = q) by congruence. subst q'. clear Hq'.
  destruct (half_units j Hj) as (mh & eh & Eh & Uh).
  unfold rank in Hph. rewrite Eh in Hph. cbn in Hph. injection Hph as <-.
  (* the lower bound *)
  unfold rank in Hq. unfold JS.Math_round.
  destruct (Prim2SF x) as [s| [] | |[] m e] eqn:E; cbn in Hq;
    try discriminate; injection Hq as <-;
    try (exfalso; cbn in Hle, Hlt;
         destruct Hle as [Hle|Hle]; [lia|discriminate]);
    try (exfalso; cbn in Hlt; lia).
  - (* a zero *)
    unfold JS.ToUint8Clamp. rewrite E.
    destruct (j =? 0)%uint63 eqn:Ej.
    + apply Uint63.eqb_spec in Ej. subst j. reflexivity.
    + exfalso.
      assert (Uint63.to_Z j <> 0) as Hne.
      { intros Hz. rewrite <- (Uint63.of_to_Z j), Hz in Ej.
        vm_compute in Ej. discriminate. }
      assert (Uint63.to_Z (j - 1) = Uint63.to_Z j - 1) as Ej1.
      { rewrite Uint63.sub_spec. change (Uint63.to_Z 1) with 1.
        apply Z.mod_small. unfold is_byte in Hj.
        rewrite wB_value. lia. }
      assert (is_byte (Uint63.to_Z (j - 1))) as Hj1
        by (unfold is_byte in *; lia).
      destruct (half_units _ Hj1) as (ml & el & El & Ul).
      apply leb_rank in Hlo as (pl & q' & Hpl & Hq' & Hlo).
      unfold rank in Hpl, Hq'. rewrite El in Hpl. rewrite E in Hq'.
      cbn in Hpl, Hq'. injection Hpl as <-. injection Hq' as <-.
      cbn in Hlo. destruct Hlo as [Hlo|Hlo]; [lia|discriminate].
  - (* a positive number below 255.5 *)
    destruct (finite_canonical x _ _ _ E) as (He0 & Hm & Hn).
    cbn in Hlt.
    assert (e <= -45) as He by lia.
    replace (0 <=? e) with false by (symmetry; apply Z.leb_gt; lia).
    cbn [andb]. rewrite andb_false_r.
    set (k := Z.shiftr (2 * Z.pos m + 2 ^ (- e)) (- e + 1)).
    assert (0 < 2 ^ (- e)) as HD by (apply Z.pow_pos_nonneg; lia).
    assert (2 ^ (e + 1074) * 2 ^ (- e) = 2 * 2 ^ 1073) as HP.
    { rewrite <- Z.pow_add_r by lia. replace (e + 1074 + - e) with 1074 by lia.
      reflexivity. }
    assert (0 < 2 ^ 1073) as H1073 by (apply Z.pow_pos_nonneg; lia).
    (* 2 m < (2 j + 1) D *)
    assert (2 * Z.pos m < (2 * Uint63.to_Z j + 1) * 2 ^ (- e)) as Hup.
    { destruct (finite_canonical _ _ _ _ Eh) as (_ & _ & Hnh).
      pose proof (units_lt m e mh eh He0 Hm Hnh Hhi) as Hu.
      rewrite Uh in Hu.
      apply (Z.mul_lt_mono_pos_r (2 ^ (- e))) in Hu; [|exact HD].
      rewrite <- Z.mul_assoc, HP in Hu.
      apply (Z.mul_lt_mono_pos_r (2 ^ 1073)); [exact H1073|]. lia. }
    (* (2 j - 1) D <= 2 m *)
    assert ((2 * Uint63.to_Z j - 1) * 2 ^ (- e) <= 2 * Z.pos m) as Hdown.
    { destruct (j =? 0)%uint63 eqn:Ej.
      - apply Uint63.eqb_spec in Ej. subst j.
        change (Uint63.to_Z 0) with 0. lia.
      - assert (Uint63.to_Z j <> 0) as Hne.
        { intros Hz. rewrite <- (Uint63.of_to_Z j), Hz in Ej.
          vm_compute in Ej. discriminate. }
        assert (Uint63.to_Z (j - 1) = Uint63.to_Z j - 1) as Ej1.
        { rewrite Uint63.sub_spec. change (Uint63.to_Z 1) with 1.
          apply Z.mod_small. unfold is_byte in Hj.
          rewrite wB_value. lia. }
        assert (is_byte (Uint63.to_Z (j - 1))) as Hj1
          by (unfold is_byte in *; lia).
        destruct (half_units _ Hj1) as (ml & el & El & Ul).
        destruct (finite_canonical _ _ _ _ El) as (Hel & Hml & _).
        apply leb_rank in Hlo as (pl & q' & Hpl & Hq' & Hlo).
        unfold rank in Hpl, Hq'. rewrite El in Hpl. rewrite E in Hq'.
        cbn in Hpl, Hq'. injection Hpl as <-. injection Hq' as <-.
        assert (Z.pos ml * 2 ^ (el + 1074) <= Z.pos m * 2 ^ (e + 1074)) as Hu.
        { destruct Hlo as [Hlo|Hlo].
          - apply Z.lt_le_incl. apply units_lt; assumption.
          - injection Hlo as -> ->. lia. }
        rewrite Ul, Ej1 in Hu.
        apply (Z.mul_le_mono_pos_r _ _ (2 ^ (- e))) in Hu; [|exact HD].
        rewrite <- (Z.mul_assoc (Z.pos m)), HP in Hu.
        apply (Z.mul_le_mono_pos_r _ _ (2 ^ 1073)); [exact H1073|]. lia. }
    assert (k = Uint63.to_Z j) as Hk.
    { unfold k. rewrite Z.shiftr_div_pow2 by lia.
      replace (2 ^ (- e + 1)) with (2 * 2 ^ (- e))
        by (rewrite Z.pow_add_r by lia; lia).
      symmetry. apply Z.div_unique with
        (r := 2 * Z.pos m + 2 ^ (- e) - 2 * 2 ^ (- e) * Uint63.to_Z j).
      - left. lia.
      - lia. }
    rewrite Hk. apply Number_of_int_level. exact Hj.
Qed.

Lemma exact_luminance_63 r g b :
  is_byte r -> is_byte g -> is_byte b ->
  Uint63.to_Z (299 * Uint63.of_Z r + 587 * Uint63.of_Z g
               + 114 * Uint63.of_Z b)%uint63
  = exact_luminance r g b.
Proof.
  intros Hr Hg Hb. unfold exact_luminance, is_byte in *.
  rewrite !Uint63.add_spec, !Uint63.mul_spec, !to_Z_of_byte
    by (unfold is_byte; lia).
  change (Uint63.to_Z 299) with 299. change (Uint63.to_Z 587) with 587.
  change (Uint63.to_Z 114) with 114. rewrite wB_value.
  rewrite (Z.mod_small (299 * r)), (Z.mod_small (587 * g)),
    (Z.mod_small (114 * b)) by lia.
  rewrite (Z.mod_small (299 * r + 587 * g)) by lia.
  apply Z.mod_small. lia.
Qed.

(** The gray level of the code against the exact luminance: the level the
    exact luminance rounds to, except that an exact tie (a luminance of
    k + 0.5) may come out a level lower, the binary64 sum of the three
    rounded products being below the tie. *)
Lemma gray_nearest r g b :
  is_byte r -> is_byte g -> is_byte b ->
  spec_gray r g b = rounded_luminance r g b \/
  (exact_luminance r g b mod 1000 = 500 /\
   spec_gray r g b = rounded_luminance r g b - 1).
Proof.
  intros Hr Hg Hb.
  destruct (luminance_range r g b Hr Hg Hb) as [H0 H1]. cbv zeta in H0, H1.
  pose proof (all_bytes63_bytes _ r g b gray_table Hr Hg Hb) as H.
  unfold gray_ok in H. cbv zeta in H.
  rewrite !of_uint63_Number, !to_Z_of_byte in H by assumption.
  pose proof (exact_luminance_63 r g b Hr Hg Hb) as EN.
  set (N := (299 * Uint63.of_Z r + 587 * Uint63.of_Z g
             + 114 * Uint63.of_Z b)%uint63) in *.
  set (s := (JS.Number_of_int r * 0.299 + JS.Number_of_int g * 0.587
             + JS.Number_of_int b * 0.114)%float) in *.
  assert (0 <= exact_luminance r g b <= 255000) as HN
    by (unfold exact_luminance, is_byte in *; lia).
  assert (Uint63.to_Z ((N + 500) / 1000)%uint63 = rounded_luminance r g b)
    as Ek.
  { rewrite Uint63.div_spec, Uint63.add_spec, EN.
    change (Uint63.to_Z 500) with 500. change (Uint63.to_Z 1000) with 1000.
    rewrite wB_value, Z.mod_small by lia. reflexivity. }
  assert (0 <= rounded_luminance r g b <= 255) as Hk.
  { unfold rounded_luminance. split.
    - apply Z.div_pos; lia.
    - apply Z.lt_succ_r. apply Z.div_lt_upper_bound; lia. }
  unfold spec_gray, perceptualGray. fold s.
  apply orb_true_iff in H as [H|H].
  - left. rewrite <- Ek. apply Math_round_within; try assumption.
    rewrite Ek. exact Hk.
  - right. apply andb_true_iff in H as [Ht H].
    apply Uint63.eqb_spec in Ht. apply (f_equal Uint63.to_Z) in Ht.
    rewrite Uint63.mod_spec, EN in Ht.
    change (Uint63.to_Z 500) with 500 in Ht.
    change (Uint63.to_Z 1000) with 1000 in Ht.
    split; [exact Ht|].
    assert (1 <= rounded_luminance r g b) as Hk1.
    { unfold rounded_luminance. apply Z.div_le_lower_bound; [lia|].
      pose proof (Z.mod_le (exact_luminance r g b) 1000 ltac:(lia) ltac:(lia)).
      lia. }
    assert (Uint63.to_Z ((N + 500) / 1000 - 1)%uint63
            = rounded_luminance r g b - 1) as Ek1.
    { rewrite Uint63.sub_spec, Ek. change (Uint63.to_Z 1) with 1.
      rewrite wB_value. apply Z.mod_small. lia. }
    rewrite <- Ek1. apply Math_round_within; try assumption.
    rewrite Ek1. unfold is_byte. lia.
Qed.

(** The code's level is a nearest integer to the exact luminance. *)
Lemma gray_within_half r g b :
  is_byte r -> is_byte g -> is_byte b ->
  Z.abs (1000 * spec_gray r g b - exact_luminance r g b) <= 500.
Proof.
  intros Hr Hg Hb.
  assert (0 <= exact_luminance r g b)
    by (unfold exact_luminance, is_byte in *; lia).
  pose proof (Z.div_mod (exact_luminance r g b + 500) 1000 ltac:(lia)) as Hd.
  pose proof (Z.mod_pos_bound (exact_luminance r g b + 500) 1000 ltac:(lia)).
  destruct (gray_nearest r g b Hr Hg Hb) as [E|[Ht E]]; rewrite E;
    unfold rounded_luminance.
  - lia.
  - pose proof (Z.div_mod (exact_luminance r g b) 1000 ltac:(lia)) as Hd'.
    assert ((exact_luminance r g b + 500) / 1000
            = exact_luminance r g b / 1000 + 1) as ->.
    { symmetry. apply Z.div_unique with (r := 0); lia. }
    lia.
Qed.

(** C3, as the code has it.  For every pixel of every frame the segmenter
    classifies the pixel as shadow iff gray < clampedThreshold and
    (sat < 60 or gray < 30), with sat = 255 * (max - min) / max (0 when
    max = 0) and gray the level stored in [grayscale]: the pixels so
    classified are the ones counted, and they are the black pixels of the
    mask, the others being white.  The stored level is the binary64 value
    of Math.round(0.299 R + 0.587 G + 0.114 B): it is the exact luminance
    rounded to the nearest integer, except that an exact luminance of
    k + 0.5 may give k instead of k + 1. *)
Theorem pixel_classification (data : list Z) (width height : nat) :
  well_formed data width height ->
  let thr := finalThresholdOf data width height in
  let gray idx :=
    spec_gray (channel data idx 0) (channel data idx 1) (channel data idx 2) in
  let sat idx :=
    spec_sat (channel data idx 0) (channel data idx 1) (channel data idx 2) in
  let shadow idx :=
    (gray idx <? thr) && (Qltb (sat idx) 60 || (gray idx <? 30)) in
  let luminance idx :=
    exact_luminance (channel data idx 0) (channel data idx 1)
      (channel data idx 2) in
  exists d mask,
    generateShadowMask (mkContext (Some data)) width height
    = Some (d, mkContext (Some mask)) /\
    count d
    = Z.of_nat (length (filter (fun idx => shadow idx = true)
                          (seq 0 (width * height)))) /\
    (forall idx c, (idx < width * height)%nat -> (c < 4)%nat ->
       mask !! (idx * 4 + c)%nat = Some (maskColour (shadow idx) c)) /\
    (forall idx, (idx < width * height)%nat ->
       grayscale (grayPass data (width * height)) !! idx = Some (gray idx) /\
       (gray idx = (luminance idx + 500) / 1000 \/
        (luminance idx mod 1000 = 500 /\
         gray idx = (luminance idx + 500) / 1000 - 1))).
Proof.
  intros Hwf thr gray sat shadow luminance. do 2 eexists.
  split; [apply generateShadowMask_unfold|].
  unfold maskOf. fold thr.
  set (gs := grayscale (grayPass data (width * height))).
  assert (forall j, (j < width * height)%nat ->
            shadowAt data gs thr j = shadow j) as Hs.
  { intros j Hj. apply frame_shadowAt; assumption. }
  split; [|split].
  - unfold summary. cbn [count]. rewrite count_maskUpTo.
    replace (height * width)%nat with (width * height)%nat by lia.
    f_equal. apply count_filter_ext. exact Hs.
  - intros idx c Hi Hc. rewrite pixels_maskUpTo_behind.
    + rewrite Hs by assumption. reflexivity.
    + lia.
    + assumption.
    + destruct Hwf as [-> _]. lia.
  - intros idx Hi. split; [apply frame_gray; assumption|].
    destruct (frame_lookup data width height Hwf idx 0) as [_ B0];
      [assumption|lia|].
    destruct (frame_lookup data width height Hwf idx 1) as [_ B1];
      [assumption|lia|].
    destruct (frame_lookup data width height Hwf idx 2) as [_ B2];
      [assumption|lia|].
    exact (gray_nearest _ _ _ B0 B1 B2).
Qed.

Lemma pixel_classification_witness :
  let data := [10; 10; 10; 255; 200; 40; 40; 255] in
  well_formed data 2 1 /\
  exists d mask,
    generateShadowMask (mkContext (Some data)) 2 1
    = Some (d, mkContext (Some mask)) /\
    count d = 1 /\ mask = [0; 0; 0; 255; 255; 255; 255; 255].
Proof.
  intros data.
  assert (well_formed data 2 1) as Hwf.
  { split; [reflexivity|]. repeat constructor; unfold is_byte; lia. }
  split; [exact Hwf|].
  destruct (pixel_classification data 2 1 Hwf) as (d & mask & E & Hc & Hm).
  exists d, mask. split; [exact E|].
  vm_compute in E. injection E as <- <-. split; reflexivity.
Defined.

(** C3 as stated fails on a tie of the luminance.  In the frame of the three
    pixels (40, 52, 44), (48, 48, 48) and (200, 200, 200) the threshold is
    48.  The exact luminance of (40, 52, 44) is 47.5, which rounds to 48, and
    48 is not below the threshold: the test as stated rejects the pixel.
    The segmenter stores 47 for it, the binary64 sum of the three rounded
    products being below 47.5, counts it as shadow and paints it black. *)
Lemma luminance_tie_counted :
  let data := [40; 52; 44; 255; 48; 48; 48; 255; 200; 200; 200; 255] in
  well_formed data 3 1 /\
  finalThresholdOf data 3 1 = 48 /\
  exact_luminance 40 52 44 = 47500 /\
  rounded_luminance 40 52 44 = 48 /\
  exact_isShadow 48 40 52 44 = false /\
  spec_gray 40 52 44 = 47 /\
  exists d mask,
    generateShadowMask (mkContext (Some data)) 3 1
    = Some (d, mkContext (Some mask)) /\
    count d = 1 /\
    mask = [0; 0; 0; 255; 255; 255; 255; 255; 255; 255; 255; 255].
Proof.
  intros data. split.
  { split; [reflexivity|]. repeat constructor; unfold is_byte; lia. }
  split; [vm_compute; reflexivity|].
  split; [reflexivity|]. split; [reflexivity|].
  split; [vm_compute; reflexivity|]. split; [vm_compute; reflexivity|].
  do 2 eexists. split; [vm_compute; reflexivity|]. split; reflexivity.
Qed.

(** ** Running the segmenter again on the canvas it has painted *)

Section SecondRun.
Variables (data : list Z) (width height : nat).
Hypothesis frame : well_formed data width height.

Abbreviation n := (width * height)%nat.
Abbreviation thr1 := (finalThresholdOf data width height).
Abbreviation gs1 := (grayscale (grayPass data n)).
Abbreviation shadow1 := (shadowAt data gs1 thr1).
Abbreviation mask := (pixels (maskOf data width height)).

Lemma mask_length : length mask = (4 * n)%nat.
Proof.
  unfold maskOf. rewrite pixels_maskUpTo_length. apply frame.
Qed.

Lemma mask_lookup idx c :
  (idx < n)%nat -> (c < 4)%nat ->
  mask !! (idx * 4 + c)%nat = Some (maskColour (shadow1 idx) c).
Proof.
  intros Hi Hc. unfold maskOf. apply pixels_maskUpTo_behind; [lia|lia|].
  destruct frame as [-> _]. lia.
Qed.

Lemma mask_channel idx c :
  (idx < n)%nat -> (c < 3)%nat ->
  channel mask idx c = if shadow1 idx then 0 else 255.
Proof.
  intros Hi Hc. unfold channel. rewrite mask_lookup by lia.
  unfold maskColour. destruct c as [|[|[|c]]]; try lia; reflexivity.
Qed.

Lemma mask_well_formed : well_formed mask width height.
Proof.
  split; [apply mask_length|]. apply Forall_lookup. intros i v Hv.
  assert (i < 4 * n)%nat as Hi
    by (rewrite <- mask_length; eapply lookup_lt_Some; eassumption).
  rewrite (Nat.div_mod_eq i 4), (Nat.mul_comm 4) in Hv.
  rewrite mask_lookup in Hv.
  - injection Hv as <-. unfold maskColour, is_byte.
    repeat case_match; lia.
  - apply Nat.Div0.div_lt_upper_bound. lia.
  - apply Nat.mod_upper_bound. lia.
Qed.

Abbreviation thr2 := (finalThresholdOf mask width height).
Abbreviation gs2 := (grayscale (grayPass mask n)).

(** The second run classifies the mask as the first run classified the
    frame. *)
Lemma second_run_shadowAt idx :
  (idx < n)%nat -> shadowAt mask gs2 thr2 idx = shadow1 idx.
Proof.
  intros Hi. rewrite (frame_shadowAt _ _ _ mask_well_formed) by assumption.
  rewrite !mask_channel by lia.
  pose proof (finalThresholdOf_range mask width height).
  destruct (shadow1 idx).
  - apply spec_isShadow_black. lia.
  - apply spec_isShadow_white. lia.
Qed.

Lemma second_run_grayAt idx :
  (idx < n)%nat -> shadowAt mask gs2 thr2 idx = true -> grayAt gs2 idx = 0.
Proof.
  intros Hi Hs. rewrite second_run_shadowAt in Hs by assumption.
  unfold grayAt. rewrite (frame_gray _ _ _ mask_well_formed) by assumption.
  rewrite !mask_channel by lia. rewrite Hs. rewrite spec_gray_black.
  reflexivity.
Qed.

Lemma second_run_mask : pixels (maskOf mask width height) = mask.
Proof.
  apply list_eq. intros i.
  destruct (Nat.lt_ge_cases i (4 * n)) as [Hi|Hi].
  - rewrite (Nat.div_mod_eq i 4), (Nat.mul_comm 4).
    assert (i / 4 < n)%nat by (apply Nat.Div0.div_lt_upper_bound; lia).
    assert (i mod 4 < 4)%nat by (apply Nat.mod_upper_bound; lia).
    rewrite mask_lookup by assumption.
    unfold maskOf at 1. rewrite pixels_maskUpTo_behind.
    + rewrite second_run_shadowAt by assumption. reflexivity.
    + lia.
    + assumption.
    + rewrite mask_length. lia.
  - rewrite !lookup_ge_None_2; [reflexivity| |].
    + rewrite mask_length. lia.
    + unfold maskOf at 1. rewrite pixels_maskUpTo_length, mask_length. lia.
Qed.

Lemma second_run_box :
  boxOf (maskOf mask width height) = boxOf (maskOf data width height).
Proof.
  unfold maskOf at 1 3. apply boxOf_maskUpTo_ext.
  intros j Hj. apply second_run_shadowAt. lia.
Qed.

Lemma second_run_sum : intensitySum (maskOf mask width height) = 0.
Proof.
  unfold maskOf at 1. apply intensitySum_maskUpTo_zero.
  intros j Hj. apply second_run_grayAt. lia.
Qed.

End SecondRun.

(** C8, as the code has it.  On a well-formed frame a run leaves the canvas
    holding its mask, and a second run on that canvas returns the same
    pixelCount and bounding box, leaves the canvas as it found it, and
    returns averageIntensity = 0. *)
Theorem second_run_summary (data : list Z) (width height : nat) :
  well_formed data width height ->
  exists d1 mask d2,
    generateShadowMask (mkContext (Some data)) width height
    = Some (d1, mkContext (Some mask)) /\
    generateShadowMask (mkContext (Some mask)) width height
    = Some (d2, mkContext (Some mask)) /\
    count d2 = count d1 /\
    minX d2 = minX d1 /\ minY d2 = minY d1 /\
    maxX d2 = maxX d1 /\ maxY d2 = maxY d1 /\
    avgIntensity d2 = 0%Q.
Proof.
  intros Hwf. do 3 eexists.
  split; [apply generateShadowMask_unfold|].
  split.
  { rewrite generateShadowMask_unfold.
    rewrite (second_run_mask data width height Hwf). reflexivity. }
  pose proof (second_run_box data width height Hwf) as Hbox.
  pose proof (second_run_sum data width height Hwf) as Hsum.
  unfold boxOf in Hbox. injection Hbox as E1 E2 E3 E4 E5.
  unfold summary. cbn [count minX minY maxX maxY avgIntensity].
  rewrite E1, E2, E3, E4, E5, Hsum.
  repeat split; try reflexivity.
  destruct (0 <? _); [apply Qred_zero_div|reflexivity].
Qed.

Lemma second_run_summary_witness :
  let data := [10; 10; 10; 255] in
  well_formed data 1 1 /\
  exists d1 mask d2,
    generateShadowMask (mkContext (Some data)) 1 1
    = Some (d1, mkContext (Some mask)) /\
    generateShadowMask (mkContext (Some mask)) 1 1
    = Some (d2, mkContext (Some mask)) /\
    count d2 = count d1 /\
    minX d2 = minX d1 /\ minY d2 = minY d1 /\
    maxX d2 = maxX d1 /\ maxY d2 = maxY d1 /\
    avgIntensity d2 = 0%Q.
Proof.
  intros data.
  assert (well_formed data 1 1) as Hwf.
  { split; [reflexivity|]. repeat constructor; unfold is_byte; lia. }
  split; [exact Hwf|]. exact (second_run_summary data 1 1 Hwf).
Defined.

(** C8 as stated fails: on the one-pixel frame (10, 10, 10) the first run
    returns averageIntensity 10 and paints the pixel black; the second run,
    on the same canvas, returns averageIntensity 0. *)
Lemma rerun_changes_summary :
  let ctx := mkContext (Some [10; 10; 10; 255]) in
  let d1 := mkShadowData 1 0 0 0 0 10 in
  let d2 := mkShadowData 1 0 0 0 0 0 in
  let ctx' := mkContext (Some [0; 0; 0; 255]) in
  generateShadowMask ctx 1 1 = Some (d1, ctx') /\
  generateShadowMask ctx' 1 1 = Some (d2, ctx') /\
  d1 <> d2.
Proof.
  cbv zeta. split; [vm_compute; reflexivity|].
  split; [vm_compute; reflexivity|]. discriminate.
Qed.

(** ** Frames of invalid shape *)


Lemma filter_all (P : nat -> bool) l :
  (forall j, In j l -> P j = true) ->
  filter (fun j => P j = true) l = l.
Proof.
  induction l as [|j l IH]; intros H; [reflexivity|].
  rewrite filter_cons, decide_True by (apply H; left; reflexivity).
  f_equal. apply IH. intros i Hi. apply H. right. exact Hi.
Qed.



(** C2, as the code has it.  The final threshold is the clamp to [30, 80]
    of the threshold the loop computes: the first candidate t in 0..255
    maximizing the computed variance wB * wF * (mB - mF)^2 of the partition
    into pixels <= t (weight wB = sum of hist[i] for i <= t) and pixels > t
    (weight wF = total - wB), over the candidates whose two weights are
    non-zero and whose computed variance is positive; 0 when there is no
    such candidate. *)
Theorem final_threshold_clamped_otsu (data : list Z) (width height : nat) :
  well_formed data width height ->
  exists t,
    loop_otsu (histogram (grayPass data (width * height)))
      (Z.of_nat (width * height)) t /\
    finalThresholdOf data width height = Z.min (Z.max t 30) 80.
Proof.
  intros Hwf.
  exists (computeOtsuThreshold (histogram (grayPass data (width * height)))
            (Z.of_nat (width * height))).
  split; [|reflexivity].
  destruct (frame_histogram data width height Hwf) as [Hn Ht].
  apply computeOtsuThreshold_correct; assumption.
Qed.

Lemma final_threshold_clamped_otsu_witness :
  let data := [40; 40; 40; 255; 41; 41; 41; 255] in
  well_formed data 2 1 /\
  exists t,
    loop_otsu (histogram (grayPass data (2 * 1))) (Z.of_nat (2 * 1)) t /\
    finalThresholdOf data 2 1 = Z.min (Z.max t 30) 80.
Proof.
  intros data.
  assert (well_formed data 2 1) as Hwf.
  { split; [reflexivity|]. repeat constructor; unfold is_byte; lia. }
  split; [exact Hwf|]. exact (final_threshold_clamped_otsu data 2 1 Hwf).
Defined.

Lemma bounded_forall (P : nat -> bool) n :
  forallb P (seq 0 (S n)) = true -> forall t, (t <= n)%nat -> P t = true.
Proof.
  intros H t Ht. rewrite forallb_forall in H. apply H, in_seq. lia.
Qed.

(** C2 as stated fails.  On the frame of two gray pixels 40 and 41 the only
    threshold that separates two non-empty classes [< t] and [>= t] is
    t = 41, which the clamp leaves at 41; the segmenter's final threshold is
    40, and the pixel of luminance 40 is not classified as shadow. *)
Lemma otsu_partition_off_by_one :
  let data := [40; 40; 40; 255; 41; 41; 41; 255] in
  let hist := histogram (grayPass data 2) in
  spec_otsu hist 2 41 /\
  (forall t, spec_otsu hist 2 t -> refineThreshold (Z.of_nat t) = 41) /\
  finalThresholdOf data 2 1 = 40 /\
  generateShadowMask (mkContext (Some data)) 2 1
  = Some (mkShadowData 0 0 0 0 0 0,
          mkContext (Some [255; 255; 255; 255; 255; 255; 255; 255])).
Proof.
  intros data hist.
  assert (forall t, (t <= 256)%nat -> spec_valid hist 2 t = true -> t = 41%nat)
    as Honly.
  { intros t Ht Hv.
    pose proof (bounded_forall
      (fun t => implb (spec_valid hist 2 t) (t =? 41)%nat) 256
      ltac:(vm_compute; reflexivity) t Ht) as H.
    cbv beta in H. rewrite Hv in H. apply Nat.eqb_eq. exact H. }
  split; [|split; [|split]].
  - split; [lia|]. split; [vm_compute; reflexivity|].
    intros t' Ht' Hv'. rewrite (Honly t' Ht' Hv'). apply Qle_refl.
  - intros t (Ht & Hv & _). rewrite (Honly t Ht Hv). reflexivity.
  - vm_compute. reflexivity.
  - vm_compute. reflexivity.
Qed.

(** ** The stability tracker *)

Module CameraAnalysisFacts.
Import CameraAnalysis.
#[local] Open Scope R_scope.

Lemma Rltb_true x y : Rltb x y = true <-> x < y.
Proof. unfold Rltb. destruct (Rlt_dec x y); split; intros; try easy. Qed.

(** *** The reductions of [getStats] are sums *)

Lemma reduce_total (g : R -> R) (xs : list R) (a : R) :
  fold_left (fun a b => a + g b) xs a = a + total (map g xs).
Proof.
  revert a. induction xs as [|x xs IH]; intros a; cbn.
  - lra.
  - rewrite IH. unfold total. lra.
Qed.

Lemma getStats_mean xs :
  length xs = 25%nat -> mean (getStats xs) = spec_mean xs.
Proof.
  intros Hl. unfold getStats, spec_mean. cbn [mean]. rewrite Hl.
  rewrite (reduce_total (fun b => b)), map_id.
  replace (INR 25) with 25 by (cbn; lra). f_equal. lra.
Qed.

Lemma getStats_stdDev xs :
  length xs = 25%nat -> stdDev (getStats xs) = spec_stdDev xs.
Proof.
  intros Hl. pose proof (getStats_mean xs Hl) as Hm.
  unfold getStats in *. cbn [mean stdDev] in *. unfold spec_stdDev.
  rewrite Hm, Hl, reduce_total.
  replace (INR 25) with 25 by (cbn; lra). do 2 f_equal. lra.
Qed.

(** *** The jitter loop sums the consecutive differences *)

Lemma deltaLoop_acc f history s n acc :
  deltaLoop f history s n acc = acc + deltaLoop f history s n 0.
Proof.
  unfold deltaLoop. revert s acc. induction n as [|n IH]; intros s acc; cbn.
  - lra.
  - rewrite IH. rewrite (IH (S s) (0 + _)). lra.
Qed.

Lemma deltaLoop_shift f a history s n acc :
  deltaLoop f (a :: history) (S (S s)) n acc
  = deltaLoop f history (S s) n acc.
Proof.
  unfold deltaLoop. revert s acc. induction n as [|n IH]; intros s acc.
  - reflexivity.
  - cbn [seq fold_left]. rewrite IH. do 3 f_equal.
    cbn. rewrite Nat.sub_0_r. reflexivity.
Qed.

Lemma deltaLoop_step f history s n acc :
  deltaLoop f history s (S n) acc
  = deltaLoop f history (S s) n
      (acc + Rabs (f (nth s history noFrame)
                   - f (nth (s - 1) history noFrame))).
Proof. reflexivity. Qed.

Lemma totalDelta_loop f history :
  totalDelta f history = deltaLoop f history 1 (length history - 1) 0.
Proof. reflexivity. Qed.

Lemma totalDelta_deltas f history :
  totalDelta f history = total (deltas (map f history)).
Proof.
  induction history as [|a [|b t] IH].
  - reflexivity.
  - reflexivity.
  - rewrite totalDelta_loop in IH |- *.
    cbn [length Nat.sub] in IH |- *. rewrite Nat.sub_0_r in IH.
    rewrite deltaLoop_step, deltaLoop_shift, deltaLoop_acc, IH.
    cbn. lra.
Qed.

Lemma avgDelta_jitter f history :
  length history = 25%nat ->
  totalDelta f history / (INR (length history) - 1)
  = spec_jitter (map f history).
Proof.
  intros Hl. rewrite totalDelta_deltas, Hl. unfold spec_jitter.
  replace (INR 25 - 1) with 24 by (cbn; lra). reflexivity.
Qed.

(** The verdict computed on a full window is the stability predicate. *)
Lemma verdict_spec window :
  length window = 25%nat -> (verdict window = true <-> spec_stable window).
Proof.
  intros Hl. unfold verdict, spec_stable.
  rewrite !getStats_mean, !getStats_stdDev, !avgDelta_jitter
    by (rewrite ?length_map; assumption).
  rewrite !andb_true_iff, !Rltb_true. intuition lra.
Qed.

Lemma observe_full st data :
  length (frameHistory st) = 25%nat ->
  observe st data
  = mkState (tail (frameHistory st ++ [currentFrame data]))
            (verdict (tail (frameHistory st ++ [currentFrame data]))).
Proof.
  intros Hl. unfold observe. rewrite length_app, Hl. reflexivity.
Qed.

(** *** Feeding the same observation again and again *)

Lemma feed_S n obs : feed (S n) obs = observe (feed n obs) obs.
Proof.
  unfold feed. rewrite replicate_S_end, fold_left_app. reflexivity.
Qed.

(** Up to 25 observations the history only grows and nothing is
    evaluated. *)
Lemma feed_filling n obs :
  (n <= 25)%nat ->
  frameHistory (feed n obs) = replicate n (currentFrame obs) /\
  isStable (feed n obs) = false.
Proof.
  induction n as [|n IH]; intros Hn; [split; reflexivity|].
  destruct IH as [IHh IHs]; [lia|].
  rewrite feed_S. unfold observe. rewrite IHh, IHs.
  rewrite length_app, length_replicate. cbn [length].
  replace (25 <? n + 1)%nat with false by (symmetry; apply Nat.ltb_ge; lia).
  cbn [frameHistory isStable]. rewrite replicate_S_end. split; reflexivity.
Qed.

(** From the 26th on, each observation evicts the oldest one and the
    verdict is evaluated on the 25 that remain. *)
Lemma feed_sliding n obs :
  (25 <= n)%nat ->
  frameHistory (feed n obs) = replicate 25 (currentFrame obs) /\
  (26 <= n -> isStable (feed n obs)
              = verdict (replicate 25 (currentFrame obs)))%nat.
Proof.
  induction n as [|n IH]; intros Hn; [lia|].
  destruct (Nat.eq_dec n 24%nat) as [->|Hne].
  - split; [apply feed_filling; lia|lia].
  - destruct IH as [Hh _]; [lia|].
    rewrite feed_S, observe_full by (rewrite Hh; reflexivity).
    rewrite Hh. cbn [frameHistory isStable]. split; reflexivity.
Qed.

Lemma map_replicate {A B} (g : A -> B) n (x : A) :
  map g (replicate n x) = replicate n (g x).
Proof. induction n; cbn; congruence. Qed.

Lemma total_replicate n v : total (replicate n v) = INR n * v.
Proof.
  induction n as [|n IH]; [cbn; lra|].
  rewrite S_INR.
  change (total (replicate (S n) v)) with (v + total (replicate n v)).
  rewrite IH. lra.
Qed.

Lemma deltas_replicate n v : total (deltas (replicate n v)) = 0.
Proof.
  induction n as [|[|n] IH]; [reflexivity..|].
  change (total (deltas (replicate (S (S n)) v)))
    with (Rabs (v - v) + total (deltas (replicate (S n) v))).
  rewrite IH, Rminus_diag, Rabs_R0. lra.
Qed.

Lemma spec_mean_constant v : spec_mean (replicate 25 v) = v.
Proof.
  unfold spec_mean. rewrite total_replicate.
  replace (INR 25) with 25 by (cbn; lra). lra.
Qed.

Lemma spec_stdDev_constant v : spec_stdDev (replicate 25 v) = 0.
Proof.
  unfold spec_stdDev. rewrite spec_mean_constant, map_replicate,
    total_replicate.
  replace (INR 25 * (v - v) ^ 2 / 25) with 0 by (cbn; lra).
  apply sqrt_0.
Qed.

Lemma spec_jitter_constant v : spec_jitter (replicate 25 v) = 0.
Proof. unfold spec_jitter. rewrite deltas_replicate. lra. Qed.

Lemma constant_window_stable f :
  150 < area f -> intensity f < 65 -> verdict (replicate 25 f) = true.
Proof.
  intros Ha Hi. apply verdict_spec; [apply length_replicate|].
  unfold spec_stable. rewrite !map_replicate, !spec_mean_constant,
    !spec_stdDev_constant, !spec_jitter_constant.
  repeat split; lra.
Qed.

(** C4, as the code has it.  Feeding 26 or more identical observations
    (area = 500, a fixed bounding box, average intensity = 40) into a
    tracker with an empty history yields stable = true. *)
Theorem identical_observations_stable (n : nat) (x0 y0 x1 y1 : Z) :
  (26 <= n)%nat ->
  isStable (feed n (mkShadowData 500 x0 y0 x1 y1 40)) = true.
Proof.
  intros Hn.
  destruct (feed_sliding n (mkShadowData 500 x0 y0 x1 y1 40)) as [_ Hs];
    [lia|].
  rewrite (Hs Hn). apply constant_window_stable; cbn; lra.
Qed.

Lemma identical_observations_stable_witness :
  (26 <= 26)%nat /\
  isStable (feed 26 (mkShadowData 500 10 10 30 30 40)) = true.
Proof.
  split; [lia|].
  apply (identical_observations_stable 26 10 10 30 30). lia.
Defined.

(** C4 as stated fails at exactly 25 observations: the window is full, the
    six conditions hold on it, and the tracker still reports false,
    because the verdict is only evaluated when an observation arrives at
    a history that is already full. *)
Lemma twenty_five_observations_not_stable :
  let obs := mkShadowData 500 10 10 30 30 40 in
  length (frameHistory (feed 25 obs)) = 25%nat /\
  spec_stable (frameHistory (feed 25 obs)) /\
  isStable (feed 25 obs) = false.
Proof.
  intros obs.
  destruct (feed_filling 25 obs) as [Hh Hs]; [lia|].
  rewrite Hh, Hs. split; [apply length_replicate|]. split; [|reflexivity].
  apply verdict_spec; [apply length_replicate|].
  apply constant_window_stable; cbn; lra.
Qed.

End CameraAnalysisFacts.

(** ** The stability verdict, in binary64 *)

Module CameraAnalysisBinary64Facts.
Import CameraAnalysisBinary64.
#[local] Open Scope float_scope.

Lemma Number_of_int_25 : JS.Number_of_int 25 = 25.
Proof. vm_compute. reflexivity. Qed.

Lemma Number_of_int_24 : JS.Number_of_int 24 = 24.
Proof. vm_compute. reflexivity. Qed.

(** *** The reductions of [getStats] are the sums *)

Lemma mean_binary64 xs :
  length xs = 25%nat -> mean (getStats xs) = spec_mean xs.
Proof.
  intros Hl. unfold getStats, spec_mean, total. cbn [mean]. rewrite Hl.
  change (Z.of_nat 25) with 25%Z. rewrite Number_of_int_25. reflexivity.
Qed.

Lemma reduce_map (g : float -> float) xs acc :
  fold_left (fun a b => a + g b) xs acc
  = fold_left PrimFloat.add (map g xs) acc.
Proof.
  revert acc. induction xs as [|x xs IH]; intros acc; [reflexivity|].
  cbn [fold_left map]. apply IH.
Qed.

Lemma stdDev_binary64 xs :
  length xs = 25%nat -> stdDev (getStats xs) = spec_stdDev xs.
Proof.
  intros Hl. pose proof (mean_binary64 xs Hl) as Hm.
  unfold getStats in *. cbn [mean stdDev] in *. unfold spec_stdDev, total.
  rewrite Hm, Hl. change (Z.of_nat 25) with 25%Z. rewrite Number_of_int_25.
  rewrite reduce_map. reflexivity.
Qed.

(** *** The jitter loop sums the consecutive differences, in their order *)

Lemma deltaLoop_tail f a history s n acc :
  deltaLoop f (a :: history) (S (S s)) n acc
  = deltaLoop f history (S s) n acc.
Proof.
  unfold deltaLoop. revert s acc. induction n as [|n IH]; intros s acc.
  - reflexivity.
  - cbn [seq fold_left]. rewrite IH. do 3 f_equal.
    cbn. rewrite Nat.sub_0_r. reflexivity.
Qed.

Lemma deltaLoop_deltas f history acc :
  deltaLoop f history 1 (length history - 1) acc
  = fold_left PrimFloat.add (deltas (map f history)) acc.
Proof.
  revert acc. induction history as [|a [|b t] IH]; intros acc.
  - reflexivity.
  - reflexivity.
  - cbn [length Nat.sub] in IH |- *. rewrite Nat.sub_0_r in IH.
    change (deltaLoop f (a :: b :: t) 1 (S (length t)) acc)
      with (deltaLoop f (a :: b :: t) 2 (length t)
              (acc + PrimFloat.abs (f b - f a))).
    rewrite deltaLoop_tail, IH. reflexivity.
Qed.

Lemma jitter_binary64 f history :
  length history = 25%nat ->
  totalDelta f history / JS.Number_of_int (Z.of_nat (length history) - 1)
  = spec_jitter (map f history).
Proof.
  intros Hl. unfold totalDelta. rewrite deltaLoop_deltas, Hl.
  change (Z.of_nat 25 - 1)%Z with 24%Z. rewrite Number_of_int_24.
  reflexivity.
Qed.

(** The verdict computed on a full window is the stability predicate. *)
Lemma verdict_binary64 window :
  length window = 25%nat -> (verdict window = true <-> spec_stable window).
Proof.
  intros Hl. unfold verdict, spec_stable.
  rewrite !mean_binary64, !stdDev_binary64, !jitter_binary64
    by (rewrite ?length_map; assumption).
  rewrite !andb_true_iff. tauto.
Qed.

Lemma observe_full_window st data :
  length (frameHistory st) = 25%nat ->
  observe st data
  = mkState (tail (frameHistory st ++ [currentFrame data]))
            (verdict (tail (frameHistory st ++ [currentFrame data]))).
Proof.
  intros Hl. unfold observe. rewrite length_app, Hl. reflexivity.
Qed.

(** C1, as the code has it.  For every window of 25 observations that an
    observation leaves when it arrives at a history already holding its
    full capacity (the oldest observation is evicted), the tracker reports
    stable = true if and only if all six conditions hold, each statistic
    being the double that the component computes: mean area > 150; area
    standard deviation < area mean * 0.05; width and height standard
    deviations < 3.0; centroid X and Y standard deviations < 2.0; mean
    absolute frame-to-frame delta of the widths and of the heights < 1.5;
    mean intensity < 65. *)
Theorem stable_iff_six_conditions (st : State) (data : ShadowData) :
  length (frameHistory st) = 25%nat ->
  let st' := observe st data in
  frameHistory st' = tail (frameHistory st) ++ [currentFrame data] /\
  length (frameHistory st') = 25%nat /\
  (isStable st' = true <-> spec_stable (frameHistory st')).
Proof.
  intros Hl st'. subst st'. rewrite observe_full_window by assumption.
  cbn [frameHistory isStable].
  destruct (frameHistory st) as [|f0 rest] eqn:E; [discriminate|].
  cbn [tail app] in *. split; [reflexivity|].
  assert (length (rest ++ [currentFrame data]) = 25%nat) as Hw.
  { rewrite length_app. cbn in *. lia. }
  split; [assumption|]. apply verdict_binary64. assumption.
Qed.

Lemma stable_iff_six_conditions_witness :
  let st := mkState (replicate 25 noFrame) false in
  let data := mkShadowData 500 10 10 30 30 40 in
  length (frameHistory st) = 25%nat /\
  (isStable (observe st data) = true
   <-> spec_stable (frameHistory (observe st data))).
Proof.
  intros st data. split; [reflexivity|].
  apply (stable_iff_six_conditions st data eq_refl).
Defined.

(** C1 as stated fails on the first full window: after exactly 25
    identical observations (area 600, box (5, 5)-(25, 45), intensity 30) the
    window holds its 25 observations and the six conditions hold on it, but
    the tracker reports false: the verdict is evaluated only when an
    observation arrives at a history that is already full, as the 26th
    does. *)
Lemma first_full_window_not_evaluated :
  let obs := mkShadowData 600 5 5 25 45 30 in
  let st := processFrames (replicate 25 obs) in
  length (frameHistory st) = 25%nat /\
  spec_stable (frameHistory st) /\
  isStable st = false /\
  isStable (observe st obs) = true.
Proof.
  intros obs st. split; [reflexivity|]. split.
  - vm_compute. repeat split; reflexivity.
  - split; vm_compute; reflexivity.
Qed.

(** The statistics are the doubles, not the exact values.  On the window of
    [borderlineAreas] the mean area is 152 and the exact standard deviation
    is 7.6, which is not below 5% of the mean; the doubles are
    7.5999999999999996 and 152 * 0.05 = 7.6000000000000005, and the tracker
    reports stable. *)
Lemma rounding_decides_borderline_window :
  let st :=
    processFrames (borderlineFrame 152 :: map borderlineFrame borderlineAreas) in
  map area (frameHistory st) = map JS.Number_of_int borderlineAreas /\
  isStable st = true /\
  (fold_right Z.add 0 borderlineAreas = 25 * 152 /\
   400 * fold_right Z.add 0
           (map (fun a => (a - 152) * (a - 152)) borderlineAreas)
   = 25 * (152 * 152))%Z.
Proof.
  intros st. split; [vm_compute; reflexivity|].
  split; [vm_compute; reflexivity|]. split; reflexivity.
Qed.

(** The verdict depends on where the shadow is.  The boxes of
    [restlessOffsets] have a centroid of exact standard deviation 2 (the
    mean offset is 1/5 and the squares of 5 x - 1 sum to 25 * 25 * 4), which
    is not below 2; the double is 2.0000000000000013 with the box near the
    left edge and 1.9999999999999991 with the same box 114 pixels to the
    right, where the tracker reports stable. *)
Lemma position_decides_borderline_window :
  let run base :=
    processFrames (boxAt base 0 :: map (boxAt base) restlessOffsets) in
  isStable (run 4%Z) = false /\ isStable (run 118%Z) = true /\
  (5 * fold_right Z.add 0 restlessOffsets = 25 /\
   fold_right Z.add 0
     (map (fun x => (5 * x - 1) * (5 * x - 1)) restlessOffsets)
   = 25 * (25 * (2 * 2)))%Z.
Proof.
  intros run. split; [vm_compute; reflexivity|].
  split; [vm_compute; reflexivity|]. split; reflexivity.
Qed.

(** *** Feeding the same observation again and again *)

Lemma processFrames_snoc_binary64 frames data :
  processFrames (frames ++ [data]) = observe (processFrames frames) data.
Proof. unfold processFrames. rewrite fold_left_app. reflexivity. Qed.

(** Up to 25 observations the history only grows and nothing is evaluated;
    from the 26th on each observation evicts the oldest one and the verdict
    is evaluated on the 25 that remain. *)
Lemma processFrames_replicate n obs :
  frameHistory (processFrames (replicate n obs))
  = replicate (Nat.min n 25) (currentFrame obs) /\
  isStable (processFrames (replicate n obs))
  = if (25 <? n)%nat then verdict (replicate 25 (currentFrame obs)) else false.
Proof.
  induction n as [|n [IHh IHs]]; [split; reflexivity|].
  rewrite replicate_S_end, processFrames_snoc_binary64. unfold observe.
  rewrite IHh, IHs, length_app, length_replicate. cbn [length].
  destruct (Nat.ltb_spec 25 (Nat.min n 25 + 1)) as [Hf|Hf].
  - assert (25 <= n)%nat as Hn by lia.
    replace (Nat.min n 25) with 25%nat by lia.
    replace (Nat.min (S n) 25) with 25%nat by lia.
    replace (25 <? S n)%nat with true by (symmetry; apply Nat.ltb_lt; lia).
    cbn [frameHistory isStable]. split; reflexivity.
  - assert (n < 25)%nat as Hn by lia.
    replace (Nat.min n 25) with n by lia.
    replace (Nat.min (S n) 25) with (S n) by lia.
    replace (25 <? S n)%nat with false by (symmetry; apply Nat.ltb_ge; lia).
    replace (25 <? n)%nat with false by (symmetry; apply Nat.ltb_ge; lia).
    cbn [frameHistory isStable]. rewrite replicate_S_end.
    split; reflexivity.
Qed.

(** The observation of the specification's example (area 500, the box
    (10, 10)-(30, 30), intensity 40) is reported stable from the 26th on, in
    binary64 as in exact arithmetic. *)
Lemma example_observation_stable n :
  (26 <= n)%nat ->
  isStable (processFrames (replicate n (mkShadowData 500 10 10 30 30 40)))
  = true.
Proof.
  intros Hn.
  destruct (processFrames_replicate n (mkShadowData 500 10 10 30 30 40))
    as [_ ->].
  replace (25 <? n)%nat with true by (symmetry; apply Nat.ltb_lt; lia).
  vm_compute. reflexivity.
Qed.

End CameraAnalysisBinary64Facts.

(** ** The geometric estimator *)

Module ConstantsFacts.
Import Constants.
#[local] Open Scope R_scope.

Lemma Rleb_true x y : Rleb x y = true <-> x <= y.
Proof. unfold Rleb. destruct (Rle_dec x y); split; intros; try easy. Qed.

Lemma Rleb_false x y : Rleb x y = false <-> y < x.
Proof.
  unfold Rleb. destruct (Rle_dec x y); split; intros; try easy; lra.
Qed.

Lemma Rgtb_true x y : Rgtb x y = true <-> x > y.
Proof. unfold Rgtb. destruct (Rgt_dec x y); split; intros; try easy. Qed.

Lemma Rgtb_false x y : Rgtb x y = false <-> x <= y.
Proof.
  unfold Rgtb. destruct (Rgt_dec x y); split; intros; try easy; lra.
Qed.

Lemma ratio_gt_1 a s : 0 < s -> (a / s > 1 <-> a > s).
Proof.
  intros Hs. split; intros H.
  - apply Rmult_lt_reg_r with (r := / s); [now apply Rinv_0_lt_compat|].
    rewrite Rinv_r by lra. exact H.
  - unfold Rdiv. apply Rmult_lt_reg_r with (r := s); [assumption|].
    rewrite Rmult_assoc, Rinv_l by lra. lra.
Qed.

Lemma sqrt_ratio_bounds a s :
  0 < s -> 0 < a -> a <= s -> 0 < sqrt (a / s) <= 1.
Proof.
  intros Hs Ha Has.
  assert (0 < a / s) by (apply Rdiv_lt_0_compat; assumption).
  assert (a / s <= 1).
  { destruct (Rle_dec (a / s) 1) as [|n]; [assumption|].
    exfalso. apply Rnot_le_gt in n. apply (ratio_gt_1 a s Hs) in n. lra. }
  split.
  - now apply sqrt_lt_R0.
  - rewrite <- sqrt_1. apply sqrt_le_1_alt. assumption.
Qed.

(** The three branches of [estimateH]. *)
Lemma estimateH_nonpositive L a s :
  s <= 0 \/ a <= 0 -> estimateH_traced L a s = (L, []).
Proof.
  intros H. unfold estimateH_traced.
  destruct (Rleb s 0) eqn:Es; [reflexivity|].
  destruct (Rleb a 0) eqn:Ea; [reflexivity|].
  apply Rleb_false in Es, Ea. lra.
Qed.

Lemma estimateH_touching L a s :
  0 < s -> s < a -> estimateH_traced L a s = (0, [s]).
Proof.
  intros Hs Ha. unfold estimateH_traced.
  destruct (Rleb s 0) eqn:Es; [apply Rleb_true in Es; lra|].
  destruct (Rleb a 0) eqn:Ea; [apply Rleb_true in Ea; lra|].
  cbn. destruct (Rgtb (a / s) 1) eqn:Eg; [reflexivity|].
  apply Rgtb_false in Eg. pose proof (proj2 (ratio_gt_1 a s Hs)). lra.
Qed.

Lemma estimateH_away L a s :
  0 < s -> 0 < a -> a <= s ->
  estimateH_traced L a s = (Rmax 0 (L - L * sqrt (a / s)), [s]).
Proof.
  intros Hs Ha Has. unfold estimateH_traced.
  destruct (Rleb s 0) eqn:Es; [apply Rleb_true in Es; lra|].
  destruct (Rleb a 0) eqn:Ea; [apply Rleb_true in Ea; lra|].
  cbn. destruct (Rgtb (a / s) 1) eqn:Eg; [|reflexivity].
  apply Rgtb_true in Eg. apply (ratio_gt_1 a s Hs) in Eg. lra.
Qed.

(** C10.  For every L > 0 and all real A_hand, A_shadow, [estimateH]
    returns a value in [0, L]: it returns L whenever A_shadow <= 0 or
    A_hand <= 0, returns 0 whenever A_hand > A_shadow > 0 (ratio > 1), and
    otherwise returns max(0, L - L * sqrt(A_hand / A_shadow)); every
    division it performs has a positive denominator. *)
Theorem estimateH_range (L A_hand A_shadow : R) :
  0 < L ->
  0 <= estimateH L A_hand A_shadow <= L /\
  (A_shadow <= 0 \/ A_hand <= 0 -> estimateH L A_hand A_shadow = L) /\
  (A_hand > A_shadow /\ A_shadow > 0 -> estimateH L A_hand A_shadow = 0) /\
  (0 < A_shadow /\ 0 < A_hand <= A_shadow ->
     estimateH L A_hand A_shadow
     = Rmax 0 (L - L * sqrt (A_hand / A_shadow))) /\
  Forall (fun d => 0 < d) (denominators L A_hand A_shadow).
Proof.
  intros HL. unfold estimateH, denominators.
  destruct (Rle_dec A_shadow 0) as [Hs|Hs].
  { rewrite estimateH_nonpositive by auto. cbn.
    repeat split; intros; (lra || constructor). }
  destruct (Rle_dec A_hand 0) as [Ha|Ha].
  { rewrite estimateH_nonpositive by auto. cbn.
    repeat split; intros; (lra || constructor). }
  apply Rnot_le_lt in Hs, Ha.
  destruct (Rle_dec A_hand A_shadow) as [Hle|Hgt].
  - rewrite estimateH_away by assumption. cbn.
    pose proof (sqrt_ratio_bounds A_hand A_shadow Hs Ha Hle) as [Hq0 Hq1].
    assert (0 <= L - L * sqrt (A_hand / A_shadow) <= L) as Hh by nra.
    rewrite Rmax_right by lra.
    repeat split; intros; try lra.
    repeat constructor. assumption.
  - apply Rnot_le_lt in Hgt. rewrite estimateH_touching by assumption. cbn.
    repeat split; intros; try lra.
    repeat constructor. assumption.
Qed.

Lemma estimateH_range_witness :
  0 < 50 /\
  0 <= estimateH 50 2000 8000 <= 50 /\
  Forall (fun d => 0 < d) (denominators 50 2000 8000).
Proof.
  split; [lra|].
  pose proof (estimateH_range 50 2000 8000 ltac:(lra)) as (H & _ & _ & _ & D).
  split; assumption.
Defined.

End ConstantsFacts.

(** * Further properties of the code *)

(** ** The segmenter: what the summary and the mask say about the frame *)

Lemma ToUint8Clamp_range x : 0 <= JS.ToUint8Clamp x <= 255.
Proof.
  unfold JS.ToUint8Clamp. destruct (Prim2SF x) as [| [] | | [] m e]; try lia.
  destruct (0 <=? e) eqn:E.
  - apply Z.leb_le in E. pose proof (Z.pow_nonneg 2 e ltac:(lia)). nia.
  - apply Z.leb_gt in E.
    assert (0 < 2 ^ (- e)) as Hd by (apply Z.pow_pos_nonneg; lia).
    pose proof (Z.div_pos (Z.pos m) (2 ^ (- e)) ltac:(lia) Hd).
    repeat match goal with |- context [if ?b then _ else _] => destruct b end;
      lia.
Qed.

Lemma grayscale_grayUpTo_bytes data numPixels k :
  Forall is_byte (grayscale (grayUpTo data numPixels k)).
Proof.
  unfold grayUpTo.
  apply (for_loop_invariant (fun _ s => Forall is_byte (grayscale s))).
  - cbn [grayscale]. apply Forall_replicate. unfold is_byte. lia.
  - intros i s _ Hs. cbn [grayStep grayscale].
    apply Forall_insert; [assumption|]. apply ToUint8Clamp_range.
Qed.

Lemma grayAt_byte data numPixels idx :
  is_byte (grayAt (grayscale (grayPass data numPixels)) idx).
Proof.
  rewrite grayPass_grayUpTo. unfold grayAt.
  destruct (_ !! idx) as [v|] eqn:E; [|unfold is_byte; cbn; lia].
  pose proof (grayscale_grayUpTo_bytes data numPixels
                ((length data + 3) / 4)) as H.
  rewrite Forall_lookup in H. exact (H _ _ E).
Qed.

Lemma intensitySum_maskUpTo_nonneg data gs thr w h k :
  (forall j, 0 <= grayAt gs j) ->
  0 <= intensitySum (maskUpTo data gs thr w h k).
Proof.
  intros Hg. induction k as [|k IH]; [cbn; lia|].
  cbn [maskUpTo]. destruct (shadowAt data gs thr k); cbn [intensitySum];
    [specialize (Hg k)|]; lia.
Qed.

(** What every summary the segmenter returns satisfies, whatever the
    context holds. *)
Lemma summary_bounds ctx width height d ctx' :
  generateShadowMask ctx width height = Some (d, ctx') ->
  0 <= count d <= Z.of_nat (width * height) /\
  (count d = 0 ->
   minX d = 0 /\ minY d = 0 /\ maxX d = 0 /\ maxY d = 0 /\
   avgIntensity d = 0%Q) /\
  (0 < count d ->
   0 <= minX d <= maxX d /\ maxX d < Z.of_nat width /\
   0 <= minY d <= maxY d /\ maxY d < Z.of_nat height) /\
  (0 <= avgIntensity d <= 79)%Q.
Proof.
  destruct ctx as [[data|]]; [|discriminate].
  rewrite generateShadowMask_unfold. intros E. injection E as Ed _. subst d.
  pose proof (maskOf_box data width height) as (Hc & Hs & Hb).
  pose proof (finalThresholdOf_range data width height) as Hr.
  assert (0 <= intensitySum (maskOf data width height)) as H0.
  { unfold maskOf. apply intensitySum_maskUpTo_nonneg.
    intros j. apply grayAt_byte. }
  remember (finalThresholdOf data width height) as thr eqn:Ethr.
  remember (maskOf data width height) as p2 eqn:Ep2. clear Ethr Ep2.
  unfold summary. cbn [count minX minY maxX maxY avgIntensity].
  split; [lia|]. split; [|split].
  - intros E. rewrite E. change (0 <? 0) with false. cbv iota.
    repeat split; reflexivity.
  - intros Hpos. apply Z.ltb_lt in Hpos as Hpos'. rewrite Hpos'.
    destruct Hb as [(Hz & _)|Hb]; lia.
  - destruct (Z.ltb_spec 0 (shadowPixelCount p2)) as [Hpos|Hz].
    + rewrite Qred_correct. split.
      * apply Qle_shift_div_l.
        -- change 0%Q with (inject_Z 0). rewrite <- Zlt_Qlt. assumption.
        -- rewrite Qmult_0_l. change 0%Q with (inject_Z 0).
           rewrite <- Zle_Qle. assumption.
      * apply Qle_shift_div_r.
        -- change 0%Q with (inject_Z 0). rewrite <- Zlt_Qlt. assumption.
        -- change 79%Q with (inject_Z 79).
           rewrite <- inject_Z_mult, <- Zle_Qle. nia.
    + split; discriminate.
Qed.

(** *** The running box is the bounding box *)

Lemma sumOver_S P g k :
  sumOver P g (S k) = sumOver P g k + (if P k then g k else 0).
Proof.
  unfold sumOver. rewrite seq_S, filter_app, map_app, fold_right_app.
  change (0 + k)%nat with k. rewrite filter_cons, filter_nil.
  destruct (P k) eqn:E; destruct (decide _) as [Hd|Hd]; try congruence;
    cbn [map fold_right].
  - generalize (map g (filter (fun j => P j = true) (seq 0 k))).
    intros l. induction l as [|a l IH]; cbn; lia.
  - lia.
Qed.

Lemma sumOver_ext P Q g g' k :
  (forall j, (j < k)%nat -> P j = Q j) ->
  (forall j, (j < k)%nat -> P j = true -> g j = g' j) ->
  sumOver P g k = sumOver Q g' k.
Proof.
  induction k as [|k IH]; intros HP Hg; [reflexivity|].
  rewrite !sumOver_S, IH by (intros; auto with lia).
  rewrite <- (HP k) by lia. destruct (P k) eqn:E; [|reflexivity].
  rewrite (Hg k) by (lia || assumption). reflexivity.
Qed.

Lemma countBelow_S P k :
  countBelow P (S k) = countBelow P k + (if P k then 1 else 0).
Proof.
  unfold countBelow. rewrite seq_S, filter_app, length_app.
  change (0 + k)%nat with k. rewrite filter_cons, filter_nil.
  destruct (P k) eqn:E; destruct (decide _) as [Hd|Hd]; try congruence;
    cbn [length]; lia.
Qed.

Section MaskBox.
Variables (data gs : list Z) (thr : Z) (w h : nat).

Abbreviation upTo := (maskUpTo data gs thr w h).
Abbreviation shadow := (shadowAt data gs thr).

(** The intensity sum is the sum of the gray levels of the pixels that
    passed the test. *)
Lemma intensitySum_maskUpTo k :
  intensitySum (upTo k) = sumOver shadow (grayAt gs) k.
Proof.
  induction k as [|k IH]; [reflexivity|].
  rewrite sumOver_S. cbn [maskUpTo].
  destruct (shadowAt data gs thr k); cbn [intensitySum]; lia.
Qed.

(** After [k] pixels either none has passed the test, or the running box
    is their bounding box. *)
Lemma box_tight k :
  (k <= h * w)%nat ->
  (shadowPixelCount (upTo k) = 0 /\
   (forall j, (j < k)%nat -> shadow j = false)) \/
  (0 < shadowPixelCount (upTo k) /\ tight_box shadow w k (upTo k)).
Proof.
  induction k as [|k IH]; intros Hk.
  - left. split; [reflexivity|]. intros j Hj. lia.
  - specialize (IH ltac:(lia)).
    pose proof (box_invariant data gs thr w h k ltac:(lia)) as (Hc & _ & Hb).
    destruct (position_in_frame w h k) as [Hx Hy]; [lia|].
    cbn [maskUpTo]. destruct (shadowAt data gs thr k) eqn:E.
    + right. cbn [shadowPixelCount]. split; [lia|].
      set (x := (k mod w)%nat) in *. set (y := (k / w)%nat) in *.
      destruct IH as [[H0 Hnone]|[Hpos Ht]].
      * (* the first pixel that passes *)
        destruct Hb as [(_ & Ex0 & Ey0 & Ex1 & Ey1)|Hb]; [|lia].
        unfold tight_box.
        cbn [curMinX curMinY curMaxX curMaxY]. rewrite Ex0, Ey0, Ex1, Ey1.
        replace (Z.of_nat x <? Z.of_nat w) with true
          by (symmetry; apply Z.ltb_lt; lia).
        replace (Z.of_nat y <? Z.of_nat h) with true
          by (symmetry; apply Z.ltb_lt; lia).
        assert ((if 0 <? Z.of_nat x then Z.of_nat x else 0) = Z.of_nat x) as ->
          by (destruct (Z.ltb_spec 0 (Z.of_nat x)); lia).
        assert ((if 0 <? Z.of_nat y then Z.of_nat y else 0) = Z.of_nat y) as ->
          by (destruct (Z.ltb_spec 0 (Z.of_nat y)); lia).
        split.
        { intros j Hj Hs.
          destruct (Nat.eq_dec j k) as [->|Hne]; [fold x y; lia|].
          rewrite Hnone in Hs by lia. discriminate. }
        repeat split; exists k; (split; [lia|]);
          (split; [assumption|reflexivity]).
      * destruct Ht as (Hin & (jx0 & ? & ? & Ejx0) & (jx1 & ? & ? & Ejx1)
                         & (jy0 & ? & ? & Ejy0) & (jy1 & ? & ? & Ejy1)).
        unfold tight_box. cbn [curMinX curMinY curMaxX curMaxY].
        split.
        { intros j Hj Hs. destruct (Nat.eq_dec j k) as [->|Hne].
          - fold x y.
            repeat match goal with |- context [if ?b then _ else _] =>
              let Eb := fresh in destruct b eqn:Eb;
              [apply Z.ltb_lt in Eb|apply Z.ltb_ge in Eb] end; lia.
          - specialize (Hin j ltac:(lia) Hs).
            repeat match goal with |- context [if ?b then _ else _] =>
              let Eb := fresh in destruct b eqn:Eb;
              [apply Z.ltb_lt in Eb|apply Z.ltb_ge in Eb] end; lia. }
        split; [|split; [|split]].
        -- destruct (Z.ltb_spec (Z.of_nat x) (curMinX (upTo k))).
           ++ exists k. split; [lia|]. split; [assumption|reflexivity].
           ++ exists jx0. split; [lia|]. split; assumption.
        -- destruct (Z.ltb_spec (curMaxX (upTo k)) (Z.of_nat x)).
           ++ exists k. split; [lia|]. split; [assumption|reflexivity].
           ++ exists jx1. split; [lia|]. split; assumption.
        -- destruct (Z.ltb_spec (Z.of_nat y) (curMinY (upTo k))).
           ++ exists k. split; [lia|]. split; [assumption|reflexivity].
           ++ exists jy0. split; [lia|]. split; assumption.
        -- destruct (Z.ltb_spec (curMaxY (upTo k)) (Z.of_nat y)).
           ++ exists k. split; [lia|]. split; [assumption|reflexivity].
           ++ exists jy1. split; [lia|]. split; assumption.
    + cbn [shadowPixelCount]. destruct IH as [[H0 Hnone]|[Hpos Ht]].
      * left. split; [assumption|]. intros j Hj.
        destruct (Nat.eq_dec j k) as [->|Hne]; [assumption|apply Hnone; lia].
      * right. split; [assumption|].
        destruct Ht as (Hin & (jx0 & ? & ? & Ejx0) & (jx1 & ? & ? & Ejx1)
                         & (jy0 & ? & ? & Ejy0) & (jy1 & ? & ? & Ejy1)).
        unfold tight_box. cbn [curMinX curMinY curMaxX curMaxY].
        split.
        { intros j Hj Hs. destruct (Nat.eq_dec j k) as [->|Hne]; [congruence|].
          apply Hin; [lia|assumption]. }
        split; [|split; [|split]];
          [exists jx0|exists jx1|exists jy0|exists jy1];
          (split; [lia|]); split; assumption.
Qed.

End MaskBox.

Lemma maskColour_black b : maskColour b 0 = 0 <-> b = true.
Proof. destruct b; cbn; split; intros; congruence || lia. Qed.

(** On a well-formed frame a pixel is black in the mask iff it passed the
    test. *)
Lemma mask_black data width height idx :
  well_formed data width height -> (idx < width * height)%nat ->
  (pixels (maskOf data width height) !! (idx * 4)%nat = Some 0
   <-> shadowAt data (grayscale (grayPass data (width * height)))
         (finalThresholdOf data width height) idx = true).
Proof.
  intros [Hl _] Hi. unfold maskOf.
  pose proof (pixels_maskUpTo_behind data
    (grayscale (grayPass data (width * height)))
    (finalThresholdOf data width height) width height (height * width)
    idx 0 ltac:(lia) ltac:(lia) ltac:(lia)) as E.
  rewrite Nat.add_0_r in E. rewrite E.
  rewrite <- maskColour_black.
  split; [intros [= ->]; reflexivity|intros ->; reflexivity].
Qed.

(** X1.  On every well-formed frame the box of the summary is the bounding
    box of the black pixels of the mask: when pixelCount > 0, every black
    pixel lies inside the box and each of the four sides of the box is the
    coordinate of some black pixel; when pixelCount = 0 the mask has no
    black pixel. *)
Theorem box_is_tight (data : list Z) (width height : nat) :
  well_formed data width height ->
  exists d mask,
    generateShadowMask (mkContext (Some data)) width height
    = Some (d, mkContext (Some mask)) /\
    let black idx := mask !! (idx * 4)%nat = Some 0 in
    (count d = 0 ->
     forall idx, (idx < width * height)%nat -> ~ black idx) /\
    (0 < count d ->
     (forall idx, (idx < width * height)%nat -> black idx ->
        minX d <= Z.of_nat (idx mod width) <= maxX d /\
        minY d <= Z.of_nat (idx / width) <= maxY d) /\
     (exists idx, (idx < width * height)%nat /\ black idx /\
                  Z.of_nat (idx mod width) = minX d) /\
     (exists idx, (idx < width * height)%nat /\ black idx /\
                  Z.of_nat (idx mod width) = maxX d) /\
     (exists idx, (idx < width * height)%nat /\ black idx /\
                  Z.of_nat (idx / width) = minY d) /\
     (exists idx, (idx < width * height)%nat /\ black idx /\
                  Z.of_nat (idx / width) = maxY d)).
Proof.
  intros Hwf. do 2 eexists. split; [apply generateShadowMask_unfold|].
  cbv zeta.
  assert (forall idx, (idx < height * width)%nat ->
            (pixels (maskOf data width height) !! (idx * 4)%nat = Some 0
             <-> shadowAt data (grayscale (grayPass data (width * height)))
                   (finalThresholdOf data width height) idx = true)) as Hblack
    by (intros idx Hi; apply mask_black; [assumption|lia]).
  pose proof (box_tight data (grayscale (grayPass data (width * height)))
                (finalThresholdOf data width height) width height
                (height * width) (le_n _)) as Ht.
  fold (maskOf data width height) in Ht.
  unfold tight_box in Ht.
  remember (maskOf data width height) as p2 eqn:Ep2.
  clear Ep2. unfold summary. cbn [count minX minY maxX maxY].
  replace (width * height)%nat with (height * width)%nat by lia.
  split.
  - intros H0 idx Hi Hb. apply Hblack in Hb; [|assumption].
    destruct Ht as [[_ Hnone]|[Hpos _]]; [|lia].
    rewrite Hnone in Hb by assumption. discriminate.
  - intros Hpos. apply Z.ltb_lt in Hpos as Hpos'. rewrite Hpos'.
    destruct Ht as [[H0 _]|[_ Ht]]; [lia|].
    destruct Ht as (Hin & (jx0 & ? & ? & Ejx0) & (jx1 & ? & ? & Ejx1)
                     & (jy0 & ? & ? & Ejy0) & (jy1 & ? & ? & Ejy1)).
    split.
    { intros idx Hi Hb. apply Hin; [assumption|]. apply Hblack; assumption. }
    split; [|split; [|split]];
      [exists jx0|exists jx1|exists jy0|exists jy1];
      (split; [assumption|]); (split; [apply Hblack; assumption|assumption]).
Qed.

Lemma box_is_tight_witness :
  let data := [10; 10; 10; 255; 200; 40; 40; 255] in
  well_formed data 2 1 /\
  exists d mask,
    generateShadowMask (mkContext (Some data)) 2 1
    = Some (d, mkContext (Some mask)) /\
    (0 < count d ->
     exists idx, (idx < 2 * 1)%nat /\ mask !! (idx * 4)%nat = Some 0 /\
                 Z.of_nat (idx mod 2) = minX d).
Proof.
  intros data.
  assert (well_formed data 2 1) as Hwf.
  { split; [reflexivity|]. repeat constructor; unfold is_byte; lia. }
  split; [exact Hwf|].
  destruct (box_is_tight data 2 1 Hwf) as (d & mask & E & _ & Ht).
  exists d, mask. split; [exact E|].
  intros Hpos. destruct (Ht Hpos) as (_ & Hx & _). exact Hx.
Defined.

(** X2.  On every well-formed frame with pixelCount > 0, avgIntensity is
    the mean gray level of the shadow pixels: the sum of the gray levels
    of the pixels classified as shadow, divided by pixelCount. *)
Theorem average_is_mean (data : list Z) (width height : nat) :
  well_formed data width height ->
  let thr := finalThresholdOf data width height in
  let shadow idx :=
    spec_isShadow thr (channel data idx 0) (channel data idx 1)
      (channel data idx 2) in
  let gray idx :=
    spec_gray (channel data idx 0) (channel data idx 1) (channel data idx 2) in
  exists d ctx',
    generateShadowMask (mkContext (Some data)) width height = Some (d, ctx') /\
    (0 < count d ->
     (avgIntensity d
      == inject_Z (sumOver shadow gray (width * height))
         / inject_Z (count d))%Q).
Proof.
  intros Hwf thr shadow gray. do 2 eexists.
  split; [apply generateShadowMask_unfold|].
  assert (intensitySum (maskOf data width height)
          = sumOver shadow gray (width * height)) as Es.
  { unfold maskOf. rewrite intensitySum_maskUpTo.
    replace (height * width)%nat with (width * height)%nat by lia.
    apply sumOver_ext.
    - intros j Hj. apply frame_shadowAt; assumption.
    - intros j Hj _. unfold grayAt.
      rewrite (frame_gray data width height) by assumption. reflexivity. }
  remember (maskOf data width height) as p2 eqn:Ep2. clear Ep2.
  unfold summary. cbn [count avgIntensity].
  intros Hpos. apply Z.ltb_lt in Hpos as Hpos'. rewrite Hpos'.
  rewrite Qred_correct, Es. reflexivity.
Qed.

Lemma average_is_mean_witness :
  let data := [10; 10; 10; 255; 20; 20; 20; 255] in
  well_formed data 2 1 /\
  exists d ctx',
    generateShadowMask (mkContext (Some data)) 2 1 = Some (d, ctx') /\
    (0 < count d ->
     (avgIntensity d
      == inject_Z
           (sumOver
              (fun idx =>
                 spec_isShadow (finalThresholdOf data 2 1)
                   (channel data idx 0) (channel data idx 1)
                   (channel data idx 2))
              (fun idx =>
                 spec_gray (channel data idx 0) (channel data idx 1)
                   (channel data idx 2))
              (2 * 1))
         / inject_Z (count d))%Q).
Proof.
  intros data.
  assert (well_formed data 2 1) as Hwf.
  { split; [reflexivity|]. repeat constructor; unfold is_byte; lia. }
  split; [exact Hwf|]. exact (average_is_mean data 2 1 Hwf).
Defined.

Lemma spec_isShadow_dark thr r g b :
  30 <= thr -> spec_gray r g b < 30 -> spec_isShadow thr r g b = true.
Proof.
  intros Ht Hg. unfold spec_isShadow.
  replace (spec_gray r g b <? thr) with true by (symmetry; apply Z.ltb_lt; lia).
  replace (spec_gray r g b <? 30) with true by (symmetry; apply Z.ltb_lt; lia).
  apply orb_true_r.
Qed.

Lemma spec_isShadow_bright thr r g b :
  thr <= 80 -> 80 <= spec_gray r g b -> spec_isShadow thr r g b = false.
Proof.
  intros Ht Hg. unfold spec_isShadow.
  replace (spec_gray r g b <? thr) with false by (symmetry; apply Z.ltb_ge; lia).
  reflexivity.
Qed.

Lemma spec_isShadow_saturated thr r g b :
  30 <= spec_gray r g b -> (60 <= spec_sat r g b)%Q ->
  spec_isShadow thr r g b = false.
Proof.
  intros Hg Hs. unfold spec_isShadow.
  replace (spec_gray r g b <? 30) with false by (symmetry; apply Z.ltb_ge; lia).
  unfold Qltb. apply Qle_bool_iff in Hs. rewrite Hs. apply andb_false_r.
Qed.

(** X3.  Whatever threshold the frame yields, on a well-formed frame a
    pixel with gray level below 30 is painted black (shadow) whatever its
    colour, a pixel with gray level 80 or more is painted white, and so is
    a pixel with gray level 30 or more whose saturation is 60 or more. *)
Theorem threshold_independent_pixels (data : list Z)
    (width height idx : nat) :
  well_formed data width height -> (idx < width * height)%nat ->
  let r := channel data idx 0 in
  let g := channel data idx 1 in
  let b := channel data idx 2 in
  exists d mask,
    generateShadowMask (mkContext (Some data)) width height
    = Some (d, mkContext (Some mask)) /\
    (spec_gray r g b < 30 -> mask !! (idx * 4)%nat = Some 0) /\
    (80 <= spec_gray r g b -> mask !! (idx * 4)%nat = Some 255) /\
    (30 <= spec_gray r g b -> (60 <= spec_sat r g b)%Q ->
     mask !! (idx * 4)%nat = Some 255).
Proof.
  intros Hwf Hi r g b. do 2 eexists.
  split; [apply generateShadowMask_unfold|].
  pose proof (finalThresholdOf_range data width height) as Hr.
  destruct Hwf as [Hl Hb]. unfold maskOf.
  pose proof (pixels_maskUpTo_behind data
    (grayscale (grayPass data (width * height)))
    (finalThresholdOf data width height) width height (height * width)
    idx 0 ltac:(lia) ltac:(lia) ltac:(lia)) as E.
  rewrite Nat.add_0_r in E. rewrite E.
  rewrite (frame_shadowAt data width height (conj Hl Hb)) by assumption.
  fold r g b.
  split; [|split].
  - intros Hd. rewrite spec_isShadow_dark by lia. reflexivity.
  - intros Hd. rewrite spec_isShadow_bright by lia. reflexivity.
  - intros Hd Hs. rewrite spec_isShadow_saturated by assumption. reflexivity.
Qed.

Lemma threshold_independent_pixels_witness :
  let data := [10; 10; 10; 255; 200; 40; 40; 255] in
  well_formed data 2 1 /\ (0 < 2 * 1)%nat /\
  exists d mask,
    generateShadowMask (mkContext (Some data)) 2 1
    = Some (d, mkContext (Some mask)) /\
    mask !! (0 * 4)%nat = Some 0.
Proof.
  intros data.
  assert (well_formed data 2 1) as Hwf.
  { split; [reflexivity|]. repeat constructor; unfold is_byte; lia. }
  split; [exact Hwf|]. split; [lia|].
  destruct (threshold_independent_pixels data 2 1 0 Hwf ltac:(lia))
    as (d & mask & E & Hdark & _).
  exists d, mask. split; [exact E|].
  apply Hdark. vm_compute. reflexivity.
Defined.

(** X4.  Whatever the buffer holds, the mask written back has the length
    of the buffer read, and every byte beyond the declared frame (index
    at least 4 * width * height) is left as it was. *)
Theorem mask_stays_in_frame (data : list Z) (width height : nat) :
  exists d mask,
    generateShadowMask (mkContext (Some data)) width height
    = Some (d, mkContext (Some mask)) /\
    length mask = length data /\
    forall i, (4 * (width * height) <= i)%nat -> mask !! i = data !! i.
Proof.
  do 2 eexists. split; [apply generateShadowMask_unfold|].
  unfold maskOf. split.
  - apply pixels_maskUpTo_length.
  - intros i Hi. apply pixels_maskUpTo_ahead. lia.
Qed.

(** *** Frames with the same colours *)

Section SameColours.
Variables (data data' : list Z) (width height : nat).
Hypothesis frame : well_formed data width height.
Hypothesis frame' : well_formed data' width height.
Hypothesis same :
  forall idx c, (idx < width * height)%nat -> (c < 3)%nat ->
    channel data idx c = channel data' idx c.

Abbreviation n := (width * height)%nat.

Lemma same_lookup idx c :
  (idx < n)%nat -> (c < 3)%nat ->
  data !! (idx * 4 + c)%nat = data' !! (idx * 4 + c)%nat.
Proof.
  intros Hi Hc.
  destruct (frame_lookup data width height frame idx c) as [E _];
    [assumption|lia|].
  destruct (frame_lookup data' width height frame' idx c) as [E' _];
    [assumption|lia|].
  rewrite E, E', same by assumption. reflexivity.
Qed.

Lemma same_grayUpTo k :
  (k <= n)%nat -> grayUpTo data n k = grayUpTo data' n k.
Proof.
  induction k as [|k IH]; intros Hk; [reflexivity|].
  unfold grayUpTo in *. rewrite !seq_S, !fold_left_app, IH by lia.
  cbn [fold_left]. change (0 + k)%nat with k. unfold grayStep.
  pose proof (same_lookup k 0 ltac:(lia) ltac:(lia)) as E0.
  pose proof (same_lookup k 1 ltac:(lia) ltac:(lia)) as E1.
  pose proof (same_lookup k 2 ltac:(lia) ltac:(lia)) as E2.
  rewrite Nat.add_0_r in E0.
  replace (4 * k)%nat with (k * 4)%nat by lia.
  rewrite E0, E1, E2. reflexivity.
Qed.

Lemma same_grayPass : grayPass data n = grayPass data' n.
Proof.
  rewrite !grayPass_grayUpTo.
  rewrite (frame_steps data width height frame),
    (frame_steps data' width height frame').
  apply same_grayUpTo. lia.
Qed.

Lemma same_threshold :
  finalThresholdOf data width height = finalThresholdOf data' width height.
Proof. unfold finalThresholdOf. cbv zeta. rewrite same_grayPass. reflexivity. Qed.

Lemma same_shadowAt gs thr idx :
  (idx < n)%nat -> shadowAt data gs thr idx = shadowAt data' gs thr idx.
Proof.
  intros Hi. unfold shadowAt.
  pose proof (same_lookup idx 0 ltac:(lia) ltac:(lia)) as E0.
  pose proof (same_lookup idx 1 ltac:(lia) ltac:(lia)) as E1.
  pose proof (same_lookup idx 2 ltac:(lia) ltac:(lia)) as E2.
  rewrite Nat.add_0_r in E0. rewrite E0, E1, E2. reflexivity.
Qed.

Lemma same_maskOf :
  boxOf (maskOf data width height) = boxOf (maskOf data' width height) /\
  intensitySum (maskOf data width height)
  = intensitySum (maskOf data' width height) /\
  pixels (maskOf data width height) = pixels (maskOf data' width height).
Proof.
  unfold maskOf. rewrite <- same_threshold, <- same_grayPass.
  set (gs := grayscale (grayPass data n)).
  set (thr := finalThresholdOf data width height).
  assert (forall j, (j < height * width)%nat ->
            shadowAt data gs thr j = shadowAt data' gs thr j) as Hs
    by (intros j Hj; apply same_shadowAt; lia).
  split; [apply boxOf_maskUpTo_ext; assumption|]. split.
  - rewrite !intensitySum_maskUpTo. apply sumOver_ext; [assumption|reflexivity].
  - destruct frame as [Hl _], frame' as [Hl' _].
    apply list_eq. intros i.
    destruct (Nat.lt_ge_cases i (4 * n)) as [Hi|Hi].
    + pose proof (Nat.div_mod_eq i 4) as Ei.
      pose proof (Nat.mod_upper_bound i 4 ltac:(lia)) as Hc.
      replace i with ((i / 4) * 4 + i mod 4)%nat by lia.
      rewrite !pixels_maskUpTo_behind by lia.
      rewrite Hs by lia. reflexivity.
    + rewrite !lookup_ge_None_2
        by (rewrite pixels_maskUpTo_length; lia).
      reflexivity.
Qed.

End SameColours.

Lemma summary_ext s s' :
  boxOf s = boxOf s' -> intensitySum s = intensitySum s' ->
  summary s = summary s'.
Proof.
  unfold boxOf, summary. intros E Es. injection E as -> -> -> -> ->.
  rewrite Es. reflexivity.
Qed.

(** X24.  The segmenter never reads the alpha channel: two well-formed
    frames of the same dimensions with the same red, green and blue bytes
    give the same summary and the same mask, whatever their alpha bytes. *)
Theorem alpha_is_ignored (data data' : list Z) (width height : nat) :
  well_formed data width height -> well_formed data' width height ->
  (forall idx c, (idx < width * height)%nat -> (c < 3)%nat ->
     channel data idx c = channel data' idx c) ->
  generateShadowMask (mkContext (Some data)) width height
  = generateShadowMask (mkContext (Some data')) width height.
Proof.
  intros Hwf Hwf' Hsame. rewrite !generateShadowMask_unfold.
  destruct (same_maskOf data data' width height Hwf Hwf' Hsame)
    as (Eb & Es & Ep).
  rewrite (summary_ext _ _ Eb Es), Ep. reflexivity.
Qed.

Lemma alpha_is_ignored_witness :
  let data := [10; 10; 10; 255] in
  let data' := [10; 10; 10; 0] in
  well_formed data 1 1 /\ well_formed data' 1 1 /\
  (forall idx c, (idx < 1 * 1)%nat -> (c < 3)%nat ->
     channel data idx c = channel data' idx c) /\
  generateShadowMask (mkContext (Some data)) 1 1
  = generateShadowMask (mkContext (Some data')) 1 1.
Proof.
  intros data data'.
  assert (well_formed data 1 1) as Hwf.
  { split; [reflexivity|]. repeat constructor; unfold is_byte; lia. }
  assert (well_formed data' 1 1) as Hwf'.
  { split; [reflexivity|]. repeat constructor; unfold is_byte; lia. }
  assert (forall idx c, (idx < 1 * 1)%nat -> (c < 3)%nat ->
            channel data idx c = channel data' idx c) as Hsame.
  { intros [|idx] [|[|[|c]]] Hi Hc; try lia; reflexivity. }
  split; [exact Hwf|]. split; [exact Hwf'|]. split; [exact Hsame|].
  exact (alpha_is_ignored data data' 1 1 Hwf Hwf' Hsame).
Defined.

(** ** Otsu's threshold: range and degenerate histograms *)

Lemma otsuLoop_range histogram totalPixels sum ts st :
  Forall (fun t => (t < 256)%nat) ts ->
  0 <= threshold st <= 255 ->
  0 <= otsuLoop histogram totalPixels sum ts st <= 255.
Proof.
  intros Hts. revert st. induction Hts as [|t ts Ht _ IH]; intros st Hst.
  - exact Hst.
  - cbn [otsuLoop]. cbv zeta.
    destruct (_ =? 0); [apply IH; assumption|].
    destruct (_ =? 0); [assumption|].
    destruct (_ <? _)%float; apply IH; cbn [threshold]; lia.
Qed.

(** As long as every bin met is empty or holds all the pixels, the loop
    selects nothing: it skips the empty bins and stops at the full one. *)
Lemma otsuLoop_degenerate histogram totalPixels sum ts st :
  wB st = 0 ->
  Forall (fun t => bin histogram t = 0 \/ bin histogram t = totalPixels) ts ->
  otsuLoop histogram totalPixels sum ts st = threshold st.
Proof.
  intros Hw Hts. revert st Hw. induction Hts as [|t ts Ht _ IH]; intros st Hw.
  - reflexivity.
  - cbn [otsuLoop]. cbv zeta. rewrite Hw, Z.add_0_l.
    destruct (Z.eqb_spec (bin histogram t) 0) as [E0|E0].
    + rewrite IH by exact E0. reflexivity.
    + destruct Ht as [Ht|Ht]; [contradiction|].
      rewrite Ht, Z.sub_diag. reflexivity.
Qed.

(** X5.  For every histogram and every pixel total, [computeOtsuThreshold]
    returns a gray level of 0..255; and it returns 0 whenever every bin is
    either empty or holds all the pixels (an empty histogram, or a frame
    with a single gray level). *)
Theorem computeOtsuThreshold_range (histogram : list Z) (totalPixels : Z) :
  0 <= computeOtsuThreshold histogram totalPixels <= 255 /\
  ((forall t, (t < 256)%nat ->
      bin histogram t = 0 \/ bin histogram t = totalPixels) ->
   computeOtsuThreshold histogram totalPixels = 0).
Proof.
  unfold computeOtsuThreshold. cbv zeta. split.
  - apply otsuLoop_range; [|cbn; lia].
    apply Forall_seq. intros t Ht. lia.
  - intros H. rewrite otsuLoop_degenerate; [reflexivity..|].
    apply Forall_seq. intros t Ht. apply H. lia.
Qed.

(** *** Frames of a single colour *)

Lemma filter_none (P : nat -> bool) l :
  (forall j, In j l -> P j = false) ->
  filter (fun j => P j = true) l = [].
Proof.
  induction l as [|j l IH]; intros H; [reflexivity|].
  rewrite filter_cons, decide_False
    by (rewrite H by (left; reflexivity); discriminate).
  apply IH. intros i Hi. apply H. right. exact Hi.
Qed.

Section UniformFrame.
Variables (data : list Z) (width height : nat) (r g b : Z).
Hypothesis frame : well_formed data width height.
Hypothesis uniform :
  forall idx, (idx < width * height)%nat ->
    channel data idx 0 = r /\ channel data idx 1 = g /\ channel data idx 2 = b.

Abbreviation n := (width * height)%nat.
Abbreviation gamma :=
  (perceptualGray (JS.Number_of_int r) (JS.Number_of_int g)
     (JS.Number_of_int b)).

Lemma uniform_grayStep s i :
  (i < n)%nat ->
  histogram (grayStep data s (4 * i)) = bump (histogram s) gamma.
Proof.
  intros Hi. cbn [grayStep histogram].
  destruct (frame_lookup data width height frame i 0) as [E0 _];
    [assumption|lia|].
  destruct (frame_lookup data width height frame i 1) as [E1 _];
    [assumption|lia|].
  destruct (frame_lookup data width height frame i 2) as [E2 _];
    [assumption|lia|].
  destruct (uniform i Hi) as (Hr & Hg & Hb).
  rewrite Nat.add_0_r, Hr in E0. rewrite Hg in E1. rewrite Hb in E2.
  replace (4 * i)%nat with (i * 4)%nat by lia.
  rewrite E0, E1, E2. reflexivity.
Qed.

(** After [k] pixels of the same colour every bin is empty or holds the
    [k] pixels. *)
Lemma uniform_histogram k :
  (k <= n)%nat ->
  forall t, bin (histogram (grayUpTo data n k)) t = 0 \/
            bin (histogram (grayUpTo data n k)) t = Z.of_nat k.
Proof.
  intros Hk.
  assert (length (histogram (grayUpTo data n k)) = 256%nat /\
          match JS.array_index gamma with
          | Some key =>
              if key <? 256 then
                forall t, bin (histogram (grayUpTo data n k)) t
                          = if (t =? Z.to_nat key)%nat then Z.of_nat k else 0
              else forall t, bin (histogram (grayUpTo data n k)) t = 0
          | None => forall t, bin (histogram (grayUpTo data n k)) t = 0
          end) as [_ H].
  { induction k as [|k IH].
    - split; [apply length_replicate|].
      assert (forall t, bin (histogram (grayUpTo data n 0)) t = 0) as Hz
        by (intros t; apply bin_replicate_0).
      destruct (JS.array_index gamma) as [key|]; [|assumption].
      destruct (key <? 256); [|assumption].
      intros t. rewrite Hz. destruct (_ =? _)%nat; reflexivity.
    - destruct IH as [Hl IH]; [lia|].
      unfold grayUpTo in *. rewrite seq_S, fold_left_app.
      cbn [fold_left]. change (0 + k)%nat with k.
      rewrite uniform_grayStep by lia. rewrite bump_length.
      split; [assumption|].
      remember (histogram (fold_left (fun s j => grayStep data s (4 * j))
                  (seq 0 k) (mkPass1 (replicate n 0) (replicate 256 0))))
        as hist eqn:Eh. clear Eh.
      unfold bump.
      destruct (JS.array_index gamma) as [key|] eqn:Ek; [|assumption].
      destruct (Z.ltb_spec key 256) as [Hlt|Hge]; [|assumption].
      assert (0 <= key) as Hk0.
      { unfold JS.array_index in Ek.
        destruct (Prim2SF gamma) as [| | |[] m e]; try discriminate.
        - injection Ek as <-. lia.
        - destruct (0 <=? e) eqn:Ee.
          + injection Ek as <-. apply Z.leb_le in Ee.
            pose proof (Z.pow_nonneg 2 e ltac:(lia)). nia.
          + destruct (_ =? 0); [|discriminate]. injection Ek as <-.
            apply Z.leb_gt in Ee.
            apply Z.div_pos; [lia|]. apply Z.pow_pos_nonneg; lia. }
      intros t. unfold bin in *.
      destruct (Nat.eqb_spec t (Z.to_nat key)) as [->|Hne].
      + rewrite list_lookup_alter_eq. specialize (IH (Z.to_nat key)).
        rewrite Nat.eqb_refl in IH.
        destruct (lookup_lt_is_Some_2 hist (Z.to_nat key)) as [v Hv]; [lia|].
        rewrite Hv in IH |- *. cbn in *. lia.
      + rewrite list_lookup_alter_ne by congruence. specialize (IH t).
        apply Nat.eqb_neq in Hne. rewrite Hne in IH. exact IH. }
  intros t. destruct (JS.array_index gamma) as [key|]; [|left; apply H].
  destruct (key <? 256); [|left; apply H].
  rewrite H. destruct (_ =? _)%nat; [right|left]; reflexivity.
Qed.

Lemma uniform_threshold : finalThresholdOf data width height = 30.
Proof.
  unfold finalThresholdOf. cbv zeta.
  rewrite grayPass_grayUpTo, (frame_steps data width height frame).
  assert (computeOtsuThreshold (histogram (grayUpTo data n n)) (Z.of_nat n)
          = 0) as ->; [|reflexivity].
  unfold computeOtsuThreshold. cbv zeta.
  rewrite otsuLoop_degenerate; [reflexivity..|].
  apply Forall_seq. intros t _. apply uniform_histogram. lia.
Qed.

Lemma uniform_shadowAt idx :
  (idx < n)%nat ->
  shadowAt data (grayscale (grayPass data n))
    (finalThresholdOf data width height) idx
  = spec_isShadow 30 r g b.
Proof.
  intros Hi. rewrite (frame_shadowAt data width height frame) by assumption.
  destruct (uniform idx Hi) as (-> & -> & ->). rewrite uniform_threshold.
  reflexivity.
Qed.

End UniformFrame.

(** X6.  On a well-formed frame whose pixels all have the same colour
    (r, g, b), Otsu's method selects nothing, the final threshold is the
    floor 30, and the frame is classified as a whole: pixelCount is
    width * height when the colour passes the test with threshold 30, and
    0 otherwise. *)
Theorem uniform_frame_all_or_nothing (data : list Z) (width height : nat)
    (r g b : Z) :
  well_formed data width height ->
  (forall idx, (idx < width * height)%nat ->
     channel data idx 0 = r /\ channel data idx 1 = g /\
     channel data idx 2 = b) ->
  finalThresholdOf data width height = 30 /\
  exists d ctx',
    generateShadowMask (mkContext (Some data)) width height = Some (d, ctx') /\
    count d = if spec_isShadow 30 r g b then Z.of_nat (width * height) else 0.
Proof.
  intros Hwf Hu.
  split; [apply (uniform_threshold data width height r g b); assumption|].
  do 2 eexists. split; [apply generateShadowMask_unfold|].
  assert (shadowPixelCount (maskOf data width height)
          = if spec_isShadow 30 r g b then Z.of_nat (width * height) else 0)
    as E.
  { unfold maskOf. rewrite count_maskUpTo.
    replace (height * width)%nat with (width * height)%nat by lia.
    destruct (spec_isShadow 30 r g b) eqn:Es.
    - rewrite filter_all, length_seq; [reflexivity|].
      intros j Hj. apply in_seq in Hj.
      rewrite (uniform_shadowAt data width height r g b) by (assumption || lia).
      assumption.
    - rewrite filter_none; [reflexivity|].
      intros j Hj. apply in_seq in Hj.
      rewrite (uniform_shadowAt data width height r g b) by (assumption || lia).
      assumption. }
  remember (maskOf data width height) as p2 eqn:Ep2. clear Ep2.
  unfold summary. cbn [count]. exact E.
Qed.

Lemma uniform_frame_all_or_nothing_witness :
  let data := [50; 50; 50; 255; 50; 50; 50; 255] in
  well_formed data 2 1 /\
  (forall idx, (idx < 2 * 1)%nat ->
     channel data idx 0 = 50 /\ channel data idx 1 = 50 /\
     channel data idx 2 = 50) /\
  finalThresholdOf data 2 1 = 30 /\
  exists d ctx',
    generateShadowMask (mkContext (Some data)) 2 1 = Some (d, ctx') /\
    count d = if spec_isShadow 30 50 50 50 then Z.of_nat (2 * 1) else 0.
Proof.
  intros data.
  assert (well_formed data 2 1) as Hwf.
  { split; [reflexivity|]. repeat constructor; unfold is_byte; lia. }
  assert (forall idx, (idx < 2 * 1)%nat ->
            channel data idx 0 = 50 /\ channel data idx 1 = 50 /\
            channel data idx 2 = 50) as Hu.
  { intros [|[|idx]] Hidx; [repeat split..|lia]. }
  split; [exact Hwf|]. split; [exact Hu|].
  exact (uniform_frame_all_or_nothing data 2 1 50 50 50 Hwf Hu).
Defined.

(** ** The saturation of a pixel of bytes *)

Lemma sat_range_table : all_pairs sat_range_ok = true.
Proof. vm_compute. reflexivity. Qed.

Lemma getSaturation_bytes r g b :
  is_byte r -> is_byte g -> is_byte b ->
  getSaturation (JS.Number_of_int r) (JS.Number_of_int g) (JS.Number_of_int b)
  = saturationOf (JS.Number_of_int (Z.max (Z.max r g) b))
      (JS.Number_of_int (Z.min (Z.min r g) b)).
Proof.
  intros Hr Hg Hb. unfold getSaturation, JS.Math_max, JS.Math_min.
  assert (is_byte (Z.max r g)) as Hmx by (unfold is_byte in *; lia).
  assert (is_byte (Z.min r g)) as Hmn by (unfold is_byte in *; lia).
  rewrite (max2_bytes r g), (max2_bytes (Z.max r g) b) by assumption.
  rewrite (min2_bytes r g), (min2_bytes (Z.min r g) b) by assumption.
  reflexivity.
Qed.

(** X7.  For every pixel of bytes the saturation [getSaturation] computes
    (in binary64) lies in [0, 255]; it is 0 exactly when the three
    channels are equal, and 255 exactly when the smallest channel is 0 and
    the largest is not. *)
Theorem getSaturation_range (r g b : Z) :
  is_byte r -> is_byte g -> is_byte b ->
  let s :=
    getSaturation (JS.Number_of_int r) (JS.Number_of_int g)
      (JS.Number_of_int b) in
  (0 <=? s)%float = true /\ (s <=? 255)%float = true /\
  ((s =? 0)%float = true <-> r = g /\ g = b) /\
  ((s =? 255)%float = true
   <-> Z.min (Z.min r g) b = 0 /\ 0 < Z.max (Z.max r g) b).
Proof.
  intros Hr Hg Hb. cbv zeta. rewrite getSaturation_bytes by assumption.
  assert (is_byte (Z.max (Z.max r g) b)) as Hmx by (unfold is_byte in *; lia).
  assert (is_byte (Z.min (Z.min r g) b)) as Hmn by (unfold is_byte in *; lia).
  pose proof (all_pairs_bytes _ _ _ sat_range_table Hmx Hmn) as H.
  unfold sat_range_ok in H. cbn [fst snd] in H.
  replace (Z.min (Z.min r g) b <=? Z.max (Z.max r g) b) with true in H
    by (symmetry; apply Z.leb_le; lia).
  cbv zeta in H.
  apply andb_true_iff in H as [H H255]. apply andb_true_iff in H as [H H0].
  apply andb_true_iff in H as [Hlo Hhi].
  apply eqb_prop in H0, H255.
  split; [assumption|]. split; [assumption|]. split.
  - rewrite H0, Z.eqb_eq. unfold is_byte in *. lia.
  - rewrite H255, andb_true_iff, Z.eqb_eq, Z.ltb_lt. reflexivity.
Qed.

Lemma getSaturation_range_witness :
  is_byte 200 /\ is_byte 40 /\ is_byte 0 /\
  (getSaturation (JS.Number_of_int 200) (JS.Number_of_int 40)
     (JS.Number_of_int 0) =? 255)%float = true.
Proof.
  assert (is_byte 200 /\ is_byte 40 /\ is_byte 0) as (Hr & Hg & Hb)
    by (unfold is_byte; lia).
  split; [exact Hr|]. split; [exact Hg|]. split; [exact Hb|].
  destruct (getSaturation_range 200 40 0 Hr Hg Hb) as (_ & _ & _ & H).
  apply H. split; [reflexivity|]. cbn. lia.
Defined.

(** ** The histogram of a frame *)

Section FrameHistogram.
Variables (data : list Z) (width height : nat).
Hypothesis frame : well_formed data width height.

Abbreviation n := (width * height)%nat.
Abbreviation gray :=
  (fun idx => spec_gray (channel data idx 0) (channel data idx 1)
                (channel data idx 2)).

Lemma frame_gray_level idx :
  (idx < n)%nat -> is_byte (gray idx).
Proof.
  intros Hi.
  destruct (frame_lookup data width height frame idx 0) as [_ B0];
    [assumption|lia|].
  destruct (frame_lookup data width height frame idx 1) as [_ B1];
    [assumption|lia|].
  destruct (frame_lookup data width height frame idx 2) as [_ B2];
    [assumption|lia|].
  apply gray_level; assumption.
Qed.

Lemma frame_grayStep s i :
  (i < n)%nat ->
  histogram (grayStep data s (4 * i))
  = alter Z.succ (Z.to_nat (gray i)) (histogram s).
Proof.
  intros Hi. cbn [grayStep histogram].
  destruct (frame_lookup data width height frame i 0) as [E0 B0];
    [assumption|lia|].
  destruct (frame_lookup data width height frame i 1) as [E1 B1];
    [assumption|lia|].
  destruct (frame_lookup data width height frame i 2) as [E2 B2];
    [assumption|lia|].
  rewrite Nat.add_0_r in E0.
  replace (4 * i)%nat with (i * 4)%nat by lia.
  rewrite E0, E1, E2. cbn [JS.Number_of]. unfold bump.
  destruct (gray_level _ _ _ B0 B1 B2) as [Hb ->].
  replace (_ <? 256) with true
    by (symmetry; apply Z.ltb_lt; unfold is_byte in Hb; lia).
  reflexivity.
Qed.

Lemma frame_histogram_upTo k :
  (k <= n)%nat ->
  length (histogram (grayUpTo data n k)) = 256%nat /\
  (forall t, bin (histogram (grayUpTo data n k)) t
             = countBelow (fun idx => gray idx =? Z.of_nat t) k) /\
  binTotal (histogram (grayUpTo data n k)) = Z.of_nat k.
Proof.
  induction k as [|k IH]; intros Hk.
  - split; [apply length_replicate|]. split.
    + intros t. apply bin_replicate_0.
    + apply binTotal_replicate_0.
  - destruct IH as (Hl & Hb & Ht); [lia|].
    unfold grayUpTo in *. rewrite seq_S, fold_left_app.
    cbn [fold_left]. change (0 + k)%nat with k.
    rewrite frame_grayStep by lia.
    remember (histogram (fold_left (fun s j => grayStep data s (4 * j))
                (seq 0 k) (mkPass1 (replicate n 0) (replicate 256 0))))
      as hist eqn:Eh. clear Eh.
    pose proof (frame_gray_level k ltac:(lia)) as Hg. unfold is_byte in Hg.
    rewrite length_alter. split; [assumption|]. split.
    + intros t. rewrite countBelow_S, <- Hb. unfold bin.
      destruct (Z.eqb_spec (gray k) (Z.of_nat t)) as [E|E].
      * replace (Z.to_nat (gray k)) with t by lia.
        rewrite list_lookup_alter_eq.
        destruct (lookup_lt_is_Some_2 hist t) as [v Hv]; [lia|].
        rewrite Hv. cbn. lia.
      * rewrite list_lookup_alter_ne by lia. lia.
    + rewrite binTotal_alter.
      replace (_ <? _)%nat with true by (symmetry; apply Nat.ltb_lt; lia).
      lia.
Qed.

End FrameHistogram.

(** X8.  On every well-formed frame the gray level of every pixel is an
    integer of 0..255, bin t of the 256-bin histogram is the number of
    pixels whose gray level is t, and the bins add up to width * height:
    every pixel is counted once. *)
Theorem histogram_counts_pixels (data : list Z) (width height : nat) :
  well_formed data width height ->
  let hist := histogram (grayPass data (width * height)) in
  let gray idx :=
    spec_gray (channel data idx 0) (channel data idx 1) (channel data idx 2) in
  length hist = 256%nat /\
  (forall idx, (idx < width * height)%nat -> 0 <= gray idx <= 255) /\
  (forall t, bin hist t
             = countBelow (fun idx => gray idx =? Z.of_nat t)
                 (width * height)) /\
  weightBelow hist 256 = Z.of_nat (width * height).
Proof.
  intros Hwf hist gray. subst hist.
  rewrite grayPass_grayUpTo, (frame_steps data width height Hwf).
  destruct (frame_histogram_upTo data width height Hwf (width * height)
              (le_n _)) as (Hl & Hb & Ht).
  split; [assumption|]. split; [|split].
  - intros idx Hi. apply (frame_gray_level data width height Hwf idx Hi).
  - exact Hb.
  - rewrite weightBelow_all by lia. assumption.
Qed.

Lemma histogram_counts_pixels_witness :
  let data := [10; 10; 10; 255; 200; 40; 40; 255] in
  well_formed data 2 1 /\
  bin (histogram (grayPass data (2 * 1))) 10 = 1 /\
  weightBelow (histogram (grayPass data (2 * 1))) 256 = Z.of_nat (2 * 1).
Proof.
  intros data.
  assert (well_formed data 2 1) as Hwf.
  { split; [reflexivity|]. repeat constructor; unfold is_byte; lia. }
  split; [exact Hwf|].
  destruct (histogram_counts_pixels data 2 1 Hwf) as (_ & _ & Hb & Ht).
  split; [|exact Ht]. rewrite Hb. vm_compute. reflexivity.
Defined.

(** ** The first mask generator *)

Module FixedThresholdFacts.
Import FixedThreshold.

Lemma fold_left_flat_map {A B C} (f : A -> B -> A) (g : C -> list B) l a :
  fold_left f (flat_map g l) a
  = fold_left (fun a c => fold_left f (g c) a) l a.
Proof.
  revert a. induction l as [|c l IH]; intros a; [reflexivity|].
  cbn [flat_map fold_left]. rewrite fold_left_app. apply IH.
Qed.

Lemma fold_left_pointwise {A B} (f g : A -> B -> A) l a :
  (forall a b, f a b = g a b) -> fold_left f l a = fold_left g l a.
Proof.
  intros H. revert a. induction l as [|b l IH]; intros a; [reflexivity|].
  cbn [fold_left]. rewrite H. apply IH.
Qed.

(** The two nested loops visit the pixels of [interior], in order. *)
Lemma maskPass_interior gs width height data :
  maskPass gs width height data
  = fold_left (visit gs) (interior width height) (mkPass 0 data).
Proof.
  unfold maskPass, interior. rewrite fold_left_flat_map.
  apply fold_left_pointwise. intros s y. unfold maskRow.
  rewrite fold_left_map. reflexivity.
Qed.

Lemma in_interior width height idx :
  In idx (interior width height) <->
  exists y x, idx = (y * width + x)%nat /\
              (1 <= y < height - 1)%nat /\ (1 <= x < width - 1)%nat.
Proof.
  unfold interior. rewrite in_flat_map. split.
  - intros (y & Hy & Hin). apply in_seq in Hy. apply in_map_iff in Hin.
    destruct Hin as (x & <- & Hx). apply in_seq in Hx.
    exists y, x. split; [reflexivity|]. lia.
  - intros (y & x & -> & Hy & Hx). exists y. split; [apply in_seq; lia|].
    apply in_map_iff. exists x. split; [reflexivity|]. apply in_seq. lia.
Qed.

Lemma length_interior width height :
  length (interior width height) = ((width - 2) * (height - 2))%nat.
Proof.
  unfold interior.
  assert (forall ys : list nat,
            length (flat_map
              (fun y => map (fun x => (y * width + x)%nat)
                          (seq 1 (width - 2))) ys)
            = ((width - 2) * length ys)%nat) as H.
  { induction ys as [|y ys IH]; [cbn; lia|].
    cbn [flat_map]. rewrite length_app, length_map, length_seq, IH.
    cbn [length]. lia. }
  rewrite H, length_seq. reflexivity.
Qed.

Section Visits.
Variable gs : list Z.

Lemma visit_length s idx :
  length (pixels (visit gs s idx)) = length (pixels s).
Proof.
  unfold visit. destruct (darkAt gs idx); cbn [pixels]; apply paint_length.
Qed.

Lemma visits_length l s :
  length (pixels (fold_left (visit gs) l s)) = length (pixels s).
Proof.
  revert s. induction l as [|idx l IH]; intros s; [reflexivity|].
  cbn [fold_left]. rewrite IH. apply visit_length.
Qed.

Lemma paint_lookup_other l idx v i :
  (i / 4)%nat <> idx -> paint l idx v !! i = l !! i.
Proof.
  intros Hne.
  destruct (Nat.lt_ge_cases i (idx * 4)) as [Hlt|Hge];
    [apply paint_lookup_lt; assumption|].
  apply paint_lookup_ge.
  destruct (Nat.lt_ge_cases i (idx * 4 + 4)) as [Hlt|Hge']; [|assumption].
  exfalso. apply Hne. symmetry.
  apply (Nat.div_unique _ _ _ (i - idx * 4)); lia.
Qed.

(** A byte of a pixel that is not visited keeps its value. *)
Lemma visits_untouched l s i :
  ~ In (i / 4)%nat l ->
  pixels (fold_left (visit gs) l s) !! i = pixels s !! i.
Proof.
  revert s. induction l as [|idx l IH]; intros s Hn; [reflexivity|].
  cbn [fold_left]. rewrite IH by (intros H; apply Hn; right; exact H).
  unfold visit. destruct (darkAt gs idx); cbn [pixels];
    apply paint_lookup_other; intros E; apply Hn; left; congruence.
Qed.

(** A visited pixel that lies in the buffer holds the colour of its
    test. *)
Lemma visits_painted l s idx c :
  In idx l -> (c < 4)%nat -> (idx * 4 + 3 < length (pixels s))%nat ->
  pixels (fold_left (visit gs) l s) !! (idx * 4 + c)%nat
  = Some (maskColour (darkAt gs idx) c).
Proof.
  revert s. induction l as [|j l IH]; intros s Hin Hc Hl; [destruct Hin|].
  cbn [fold_left]. destruct (in_dec Nat.eq_dec idx l) as [Hl'|Hl'].
  - apply IH; [assumption..|]. rewrite visit_length. assumption.
  - destruct Hin as [->|Hin]; [|contradiction].
    rewrite visits_untouched.
    + unfold visit, maskColour.
      destruct (darkAt gs idx); cbn [pixels];
        rewrite paint_lookup_at by assumption; reflexivity.
    + replace ((idx * 4 + c) / 4)%nat with idx; [assumption|].
      apply (Nat.div_unique _ _ _ c); lia.
Qed.

Lemma visits_count l s :
  shadowPixelCount (fold_left (visit gs) l s)
  = shadowPixelCount s
    + Z.of_nat (length (filter (fun idx => darkAt gs idx = true) l)).
Proof.
  revert s. induction l as [|idx l IH]; intros s; [cbn; lia|].
  cbn [fold_left]. rewrite IH, filter_cons. unfold visit.
  destruct (darkAt gs idx) eqn:E; destruct (decide _) as [Hd|Hd];
    try congruence; cbn [shadowPixelCount length]; lia.
Qed.

End Visits.

Lemma fixed_mask_unfold data width height :
  generateShadowMask (mkContext (Some data)) width height
  = let p := fold_left (visit (grayPass data (width * height)))
               (interior width height) (mkPass 0 data) in
    Some (shadowPixelCount p, mkContext (Some (pixels p))).
Proof.
  unfold generateShadowMask, putImageData. cbn [getImageData surface].
  cbv zeta. rewrite maskPass_interior. reflexivity.
Qed.

Lemma border_not_interior width height x y :
  (x < width)%nat ->
  (x = 0 \/ x = width - 1 \/ y = 0 \/ y = height - 1)%nat ->
  ~ In (y * width + x)%nat (interior width height).
Proof.
  intros Hx Hb Hin. apply in_interior in Hin as (y' & x' & E & Hy' & Hx').
  assert (x = x' /\ y = y') as [-> ->]; [|lia].
  assert (width <> 0)%nat by lia.
  split.
  - transitivity ((y * width + x) mod width)%nat.
    + rewrite Nat.add_comm, Nat.Div0.mod_add, Nat.mod_small; lia.
    + rewrite E, Nat.add_comm, Nat.Div0.mod_add, Nat.mod_small; lia.
  - transitivity ((y * width + x) / width)%nat.
    + rewrite Nat.add_comm, Nat.div_add, Nat.div_small by lia. lia.
    + rewrite E, Nat.add_comm, Nat.div_add, Nat.div_small by lia. lia.
Qed.

(** X20.  The first mask generator never classifies or repaints the
    border of the frame: whatever the buffer holds, the mask has the length
    of the buffer, the bytes of every pixel of the first and last row and
    column are left as they were, the count is at most
    (width - 2) * (height - 2), and on a frame narrower or lower than 3
    pixels the count is 0 and the canvas is unchanged. *)
Theorem border_left_untouched (data : list Z) (width height : nat) :
  exists n mask,
    generateShadowMask (mkContext (Some data)) width height
    = Some (n, mkContext (Some mask)) /\
    length mask = length data /\
    0 <= n <= Z.of_nat ((width - 2) * (height - 2)) /\
    (forall x y c, (x < width)%nat -> (c < 4)%nat ->
       (x = 0 \/ x = width - 1 \/ y = 0 \/ y = height - 1)%nat ->
       mask !! ((y * width + x) * 4 + c)%nat
       = data !! ((y * width + x) * 4 + c)%nat) /\
    ((width < 3 \/ height < 3)%nat -> n = 0 /\ mask = data).
Proof.
  do 2 eexists. split; [apply fixed_mask_unfold|]. cbv zeta.
  split; [apply visits_length|]. split; [|split].
  - rewrite visits_count. cbn [shadowPixelCount].
    pose proof (length_filter
                  (fun idx => darkAt (grayPass data (width * height)) idx = true)
                  (interior width height)) as Hle.
    rewrite length_interior in Hle. lia.
  - intros x y c Hx Hc Hb. rewrite visits_untouched; [reflexivity|].
    replace (((y * width + x) * 4 + c) / 4)%nat with (y * width + x)%nat
      by (apply (Nat.div_unique _ _ _ c); lia).
    apply border_not_interior; assumption.
  - intros Hsmall.
    assert (interior width height = []) as ->.
    { apply length_zero_iff_nil. rewrite length_interior. nia. }
    split; reflexivity.
Qed.

(** Entry [idx] of [grayscale] is the stored luminance of pixel [idx]. *)
Lemma grayPass_lookup data numPixels idx :
  (idx < numPixels)%nat -> (idx < (length data + 3) / 4)%nat ->
  grayPass data numPixels !! idx = Some (storedGray data idx).
Proof.
  intros Hn Hk. unfold grayPass, by4. rewrite fold_left_map.
  revert Hk.
  apply (for_loop_invariant
    (fun k gs => length gs = numPixels /\
       ((idx < k)%nat -> gs !! idx = Some (storedGray data idx)))).
  - split; [apply length_replicate|lia].
  - intros i gs Hi (Hl & Hs). unfold grayStep. cbv zeta.
    rewrite length_insert. split; [assumption|]. intros Hlt.
    replace (4 * i / 4)%nat with i by (rewrite Nat.mul_comm, Nat.div_mul; lia).
    destruct (Nat.eq_dec i idx) as [->|Hne].
    + rewrite list_lookup_insert_eq by lia. unfold storedGray.
      replace (4 * idx)%nat with (idx * 4)%nat by lia. reflexivity.
    + rewrite list_lookup_insert_ne by assumption. apply Hs. lia.
Qed.

Lemma filter_eq_on (P Q : nat -> bool) l :
  (forall j, In j l -> P j = Q j) ->
  filter (fun j => P j = true) l = filter (fun j => Q j = true) l.
Proof.
  induction l as [|j l IH]; intros H; [reflexivity|].
  rewrite !filter_cons, (H j) by (left; reflexivity).
  rewrite IH by (intros i Hi; apply H; right; exact Hi). reflexivity.
Qed.

(** X21.  On every well-formed frame the first mask generator paints an
    interior pixel black iff its stored luminance (the binary64 luminance
    rounded and clamped by the [Uint8ClampedArray]) is below 60, white
    otherwise, with full opacity; the count it returns is the number of
    interior pixels painted black. *)
Theorem interior_classification (data : list Z) (width height : nat) :
  well_formed data width height ->
  let dark idx := storedGray data idx <? threshold in
  exists n mask,
    generateShadowMask (mkContext (Some data)) width height
    = Some (n, mkContext (Some mask)) /\
    n = Z.of_nat (length (filter (fun idx => dark idx = true)
                            (interior width height))) /\
    forall x y c, (1 <= x < width - 1)%nat -> (1 <= y < height - 1)%nat ->
      (c < 4)%nat ->
      mask !! ((y * width + x) * 4 + c)%nat
      = Some (maskColour (dark (y * width + x)%nat) c).
Proof.
  intros Hwf dark. do 2 eexists.
  split; [apply fixed_mask_unfold|]. cbv zeta.
  pose proof (frame_steps data width height Hwf) as Hsteps.
  destruct Hwf as [Hl _].
  assert (forall idx, In idx (interior width height) ->
            (idx < width * height)%nat /\
            darkAt (grayPass data (width * height)) idx = dark idx) as Hd.
  { intros idx Hin. apply in_interior in Hin as (y & x & -> & Hy & Hx).
    assert (y * width + x < width * height)%nat as Hi by nia.
    split; [assumption|]. unfold darkAt.
    rewrite grayPass_lookup by lia. reflexivity. }
  split.
  - rewrite visits_count. cbn [shadowPixelCount].
    rewrite (filter_eq_on _ dark) by (intros j Hj; apply Hd; assumption).
    reflexivity.
  - intros x y c Hx Hy Hc.
    assert (In (y * width + x)%nat (interior width height)) as Hin
      by (apply in_interior; exists y, x; split; [reflexivity|lia]).
    destruct (Hd _ Hin) as [Hi <-].
    apply visits_painted; [assumption..|]. cbn [pixels]. lia.
Qed.

Lemma interior_classification_witness :
  let data := replicate 36 10 in
  well_formed data 3 3 /\
  exists n mask,
    generateShadowMask (mkContext (Some data)) 3 3
    = Some (n, mkContext (Some mask)) /\
    n = 1 /\ mask !! ((1 * 3 + 1) * 4 + 0)%nat = Some 0.
Proof.
  intros data.
  assert (well_formed data 3 3) as Hwf.
  { split; [reflexivity|]. apply Forall_replicate. unfold is_byte. lia. }
  split; [exact Hwf|].
  destruct (interior_classification data 3 3 Hwf) as (n & mask & E & Hn & Hm).
  exists n, mask. split; [exact E|]. split.
  - rewrite Hn. vm_compute. reflexivity.
  - rewrite (Hm 1%nat 1%nat 0%nat) by lia. vm_compute. reflexivity.
Defined.

End FixedThresholdFacts.

(** ** The frame loop *)

Module FrameLoopFacts.
Import CameraAnalysis CameraAnalysisFacts.
#[local] Open Scope R_scope.

Lemma processFrames_snoc frames data :
  processFrames (frames ++ [data]) = observe (processFrames frames) data.
Proof. unfold processFrames. rewrite fold_left_app. reflexivity. Qed.

Lemma tail_drop {A} (l : list A) : tail l = drop 1 l.
Proof. destruct l; [reflexivity|]. cbn. rewrite drop_0. reflexivity. Qed.

(** The state of the tracker after any sequence of frames. *)
Lemma processFrames_state (frames : list ShadowData) :
  let st := processFrames frames in
  frameHistory st
  = drop (length frames - 25) (map currentFrame frames) /\
  ((length frames <= 25)%nat -> isStable st = false) /\
  ((26 <= length frames)%nat ->
   length (frameHistory st) = 25%nat /\
   isStable st = verdict (frameHistory st)).
Proof.
  cbv zeta. induction frames as [|data frames IH] using rev_ind.
  - split; [reflexivity|]. split; [reflexivity|]. cbn. lia.
  - destruct IH as (Hh & Hs & Hv).
    rewrite processFrames_snoc, length_app, map_app. cbn [length map].
    unfold observe. rewrite Hh, length_app, length_drop, length_map.
    cbn [length].
    destruct (Nat.ltb_spec 25 (length frames - (length frames - 25) + 1))
      as [Hfull|Hfill]; cbn [frameHistory isStable].
    + assert (25 <= length frames)%nat as Hn by lia.
      assert (tail (drop (length frames - 25) (map currentFrame frames)
                    ++ [currentFrame data])
              = drop (length frames + 1 - 25)
                  (map currentFrame frames ++ [currentFrame data])) as E.
      { rewrite tail_drop, <- drop_app_le by (rewrite length_map; lia).
        rewrite drop_drop. f_equal. lia. }
      rewrite E. split; [reflexivity|]. split; [lia|].
      intros _. split; [|reflexivity].
      rewrite length_drop, length_app, length_map. cbn [length]. lia.
    + assert (length frames < 25)%nat as Hn by lia.
      replace (length frames + 1 - 25)%nat with 0%nat by lia.
      replace (length frames - 25)%nat with 0%nat by lia.
      rewrite !drop_0. split; [reflexivity|]. split; [|lia].
      intros _. apply Hs. lia.
Qed.

(** X9.  After any sequence of frames the history holds the statistics of
    the last 25 of them (of all of them while there are fewer), in order;
    [isStable] is false as long as at most 25 frames have been processed,
    and from the 26th frame on it is the verdict on the 25 frames the
    history holds. *)
Theorem processFrames_window (frames : list ShadowData) :
  let st := processFrames frames in
  frameHistory st
  = drop (length frames - 25) (map currentFrame frames) /\
  ((length frames <= 25)%nat -> isStable st = false) /\
  ((26 <= length frames)%nat ->
   length (frameHistory st) = 25%nat /\
   isStable st = verdict (frameHistory st)).
Proof. exact (processFrames_state frames). Qed.

(** *** Means of bounded values *)

Lemma total_le xs b :
  Forall (fun x => x <= b) xs -> total xs <= INR (length xs) * b.
Proof.
  induction 1 as [|x xs Hx _ IH].
  - cbn. lra.
  - change (total (x :: xs)) with (x + total xs).
    change (length (x :: xs)) with (S (length xs)). rewrite S_INR. lra.
Qed.

Lemma total_ge xs b :
  Forall (fun x => b <= x) xs -> INR (length xs) * b <= total xs.
Proof.
  induction 1 as [|x xs Hx _ IH].
  - cbn. lra.
  - change (total (x :: xs)) with (x + total xs).
    change (length (x :: xs)) with (S (length xs)). rewrite S_INR. lra.
Qed.

Lemma getStats_mean_total xs :
  mean (getStats xs) = total xs / INR (length xs).
Proof.
  unfold getStats. cbn [mean]. rewrite (reduce_total (fun b => b)), map_id.
  f_equal. lra.
Qed.

Lemma mean_le xs b :
  0 <= b -> Forall (fun x => x <= b) xs -> mean (getStats xs) <= b.
Proof.
  intros Hb H. rewrite getStats_mean_total. pose proof (total_le xs b H) as Ht.
  destruct xs as [|x xs].
  - cbn. unfold Rdiv. rewrite Rmult_0_l. assumption.
  - assert (0 < INR (length (x :: xs))) as Hpos
      by (apply lt_0_INR; cbn; lia).
    apply Rmult_le_reg_r with (r := INR (length (x :: xs))); [assumption|].
    unfold Rdiv. rewrite Rmult_assoc, Rinv_l by lra. lra.
Qed.

Lemma mean_ge xs b :
  xs <> [] -> Forall (fun x => b <= x) xs -> b <= mean (getStats xs).
Proof.
  intros Hne H. rewrite getStats_mean_total. pose proof (total_ge xs b H) as Ht.
  destruct xs as [|x xs]; [congruence|].
  assert (0 < INR (length (x :: xs))) as Hpos
    by (apply lt_0_INR; cbn; lia).
  apply Rmult_le_reg_r with (r := INR (length (x :: xs))); [assumption|].
  unfold Rdiv. rewrite Rmult_assoc, Rinv_l by lra. lra.
Qed.

Lemma Rltb_false x y : y <= x -> Rltb x y = false.
Proof. intros H. unfold Rltb. destruct (Rlt_dec x y); [lra|reflexivity]. Qed.

Lemma verdict_small_area history :
  Forall (fun f => area f <= 150) history -> verdict history = false.
Proof.
  intros H. unfold verdict.
  rewrite (Rltb_false 150 (mean (getStats (map area history))));
    [reflexivity|].
  apply mean_le; [lra|]. apply Forall_map. exact H.
Qed.

Lemma verdict_bright history :
  Forall (fun f => 65 <= intensity f) history -> verdict history = false.
Proof.
  intros H. unfold verdict.
  destruct history as [|f history].
  - rewrite (Rltb_false 150 _); [reflexivity|].
    cbn. unfold Rdiv. rewrite Rmult_0_l. lra.
  - rewrite (Rltb_false (mean (getStats (map intensity (f :: history)))) 65).
    + rewrite !andb_false_r. reflexivity.
    + apply mean_ge; [discriminate|]. apply Forall_map. exact H.
Qed.

(** X10.  A sequence of frames in which no summary has more than 150
    shadow pixels never makes the tracker stable, however long and however
    steady it is; neither does a sequence in which every summary has an
    average intensity of 65 or more. *)
Theorem faint_or_bright_never_stable (frames : list ShadowData) :
  (Forall (fun d => (count d <= 150)%Z) frames \/
   Forall (fun d => (65 <= avgIntensity d)%Q) frames) ->
  isStable (processFrames frames) = false.
Proof.
  intros H.
  assert (Forall (fun f => area f <= 150) (map currentFrame frames) \/
          Forall (fun f => 65 <= intensity f) (map currentFrame frames)) as H'.
  { destruct H as [H|H]; [left|right]; apply Forall_map;
      eapply Forall_impl; try exact H; intros d Hd; cbn.
    - apply IZR_le in Hd. exact Hd.
    - apply Qle_Rle in Hd.
      replace 65 with (Q2R 65); [exact Hd|]. unfold Q2R. cbn. lra. }
  clear H.
  destruct (processFrames_state frames) as (Hh & Hs & Hv).
  destruct (Nat.le_gt_cases (length frames) 25) as [Hn|Hn]; [auto|].
  destruct Hv as [_ ->]; [lia|]. rewrite Hh.
  destruct H' as [H|H].
  - apply verdict_small_area. apply Forall_drop. exact H.
  - apply verdict_bright. apply Forall_drop. exact H.
Qed.

Lemma faint_or_bright_never_stable_witness :
  let frames := replicate 30 (mkShadowData 100 10 10 20 20 40) in
  (Forall (fun d => (count d <= 150)%Z) frames \/
   Forall (fun d => (65 <= avgIntensity d)%Q) frames) /\
  isStable (processFrames frames) = false.
Proof.
  intros frames.
  assert (Forall (fun d => (count d <= 150)%Z) frames \/
          Forall (fun d => (65 <= avgIntensity d)%Q) frames) as H.
  { left. apply Forall_replicate. cbn. lia. }
  split; [exact H|]. exact (faint_or_bright_never_stable frames H).
Defined.

(** *** The statistics of a frame the segmenter has summarised *)

Lemma Q2R_inject_Z z : Q2R (inject_Z z) = IZR z.
Proof. unfold Q2R, inject_Z. cbn. lra. Qed.

Lemma intensity_bounds ctx width height d ctx' :
  generateShadowMask ctx width height = Some (d, ctx') ->
  0 <= Q2R (avgIntensity d) <= 79.
Proof.
  intros H. apply summary_bounds in H as (_ & _ & _ & [H0 H1]).
  apply Qle_Rle in H0, H1.
  change 0%Q with (inject_Z 0) in H0. change 79%Q with (inject_Z 79) in H1.
  rewrite Q2R_inject_Z in H0, H1. lra.
Qed.

(** X11.  The statistics [processFrame] derives from a summary the
    segmenter returned, on any canvas: the area is between 0 and
    width * height; width and height are never negative, and at most the
    canvas width - 1 and height - 1 when the area is positive; the
    centroid is the midpoint of the box and lies within it; the intensity
    lies in [0, 79]. *)
Theorem currentFrame_of_summary (ctx : CanvasRenderingContext2D)
    (w h : nat) (d : ShadowData) (ctx' : CanvasRenderingContext2D) :
  generateShadowMask ctx w h = Some (d, ctx') ->
  let f := currentFrame d in
  0 <= area f <= INR (w * h) /\
  0 <= width f /\ 0 <= height f /\
  (0 < area f -> width f <= INR w - 1 /\ height f <= INR h - 1) /\
  cx f = (IZR (minX d) + IZR (maxX d)) / 2 /\
  cy f = (IZR (minY d) + IZR (maxY d)) / 2 /\
  IZR (minX d) <= cx f <= IZR (maxX d) /\
  IZR (minY d) <= cy f <= IZR (maxY d) /\
  0 <= intensity f <= 79.
Proof.
  intros H. pose proof (intensity_bounds _ _ _ _ _ H) as Hi.
  apply summary_bounds in H as (Hc & Hz & Hp & _).
  cbv zeta. unfold currentFrame. cbn [area width height cx cy intensity].
  rewrite !INR_IZR_INZ.
  assert (0 <= IZR (minX d) <= IZR (maxX d) /\
          0 <= IZR (minY d) <= IZR (maxY d)) as (Hx & Hy).
  { destruct (Z.eq_dec (count d) 0%Z) as [E|E].
    - destruct (Hz E) as (-> & -> & -> & -> & _). lra.
    - destruct Hp as (Hx & _ & Hy & _); [lia|].
      repeat split; apply IZR_le; lia. }
  split; [split; apply IZR_le; lia|].
  split; [lra|]. split; [lra|]. split.
  - intros Hpos. apply lt_IZR in Hpos.
    destruct (Hp Hpos) as (Hx' & Hxw & Hy' & Hyh).
    assert (IZR (maxX d) <= IZR (Z.of_nat w) - 1).
    { replace (IZR (Z.of_nat w) - 1) with (IZR (Z.of_nat w - 1))
        by (rewrite minus_IZR; reflexivity). apply IZR_le. lia. }
    assert (IZR (maxY d) <= IZR (Z.of_nat h) - 1).
    { replace (IZR (Z.of_nat h) - 1) with (IZR (Z.of_nat h - 1))
        by (rewrite minus_IZR; reflexivity). apply IZR_le. lia. }
    lra.
  - repeat split; lra.
Qed.

Lemma currentFrame_of_summary_witness :
  let ctx := mkContext (Some [10; 10; 10; 255]%Z) in
  let d := mkShadowData 1 0 0 0 0 10 in
  let ctx' := mkContext (Some [0; 0; 0; 255]%Z) in
  generateShadowMask ctx 1 1 = Some (d, ctx') /\
  0 <= width (currentFrame d) /\ 0 <= intensity (currentFrame d) <= 79.
Proof.
  intros ctx d ctx'.
  assert (generateShadowMask ctx 1 1 = Some (d, ctx')) as E
    by (vm_compute; reflexivity).
  split; [exact E|].
  destruct (currentFrame_of_summary ctx 1 1 d ctx' E)
    as (_ & Hw & _ & _ & _ & _ & _ & _ & Hi).
  split; [exact Hw|exact Hi].
Defined.

(** X12.  For a summary the segmenter returned, on any canvas, the clamps
    of [shadowDensity] never act: the density is
    (1 - avgIntensity / 255) * 100, it is above 69 and at most 100, and it
    is 100 when no shadow pixel was found. *)
Theorem shadowDensity_of_summary (ctx : CanvasRenderingContext2D)
    (w h : nat) (d : ShadowData) (ctx' : CanvasRenderingContext2D) :
  generateShadowMask ctx w h = Some (d, ctx') ->
  shadowDensity (Some d) = (1 - Q2R (avgIntensity d) / 255) * 100 /\
  69 < shadowDensity (Some d) <= 100 /\
  (count d = 0%Z -> shadowDensity (Some d) = 100).
Proof.
  intros H. pose proof (intensity_bounds _ _ _ _ _ H) as Hi.
  apply summary_bounds in H as (_ & Hz & _ & _).
  assert (shadowDensity (Some d) = (1 - Q2R (avgIntensity d) / 255) * 100)
    as E.
  { unfold shadowDensity. rewrite Rmin_right by lra. apply Rmax_right. lra. }
  rewrite E. split; [reflexivity|]. split; [lra|].
  intros Hc. destruct (Hz Hc) as (_ & _ & _ & _ & ->).
  unfold Q2R. cbn. lra.
Qed.

Lemma shadowDensity_of_summary_witness :
  let ctx := mkContext (Some [10; 10; 10; 255]%Z) in
  let d := mkShadowData 1 0 0 0 0 10 in
  let ctx' := mkContext (Some [0; 0; 0; 255]%Z) in
  generateShadowMask ctx 1 1 = Some (d, ctx') /\
  69 < shadowDensity (Some d) <= 100.
Proof.
  intros ctx d ctx'.
  assert (generateShadowMask ctx 1 1 = Some (d, ctx')) as E
    by (vm_compute; reflexivity).
  split; [exact E|].
  destruct (shadowDensity_of_summary ctx 1 1 d ctx' E) as (_ & H & _).
  exact H.
Defined.

(** *** The warnings over the video *)

Lemma shadowDensity_lt d t :
  0 < t <= 100 ->
  (shadowDensity (Some d) < t <-> (1 - t / 100) * 255 < Q2R (avgIntensity d)).
Proof.
  intros Ht. unfold shadowDensity.
  set (a := Q2R (avgIntensity d)).
  set (e := (1 - a / 255) * 100).
  assert (e < t <-> (1 - t / 100) * 255 < a) as He by (unfold e; lra).
  rewrite <- He. clear He.
  destruct (Rle_dec 100 e) as [H100|H100];
    [rewrite Rmin_left by assumption|rewrite Rmin_right by lra].
  - rewrite Rmax_right by lra. lra.
  - destruct (Rle_dec 0 e) as [H0|H0];
      [rewrite Rmax_right by assumption|rewrite Rmax_left by lra]; lra.
Qed.

(** X23.  The warning over the video depends on the summary as follows:
    none for 50 shadow pixels or fewer; for more than 50, the critical
    warning is shown iff avgIntensity > 76.5, the caution iff
    51 < avgIntensity <= 76.5, and none iff avgIntensity <= 51. *)
Theorem warning_thresholds (d : ShadowData) :
  ((count d <= 50)%Z -> warning (Some d) = NoWarning) /\
  ((50 < count d)%Z ->
   (warning (Some d) = Critical <-> 76.5 < Q2R (avgIntensity d)) /\
   (warning (Some d) = Caution <-> 51 < Q2R (avgIntensity d) <= 76.5) /\
   (warning (Some d) = NoWarning <-> Q2R (avgIntensity d) <= 51)).
Proof.
  unfold warning. split.
  - intros Hc. replace (50 <? count d)%Z with false
      by (symmetry; apply Z.ltb_ge; assumption). reflexivity.
  - intros Hc. replace (50 <? count d)%Z with true
      by (symmetry; apply Z.ltb_lt; assumption).
    pose proof (shadowDensity_lt d 70 ltac:(lra)) as H70.
    pose proof (shadowDensity_lt d 80 ltac:(lra)) as H80.
    replace ((1 - 70 / 100) * 255) with 76.5 in H70 by lra.
    replace ((1 - 80 / 100) * 255) with 51 in H80 by lra.
    destruct (Rltb (shadowDensity (Some d)) 70) eqn:E70.
    + apply Rltb_true in E70. apply H70 in E70.
      repeat split; intros; try discriminate; lra.
    + assert (~ shadowDensity (Some d) < 70) as N70
        by (intros H; apply Rltb_true in H; congruence).
      assert (Q2R (avgIntensity d) <= 76.5) as A70
        by (apply Rnot_lt_le; intros H; apply N70, H70, H).
      destruct (Rltb (shadowDensity (Some d)) 80) eqn:E80.
      * apply Rltb_true in E80. apply H80 in E80.
        repeat split; intros; try discriminate; lra.
      * assert (~ shadowDensity (Some d) < 80) as N80
          by (intros H; apply Rltb_true in H; congruence).
        assert (Q2R (avgIntensity d) <= 51) as A80
          by (apply Rnot_lt_le; intros H; apply N80, H80, H).
        repeat split; intros; try discriminate; lra.
Qed.

End FrameLoopFacts.

(** ** The projection model *)

Module ProjectionFacts.
Import Constants ConstantsFacts CameraAnalysisFacts.
#[local] Open Scope R_scope.

(** The denominator of [calculateScale] is at least 0.1. *)
Lemma d_hand_positive L h : 0.1 <= Rmax 0.1 (L - h).
Proof. apply Rmax_l. Qed.

Lemma calculateScale_near L h :
  h <= L - 0.1 -> calculateScale L h = L / (L - h).
Proof.
  intros H. unfold calculateScale. rewrite Rmax_right by lra. reflexivity.
Qed.

Lemma calculateScale_far L h :
  L - 0.1 <= h -> calculateScale L h = 10 * L.
Proof.
  intros H. unfold calculateScale. rewrite Rmax_left by lra. lra.
Qed.

Lemma calculateScale_upper L h : 0 <= L -> calculateScale L h <= 10 * L.
Proof.
  intros HL. destruct (Rle_dec h (L - 0.1)) as [Hn|Hf].
  - rewrite calculateScale_near by assumption.
    assert (0 < L - h) by lra.
    apply Rmult_le_reg_r with (r := L - h); [assumption|].
    unfold Rdiv. rewrite Rmult_assoc, Rinv_l by lra. nra.
  - rewrite calculateScale_far by lra. lra.
Qed.

Lemma calculateScale_nonneg L h : 0 <= L -> 0 <= calculateScale L h.
Proof.
  intros HL. unfold calculateScale. pose proof (d_hand_positive L h).
  apply Rmult_le_pos; [assumption|]. left. apply Rinv_0_lt_compat. lra.
Qed.

Lemma calculateScale_mono L h1 h2 :
  0 <= L -> h1 <= h2 -> calculateScale L h1 <= calculateScale L h2.
Proof.
  intros HL Hh. unfold calculateScale.
  pose proof (d_hand_positive L h1). pose proof (d_hand_positive L h2).
  assert (Rmax 0.1 (L - h2) <= Rmax 0.1 (L - h1)) as Hd.
  { apply Rmax_lub; [apply Rmax_l|].
    eapply Rle_trans; [|apply Rmax_r]. lra. }
  unfold Rdiv. apply Rmult_le_compat_l; [assumption|].
  apply Rinv_le_contravar; [lra|assumption].
Qed.

(** X13.  [calculateScale] never divides by less than 0.1: for L >= 0 the
    scale lies in [0, 10 L]; it is L / (L - h) while the hand is at least
    0.1 away from the light and 10 L beyond; and it is at least 1 when
    h >= 0 and L >= 0.1. *)
Theorem calculateScale_bounds (L h : R) :
  0 <= L ->
  0 <= calculateScale L h <= 10 * L /\
  (0.1 <= L -> 0 <= h -> 1 <= calculateScale L h) /\
  (h <= L - 0.1 -> calculateScale L h = L / (L - h)) /\
  (L - 0.1 <= h -> calculateScale L h = 10 * L).
Proof.
  intros HL.
  split; [split; [apply calculateScale_nonneg|apply calculateScale_upper];
          assumption|].
  split; [|split; [apply calculateScale_near|apply calculateScale_far]].
  intros HL1 Hh. destruct (Rle_dec h (L - 0.1)) as [Hn|Hf].
  - rewrite calculateScale_near by assumption.
    assert (0 < L - h) by lra.
    apply Rmult_le_reg_r with (r := L - h); [assumption|].
    unfold Rdiv. rewrite Rmult_assoc, Rinv_l by lra. lra.
  - rewrite calculateScale_far by lra. lra.
Qed.

Lemma calculateScale_bounds_witness :
  0 <= 50 /\ 0 <= calculateScale 50 5 <= 10 * 50 /\
  calculateScale 50 5 = 50 / (50 - 5).
Proof.
  split; [lra|].
  destruct (calculateScale_bounds 50 5 ltac:(lra)) as (Hr & _ & Hn & _).
  split; [exact Hr|]. apply Hn. lra.
Defined.

(** X14.  For A_hand >= 0 and L >= 0 the projected shadow area never
    decreases as the hand moves away from the surface (h grows), never
    exceeds A_hand * (10 L)^2, and equals A_hand at h = 0 when
    L >= 0.1. *)
Theorem calculateShadowArea_monotone (A_hand L h1 h2 : R) :
  0 <= A_hand -> 0 <= L -> h1 <= h2 ->
  calculateShadowArea A_hand L h1 <= calculateShadowArea A_hand L h2 /\
  calculateShadowArea A_hand L h2 <= A_hand * (10 * L) ^ 2 /\
  (0.1 <= L -> calculateShadowArea A_hand L 0 = A_hand).
Proof.
  intros HA HL Hh. unfold calculateShadowArea. cbv zeta.
  pose proof (calculateScale_mono L h1 h2 HL Hh) as Hm.
  pose proof (calculateScale_nonneg L h1 HL) as H1.
  pose proof (calculateScale_nonneg L h2 HL) as H2.
  pose proof (calculateScale_upper L h2 HL) as Hu.
  split; [|split].
  - apply Rmult_le_compat_l; [assumption|]. nra.
  - apply Rmult_le_compat_l; [assumption|]. nra.
  - intros HL1. rewrite calculateScale_near by lra.
    replace (L / (L - 0)) with 1 by (field; lra). lra.
Qed.

Lemma calculateShadowArea_monotone_witness :
  0 <= 2000 /\ 0 <= 50 /\ 5 <= 10 /\
  calculateShadowArea 2000 50 5 <= calculateShadowArea 2000 50 10.
Proof.
  split; [lra|]. split; [lra|]. split; [lra|].
  destruct (calculateShadowArea_monotone 2000 50 5 10
              ltac:(lra) ltac:(lra) ltac:(lra)) as (H & _).
  exact H.
Defined.

Lemma getLabel_TOUCHING h : getLabel h = TOUCHING <-> h < 2.
Proof.
  unfold getLabel. destruct (CameraAnalysis.Rltb h 2) eqn:E2.
  - apply Rltb_true in E2. tauto.
  - assert (~ h < 2) by (intros H; apply Rltb_true in H; congruence).
    destruct (CameraAnalysis.Rltb h 10); split; intros; try discriminate; lra.
Qed.

Lemma getLabel_AWAY h : getLabel h = AWAY <-> 10 <= h.
Proof.
  unfold getLabel. destruct (CameraAnalysis.Rltb h 2) eqn:E2.
  - apply Rltb_true in E2. split; intros; [discriminate|lra].
  - destruct (CameraAnalysis.Rltb h 10) eqn:E10.
    + apply Rltb_true in E10. split; intros; [discriminate|lra].
    + assert (~ h < 10) by (intros H; apply Rltb_true in H; congruence).
      split; intros; [lra|reflexivity].
Qed.

Lemma estimateH_value L a s :
  0 < a -> 0 < s ->
  estimateH L a s = if Rle_dec a s then Rmax 0 (L - L * sqrt (a / s)) else 0.
Proof.
  intros Ha Hs. unfold estimateH. destruct (Rle_dec a s) as [Hle|Hgt].
  - rewrite estimateH_away by assumption. reflexivity.
  - rewrite estimateH_touching by lra. reflexivity.
Qed.

(** X15.  For L >= 0 and A_hand > 0 the estimate never decreases as a
    positive shadow area grows, and the labels follow: once AWAY, a larger
    shadow is AWAY; if TOUCHING, a smaller positive shadow is TOUCHING. *)
Theorem estimateH_monotone (L A_hand s1 s2 : R) :
  0 <= L -> 0 < A_hand -> 0 < s1 -> s1 <= s2 ->
  estimateH L A_hand s1 <= estimateH L A_hand s2 /\
  (getLabel (estimateH L A_hand s1) = AWAY ->
   getLabel (estimateH L A_hand s2) = AWAY) /\
  (getLabel (estimateH L A_hand s2) = TOUCHING ->
   getLabel (estimateH L A_hand s1) = TOUCHING).
Proof.
  intros HL Ha H1 H12.
  assert (estimateH L A_hand s1 <= estimateH L A_hand s2) as Hm.
  { rewrite !estimateH_value by lra.
    destruct (Rle_dec A_hand s1) as [Hle1|Hgt1];
      destruct (Rle_dec A_hand s2) as [Hle2|Hgt2]; try lra.
    - assert (sqrt (A_hand / s2) <= sqrt (A_hand / s1)) as Hq.
      { apply sqrt_le_1_alt. unfold Rdiv.
        apply Rmult_le_compat_l; [lra|].
        apply Rinv_le_contravar; assumption. }
      apply Rmax_lub; [apply Rmax_l|].
      eapply Rle_trans; [|apply Rmax_r]. nra.
    - apply Rmax_l. }
  split; [assumption|]. rewrite !getLabel_AWAY, !getLabel_TOUCHING.
  split; intros; lra.
Qed.

Lemma estimateH_monotone_witness :
  0 <= 50 /\ 0 < 2000 /\ 0 < 2500 /\ 2500 <= 8000 /\
  estimateH 50 2000 2500 <= estimateH 50 2000 8000.
Proof.
  split; [lra|]. split; [lra|]. split; [lra|]. split; [lra|].
  destruct (estimateH_monotone 50 2000 2500 8000
              ltac:(lra) ltac:(lra) ltac:(lra) ltac:(lra)) as (H & _).
  exact H.
Defined.

(** X16.  The label of the estimate in the degenerate cases: with no
    shadow or no hand area (A_shadow <= 0 or A_hand <= 0) and L >= 10 the
    label is AWAY; with a positive shadow no larger than the hand the
    estimate is 0 and the label TOUCHING; and with 0 <= L < 2 every
    positive pair of areas is TOUCHING. *)
Theorem getLabel_of_estimate (L A_hand A_shadow : R) :
  (A_shadow <= 0 \/ A_hand <= 0 -> 10 <= L ->
   getLabel (estimateH L A_hand A_shadow) = AWAY) /\
  (0 < A_shadow <= A_hand ->
   estimateH L A_hand A_shadow = 0 /\
   getLabel (estimateH L A_hand A_shadow) = TOUCHING) /\
  (0 <= L < 2 -> 0 < A_shadow -> 0 < A_hand ->
   getLabel (estimateH L A_hand A_shadow) = TOUCHING).
Proof.
  split; [|split].
  - intros Hd HL. unfold estimateH.
    rewrite estimateH_nonpositive by assumption.
    apply getLabel_AWAY. cbn. lra.
  - intros [Hs Hsa].
    assert (estimateH L A_hand A_shadow = 0) as E.
    { rewrite estimateH_value by lra.
      destruct (Rle_dec A_hand A_shadow) as [Hle|Hgt]; [|reflexivity].
      replace A_hand with A_shadow by lra.
      replace (A_shadow / A_shadow) with 1 by (field; lra).
      rewrite sqrt_1. replace (L - L * 1) with 0 by lra.
      apply Rmax_left. lra. }
    split; [assumption|]. rewrite E. apply getLabel_TOUCHING. lra.
  - intros HL Hs Ha. apply getLabel_TOUCHING.
    rewrite estimateH_value by lra.
    destruct (Rle_dec A_hand A_shadow) as [Hle|Hgt]; [|lra].
    pose proof (sqrt_ratio_bounds A_hand A_shadow Hs Ha Hle) as [Hq0 Hq1].
    apply Rmax_lub_lt; [lra|nra].
Qed.

End ProjectionFacts.

(** ** The application state *)

Module AppFacts.
Import Constants ConstantsFacts ProjectionFacts App.
#[local] Open Scope R_scope.

Lemma handle_A_hand s e :
  0 < A_hand (state s) -> 0 < A_hand (state (handle s e)).
Proof.
  intros H. destruct e; cbn; try assumption.
  destruct (Rgtb area 0) eqn:E; [|assumption].
  apply Rgtb_true in E. cbn. lra.
Qed.

(** X18.  Whatever the handlers receive, in whatever order, A_hand stays
    positive: a calibration with an area that is not positive is ignored
    and leaves the wizard open, and a calibration with a positive area
    stores it and closes the wizard. *)
Theorem A_hand_stays_positive (events : list Event) :
  let s := run events in
  0 < A_hand (state s) /\
  (forall area, area <= 0 -> handle s (finalizeCalibration area) = s) /\
  (forall area, 0 < area ->
     A_hand (state (handle s (finalizeCalibration area))) = area /\
     isCalibrating (handle s (finalizeCalibration area)) = false).
Proof.
  cbv zeta. split; [|split].
  - unfold run. induction events as [|e events IH] using rev_ind.
    + cbn. unfold DEFAULT_A_HAND. lra.
    + rewrite fold_left_app. cbn [fold_left]. apply handle_A_hand. exact IH.
  - intros area Ha. cbn [handle].
    destruct (Rgtb area 0) eqn:E; [|reflexivity].
    apply Rgtb_true in E. lra.
  - intros area Ha. cbn [handle].
    destruct (Rgtb area 0) eqn:E; [split; reflexivity|].
    apply Rgtb_false in E. lra.
Qed.

End AppFacts.

(** ** The calibration wizard *)

Module CalibrationWizardFacts.
Import CalibrationWizard.

Lemma captured_more clicks pb a :
  captured clicks a -> captured (clicks ++ [pb]) a.
Proof.
  intros (Ha & p & Hin & Hs & Hc). split; [assumption|].
  exists p. split; [|split; assumption]. apply in_or_app. left. assumption.
Qed.

Lemma session_snoc clicks pb s :
  session (clicks ++ [pb]) s
  = let acc := session clicks s in
    match click (fst pb) (fst acc) (snd pb) with
    | Some (s', Some c) => (s', snd acc ++ [c])
    | Some (s', None) => (s', snd acc)
    | None => acc
    end.
Proof. unfold session. rewrite fold_left_app. reflexivity. Qed.

Lemma session_invariant clicks :
  wizard_invariant clicks (session clicks initial).
Proof.
  induction clicks as [|[p b] clicks IH] using rev_ind.
  - unfold wizard_invariant, session, initial, INTRO, CONFIRM.
    cbn [fold_left fst snd step capturedArea].
    split; [lia|]. split; [discriminate|]. intros a [].
  - rewrite session_snoc. cbv zeta. cbn [fst snd].
    destruct (session clicks initial) as [s out].
    destruct IH as (Hr & Hc & Ho). cbn [fst snd] in *.
    assert (forall a, In (onComplete a) out ->
              captured (clicks ++ [(p, b)]) a) as Ho'
      by (intros a Ha; apply captured_more, Ho, Ha).
    assert (step s = CONFIRM ->
            captured (clicks ++ [(p, b)]) (capturedArea s)) as Hc'
      by (intros E; apply captured_more, Hc, E).
    unfold INTRO, CONFIRM, CLEAR_SURFACE, PLACE_HAND in *.
    unfold wizard_invariant.
    destruct b; cbn [click];
      unfold INTRO, CONFIRM, CLEAR_SURFACE, PLACE_HAND, nextStep, prevStep.
    + (* Begin Calibration *)
      destruct (Z.eqb_spec (step s) 0) as [E|E];
        cbn [fst snd step capturedArea].
      * split; [lia|]. split; [lia|assumption].
      * split; [lia|]. split; assumption.
    + (* Back *)
      destruct (Z.eqb_spec (step s) 1) as [E|E];
        [|destruct (Z.eqb_spec (step s) 2) as [E'|E']];
        cbn [orb fst snd step capturedArea];
        (split; [lia|]); (split; [try lia; assumption|assumption]).
    + (* Confirm Clear *)
      destruct (Z.eqb_spec (step s) 1) as [E|E];
        [destruct (100 <? currentDetectedArea p)|];
        cbn [andb negb fst snd step capturedArea];
        (split; [lia|]); (split; [try lia; assumption|assumption]).
    + (* Capture Area *)
      destruct (Z.eqb_spec (step s) 2) as [E|E];
        [destruct (isStable p) eqn:Es;
         [destruct (Z.ltb_spec (currentDetectedArea p) 200) as [Hlt|Hge]|]|];
        cbn [andb orb negb fst snd step capturedArea];
        (split; [lia|]); (split; [try lia; try assumption|assumption]).
      intros _. split; [assumption|]. exists p.
      split; [apply in_or_app; right; left; reflexivity|].
      split; [assumption|reflexivity].
    + (* Retake *)
      destruct (Z.eqb_spec (step s) 3) as [E|E];
        cbn [fst snd step capturedArea];
        (split; [lia|]); (split; [try lia; assumption|assumption]).
    + (* Save and Exit *)
      destruct (Z.eqb_spec (step s) 3) as [E|E];
        cbn [fst snd step capturedArea];
        (split; [lia|]); (split; [assumption|]); [|assumption].
      intros a Ha. apply in_app_or in Ha as [Ha|[Ha|[]]]; [auto|].
      injection Ha as <-. auto.
    + (* the closing cross *)
      cbn [fst snd step capturedArea].
      split; [lia|]. split; [assumption|].
      intros a Ha. apply in_app_or in Ha as [Ha|[Ha|[]]]; [auto|discriminate].
Qed.

(** X19.  In every session of the wizard, whatever is clicked and whatever
    the camera reports between the clicks, the step stays one of the four
    panels, and every area handed to [onComplete] is an area of at least
    200 that was detected, with a stable signal, at a click on Capture
    Area. *)
Theorem wizard_hands_over_stable_area (clicks : list (Props * Button)) :
  let '(s, out) := session clicks initial in
  INTRO <= step s <= CONFIRM /\
  forall a, In (onComplete a) out ->
    200 <= a /\
    exists p, In (p, CaptureArea) clicks /\ isStable p = true /\
              currentDetectedArea p = a.
Proof.
  pose proof (session_invariant clicks) as H.
  destruct (session clicks initial) as [s out].
  destruct H as (Hr & _ & Ho). split; [exact Hr|]. exact Ho.
Qed.

(** A session that completes: the surface is clear, the hand is measured
    at 900 with a stable signal, and the area is saved. *)
Lemma session_completes :
  session
    [(mkProps 30 false, BeginCalibration); (mkProps 30 false, ConfirmClear);
     (mkProps 900 true, CaptureArea); (mkProps 880 true, SaveAndExit)]
    initial
  = (mkState CONFIRM 900, [onComplete 900]).
Proof. reflexivity. Qed.

End CalibrationWizardFacts.
